(** * BOPES sampler: a shallow embedding of
      [qiskit_nature/algorithms/pes_samplers/bopes_sampler.py]

    The module samples a potential-energy surface: it solves a ground-state
    problem at each point of a sweep and warm-starts a variational solver
    from the optimal parameters found at earlier points.

    Modelling conventions.
    - Python objects that are shared and mutated (solver instances, the
      extrapolator handed to the constructor) live in a store indexed by
      locations; a reference is a location, so aliasing is visible.
    - A Python [dict] is an insertion-ordered association list with unique
      keys ([pydict]); assigning to an existing key keeps its position.
    - A method is a function on the state it can touch, returning an
      [outcome] (a value or a raised exception) and the state afterwards:
      effects made before an exception is raised persist, as in Python.
    - External collaborators (solving engines, the converter, the
      extrapolation algorithm, the factory) are parameters. A solving engine
      answers with a result or raises; it reads the instance that solves but
      does not write the attributes the sampler reads. The extrapolation
      algorithm is a function of its window, the points and the history.
    - A float distance is carried as the exact rational it denotes (every
      finite float is a rational; NaN and infinities are left out). *)

From Stdlib Require Import QArith Qabs ZArith Lia.
From stdpp Require Import base decidable option list gmap strings.

Set Default Proof Using "Type".
Local Open Scope string_scope.
Local Open Scope list_scope.

(** ** Exceptions and outcomes *)

Inductive exn : Type :=
| QiskitNatureError (msg : string)
| ValueError (msg : string)
| IndexError
| TypeError
| AttributeError
| SolverError (code : nat).

(** [isinstance(e, QiskitNatureError)]: [ValueError] and the other built-in
    exceptions are not subclasses of [QiskitNatureError]. *)
Definition is_QiskitNatureError (e : exn) : bool :=
  match e with QiskitNatureError _ => true | _ => false end.

Definition is_ValueError (e : exn) : bool :=
  match e with ValueError _ => true | _ => false end.

Inductive outcome (A : Type) : Type :=
| Return (a : A)
| Raise (e : exn).
Arguments Return {A} a.
Arguments Raise {A} e.

Definition raises {A} (o : outcome A) (p : exn → bool) : Prop :=
  match o with Raise e => p e = true | Return _ => False end.

(** A computation over a state [S]: the state after an exception is the
    state at the point where it was raised. *)
Definition M (S A : Type) : Type := S → outcome A * S.

Definition ret {S A} (a : A) : M S A := λ s, (Return a, s).
Definition throw {S A} (e : exn) : M S A := λ s, (Raise e, s).
Definition bind {S A B} (c : M S A) (k : A → M S B) : M S B :=
  λ s, match c s with
       | (Return a, s') => k a s'
       | (Raise e, s') => (Raise e, s')
       end.
Definition get_state {S} : M S S := λ s, (Return s, s).
Definition modify {S} (f : S → S) : M S unit := λ s, (Return tt, f s).
Definition lift_outcome {S A} (o : outcome A) : M S A := λ s, (o, s).

Notation "'do' x <- c ; k" := (bind c (λ x, k))
  (at level 10, x name, c at level 100, k at level 200).
Notation "c ;; k" := (bind c (λ _, k))
  (at level 100, k at level 200, right associativity).

(** The computation [c] neither reads nor writes what [f] changes in the
    state. *)
Definition ignores {S A} (f : S → S) (c : M S A) : Prop :=
  ∀ s, c (f s) = ((c s).1, f (c s).2).

(** ** Python dictionaries *)

Definition pydict (K V : Type) : Type := list (K * V).

Section pydict.
Context {K V : Type} `{EqDecision K}.

(** [d.get(k)] *)
Fixpoint dict_get (k : K) (d : pydict K V) : option V :=
  match d with
  | [] => None
  | (k', v) :: d' => if decide (k' = k) then Some v else dict_get k d'
  end.

(** [d[k] = v]: an existing key keeps its place (and its key object),
    a new key goes to the end. *)
Fixpoint dict_setitem (k : K) (v : V) (d : pydict K V) : pydict K V :=
  match d with
  | [] => [(k, v)]
  | (k', v') :: d' =>
      if decide (k' = k) then (k', v) :: d'
      else (k', v') :: dict_setitem k v d'
  end.

(** [del d[k]], without the [KeyError]. *)
Definition dict_remove (k : K) (d : pydict K V) : pydict K V :=
  filter (λ kv, kv.1 ≠ k) d.

(** [d.pop(k, dflt)]: the value and the dictionary afterwards. *)
Definition dict_pop (k : K) (dflt : V) (d : pydict K V) : V * pydict K V :=
  (default dflt (dict_get k d), dict_remove k d).

(** [d.update(l)] for a list of pairs: the assignments in order. *)
Definition dict_update (l : list (K * V)) (d : pydict K V) : pydict K V :=
  foldl (λ acc kv, dict_setitem kv.1 kv.2 acc) d l.

(** [list(d.keys())] and [list(d.values())] *)
Definition dict_keys (d : pydict K V) : list K := d.*1.
Definition dict_values (d : pydict K V) : list V := d.*2.
End pydict.

(** ** Data model *)

Definition loc : Type := nat.

Inductive DriverKind : Type :=
| DeprecatedBaseDriver
| ElectronicStructureMoleculeDriver
| VibrationalStructureMoleculeDriver
| UnsupportedDriver.

Section model.
(** Sweep points, variational parameter vectors, energies, second-quantized
    operators, mapped operators, raw eigensolver results, and the metadata
    the problem hands to the converter. *)
Context {point params energy op qop raw_mes converter particles locator : Type}.
Context `{EqDecision point}.

Record Molecule : Type := { perturbations : list point }.

Record Driver : Type := {
  driver_kind : DriverKind;
  molecule : option Molecule
}.

(** What [problem.second_q_ops()] returns: a list, or a dict whose values
    may be [None]. *)
Inductive SecondQOps : Type :=
| OpsList (l : list op)
| OpsDict (d : pydict string (option op)).

Record Problem : Type := {
  driver : Driver;
  second_q_ops : SecondQOps;
  main_property_name : string;
  num_particles : particles;
  symmetry_sector_locator : locator
}.

Record RawResult : Type := { optimal_point : params }.

Record EigenstateResult : Type := {
  total_energies : list energy;
  raw_result : RawResult
}.

(** A solver instance: whether it is a [VariationalAlgorithm], and its
    [initial_point] attribute ([None] when unset). *)
Record SolverObj : Type := {
  variational : bool;
  initial_point : option params
}.

(** An extrapolator instance: whether it is a [WindowExtrapolator], its
    [window] attribute, and its [extrapolate] method (which may read the
    window). Instances are truthy: the class defines neither [__bool__]
    nor [__len__]. *)
Record ExtrapolatorObj : Type := {
  is_WindowExtrapolator : bool;
  window : Z;
  extrapolate : Z → list point → pydict point params → pydict point params
}.

Definition set_window (w : Z) (e : ExtrapolatorObj) : ExtrapolatorObj :=
  {| is_WindowExtrapolator := is_WindowExtrapolator e;
     window := w;
     extrapolate := extrapolate e |}.

Definition set_initial_point (p : option params) (o : SolverObj) : SolverObj :=
  {| variational := variational o; initial_point := p |}.

Abbreviation SolverStore := (gmap loc SolverObj).
Abbreviation ExtrapolatorStore := (gmap loc ExtrapolatorObj).

(** Dereferencing an attribute that holds a solver or [None]. *)
Definition deref (st : SolverStore) (x : option loc) : option SolverObj :=
  match x with
  | Some l => st !! l
  | None => None
  end.

(** The [gss] argument: a [GroundStateSolver] wrapping a solver instance,
    or a [MinimumEigensolverFactory] whose [get_solver(problem, converter)]
    hands out a solver instance (newly allocated or not) and may touch the
    solver store. *)
Inductive GSS : Type :=
| GroundStateSolver (solver : loc)
| MinimumEigensolverFactory
    (get_solver : Problem → converter → SolverStore → SolverStore * loc).

(** *** [prepare_problem] *)

Variable convert : converter → op → particles → locator → qop.

(** [prepare_problem(problem, qubit_converter)], lines 38-66. The state is
    the object returned by [problem.second_q_ops()]: the dict branch pops
    the main entry from it. A [qubit_converter] that is [None] fails at
    the attribute access [qubit_converter.convert]. *)
Definition prepare_problem (problem : Problem)
    (qubit_converter : option converter) : M SecondQOps qop :=
  do ops <- get_state;
  do main_second_q_op <-
    match ops with
    | OpsList l =>
        match l with
        | main :: _ => ret main
        | [] => throw IndexError
        end
    | OpsDict d =>
        let name := main_property_name problem in
        let '(main, d') := dict_pop name None d in
        modify (λ _, OpsDict d');;
        match main with
        | Some main => ret main
        | None =>
            throw (ValueError
              "The main `SecondQuantizedOp` associated with the property cannot be `None`.")
        end
    end;
  match qubit_converter with
  | Some qc =>
      ret (convert qc main_second_q_op
             (num_particles problem) (symmetry_sector_locator problem))
  | None => throw AttributeError
  end.

(** *** The sampler object *)

Record BOPESSampler : Type := {
  _gss : GSS;
  _tolerance : Q;
  _bootstrap : bool;
  _problem : option Problem;
  _points : option (list point);
  _energies : option (list energy);
  _raw_results : option (pydict point EigenstateResult);
  _points_optparams : option (pydict point params);
  _num_bootstrap : option Z;
  _extrapolator : option loc;
  _solver : option loc;
  _initial_point : option params;
  _qubit_converter : option converter
}.

(** [isinstance(x, VariationalAlgorithm)] for a reference that may be
    [None]. (A reference to nothing in the store does not arise in Python;
    it counts as not variational.) *)
Definition is_variational (st : SolverStore) (x : option loc) : bool :=
  match deref st x with
  | Some o => variational o
  | None => false
  end.

Definition is_window_extrapolator (st : ExtrapolatorStore) (l : loc) : bool :=
  match st !! l with
  | Some e => is_WindowExtrapolator e
  | None => false
  end.

(** [BOPESSampler.__init__], lines 72-139. The state is the store of
    extrapolator instances: the constructor writes the [window] of the
    instance it is given. The solver store is only read. *)
Definition __init__ (solvers : SolverStore)
    (gss : GSS) (tolerance : Q) (bootstrap : bool)
    (num_bootstrap : option Z) (extrapolator : option loc)
    (qubit_converter : option converter)
  : M ExtrapolatorStore BOPESSampler :=
  let solver :=
    match gss with
    | GroundStateSolver l => Some l
    | MinimumEigensolverFactory _ => None
    end in
  do num_bootstrap' <-
    match extrapolator with
    | Some ext =>
        match num_bootstrap with
        | None => ret (Some 2%Z)
        | Some k =>
            if (2 <=? k)%Z then
              do st <- get_state;
              if is_window_extrapolator st ext then
                modify (alter (set_window k) ext);;
                ret (Some k)
              else
                throw (QiskitNatureError
                  "If num_bootstrap >= 2 then the extrapolator must be an instance of WindowExtrapolator")
            else
              throw (QiskitNatureError
                "num_bootstrap must be None or an integer greater than or equal to 2")
        end
    | None => ret num_bootstrap
    end;
  let initial :=
    match gss with
    | GroundStateSolver _ =>
        if is_variational solvers solver
        then deref solvers solver ≫= initial_point
        else None
    | MinimumEigensolverFactory _ => None
    end in
  ret {| _gss := gss;
         _tolerance := tolerance;
         _bootstrap := bootstrap;
         _problem := None;
         _points := None;
         _energies := None;
         _raw_results := None;
         _points_optparams := None;
         _num_bootstrap := num_bootstrap';
         _extrapolator := extrapolator;
         _solver := solver;
         _initial_point := initial;
         _qubit_converter := qubit_converter |}.

(** *** Sweep state *)

(** Which branch of lines 251-276 was taken for a point, with the value
    written to the solver's [initial_point] where one was written. *)
Inductive Guess : Type :=
| NoLookup
| EmptyHistory
| NearestNeighbour (min_index : nat) (v : params)
| Extrapolated (v : option params).

(** One invocation of a solving engine, as the engine sees it: the point
    of the sweep, the branch taken before, the instance that solves and
    its attributes at that moment, and what the engine answered. The list
    of invocations is a record of what happened; the sampler never reads
    it, the engines may depend on its length (a solver need not answer
    the same way twice). *)
Record Call : Type := {
  call_point : point;
  call_guess : Guess;
  call_solver : option loc;
  call_solver_obj : option SolverObj;
  call_result : outcome EigenstateResult
}.

Record World : Type := {
  self : BOPESSampler;
  solver_store : SolverStore;
  extrapolator_store : ExtrapolatorStore;
  calls : list Call
}.

Record BOPESSamplerResult : Type := {
  points : list point;
  energies : list energy;
  raw_results : pydict point EigenstateResult
}.

Definition with_self (f : BOPESSampler → BOPESSampler) (w : World) : World :=
  {| self := f (self w);
     solver_store := solver_store w;
     extrapolator_store := extrapolator_store w;
     calls := calls w |}.

Definition with_solver_store (f : SolverStore → SolverStore) (w : World) : World :=
  {| self := self w;
     solver_store := f (solver_store w);
     extrapolator_store := extrapolator_store w;
     calls := calls w |}.

Definition log_call (c : Call) (w : World) : World :=
  {| self := self w;
     solver_store := solver_store w;
     extrapolator_store := extrapolator_store w;
     calls := (calls w ++ [c])%list |}.

Definition set_problem (x : option Problem) (s : BOPESSampler) : BOPESSampler :=
  {| _gss := _gss s; _tolerance := _tolerance s; _bootstrap := _bootstrap s;
     _problem := x;
     _points := _points s; _energies := _energies s;
     _raw_results := _raw_results s;
     _points_optparams := _points_optparams s;
     _num_bootstrap := _num_bootstrap s; _extrapolator := _extrapolator s;
     _solver := _solver s; _initial_point := _initial_point s;
     _qubit_converter := _qubit_converter s |}.

Definition set_points (x : option (list point)) (s : BOPESSampler) : BOPESSampler :=
  {| _gss := _gss s; _tolerance := _tolerance s; _bootstrap := _bootstrap s;
     _problem := _problem s;
     _points := x; _energies := _energies s;
     _raw_results := _raw_results s;
     _points_optparams := _points_optparams s;
     _num_bootstrap := _num_bootstrap s; _extrapolator := _extrapolator s;
     _solver := _solver s; _initial_point := _initial_point s;
     _qubit_converter := _qubit_converter s |}.

Definition set_energies (x : option (list energy)) (s : BOPESSampler) : BOPESSampler :=
  {| _gss := _gss s; _tolerance := _tolerance s; _bootstrap := _bootstrap s;
     _problem := _problem s;
     _points := _points s; _energies := x;
     _raw_results := _raw_results s;
     _points_optparams := _points_optparams s;
     _num_bootstrap := _num_bootstrap s; _extrapolator := _extrapolator s;
     _solver := _solver s; _initial_point := _initial_point s;
     _qubit_converter := _qubit_converter s |}.

Definition set_raw_results (x : option (pydict point EigenstateResult))
    (s : BOPESSampler) : BOPESSampler :=
  {| _gss := _gss s; _tolerance := _tolerance s; _bootstrap := _bootstrap s;
     _problem := _problem s;
     _points := _points s; _energies := _energies s;
     _raw_results := x;
     _points_optparams := _points_optparams s;
     _num_bootstrap := _num_bootstrap s; _extrapolator := _extrapolator s;
     _solver := _solver s; _initial_point := _initial_point s;
     _qubit_converter := _qubit_converter s |}.

Definition set_points_optparams (x : option (pydict point params))
    (s : BOPESSampler) : BOPESSampler :=
  {| _gss := _gss s; _tolerance := _tolerance s; _bootstrap := _bootstrap s;
     _problem := _problem s;
     _points := _points s; _energies := _energies s;
     _raw_results := _raw_results s;
     _points_optparams := x;
     _num_bootstrap := _num_bootstrap s; _extrapolator := _extrapolator s;
     _solver := _solver s; _initial_point := _initial_point s;
     _qubit_converter := _qubit_converter s |}.

Definition set_solver (x : option loc) (s : BOPESSampler) : BOPESSampler :=
  {| _gss := _gss s; _tolerance := _tolerance s; _bootstrap := _bootstrap s;
     _problem := _problem s;
     _points := _points s; _energies := _energies s;
     _raw_results := _raw_results s;
     _points_optparams := _points_optparams s;
     _num_bootstrap := _num_bootstrap s; _extrapolator := _extrapolator s;
     _solver := x; _initial_point := _initial_point s;
     _qubit_converter := _qubit_converter s |}.

(** A sampler that was built with another bootstrap flag. *)
Definition set_bootstrap (x : bool) (s : BOPESSampler) : BOPESSampler :=
  {| _gss := _gss s; _tolerance := _tolerance s; _bootstrap := x;
     _problem := _problem s;
     _points := _points s; _energies := _energies s;
     _raw_results := _raw_results s;
     _points_optparams := _points_optparams s;
     _num_bootstrap := _num_bootstrap s; _extrapolator := _extrapolator s;
     _solver := _solver s; _initial_point := _initial_point s;
     _qubit_converter := _qubit_converter s |}.

(** A sampler that differs in the tolerance it was built with. *)
Definition set_tolerance (x : Q) (s : BOPESSampler) : BOPESSampler :=
  {| _gss := _gss s; _tolerance := x; _bootstrap := _bootstrap s;
     _problem := _problem s;
     _points := _points s; _energies := _energies s;
     _raw_results := _raw_results s;
     _points_optparams := _points_optparams s;
     _num_bootstrap := _num_bootstrap s; _extrapolator := _extrapolator s;
     _solver := _solver s; _initial_point := _initial_point s;
     _qubit_converter := _qubit_converter s |}.

(** [self._driver.molecule.perturbations = [point]] on a problem whose
    driver carries the molecule [m]. *)
Definition perturb (point : point) (pb : Problem) : Problem :=
  {| driver := {| driver_kind := driver_kind (driver pb);
                  molecule := Some {| perturbations := [point] |} |};
     second_q_ops := second_q_ops pb;
     main_property_name := main_property_name pb;
     num_particles := num_particles pb;
     symmetry_sector_locator := symmetry_sector_locator pb |}.

(** [self._solver.initial_point = v] *)
Definition assign_initial_point (v : option params) : M World unit :=
  do w <- get_state;
  match _solver (self w) with
  | Some l => modify (with_solver_store (alter (set_initial_point v) l))
  | None => throw AttributeError
  end.

(** *** Nearest neighbour *)

(** [np.linalg.norm] of the row [point - prev]. *)
Variable norm_diff : point → point → Q.

(** [np.argmin]: the position of the first minimum. *)
Fixpoint argmin_from (best_i : nat) (best : Q) (i : nat) (l : list Q) : nat :=
  match l with
  | [] => best_i
  | x :: l' =>
      if Qle_bool best x then argmin_from best_i best (S i) l'
      else argmin_from i x (S i) l'
  end.

Definition argmin (l : list Q) : nat :=
  match l with
  | [] => 0
  | x :: l' => argmin_from 0 x 1 l'
  end.

(** Lines 251-276: choose and write the initial point for [point]. A
    history that was never created fails at [.keys()]; a window that is
    [None] fails at the comparison with [n_pp]. (In the last branch the
    extrapolator is there: without one [n_boot] is [n_pp], and a reference
    to nothing in the store does not arise in Python.) *)
Definition warm_start (point : point) : M World Guess :=
  do w <- get_state;
  let s := self w in
  if is_variational (solver_store w) (_solver s) && _bootstrap s then
    match _points_optparams s with
    | None => throw AttributeError
    | Some optparams =>
        let prev_points := dict_keys optparams in
        let prev_params := dict_values optparams in
        let n_pp := length prev_points in
        let n_boot :=
          match _extrapolator s with
          | None => Some (Z.of_nat (length prev_points))
          | Some _ => _num_bootstrap s
          end in
        match prev_points with
        | [] => ret EmptyHistory
        | _ :: _ =>
            match n_boot with
            | None => throw TypeError
            | Some n_boot =>
                if (Z.of_nat n_pp <=? n_boot)%Z then
                  let distances := map (norm_diff point) prev_points in
                  let min_index := argmin distances in
                  match prev_params !! min_index with
                  | Some v =>
                      assign_initial_point (Some v);;
                      ret (NearestNeighbour min_index v)
                  | None => throw IndexError
                  end
                else
                  match _extrapolator s ≫= (λ l, extrapolator_store w !! l) with
                  | Some e =>
                      let param_sets :=
                        extrapolate e (window e) [point] optparams in
                      let v := dict_get point param_sets in
                      assign_initial_point v;;
                      ret (Extrapolated v)
                  | None => throw AttributeError
                  end
            end
        end
    end
  else ret NoLookup.

(** *** Solving engines *)

(** [GroundStateSolver.solve(problem)], run by the wrapped solver instance
    [obj]; [n] counts the invocations made so far. *)
Variable gss_solve : nat → Problem → option SolverObj → outcome EigenstateResult.

(** [solver.compute_minimum_eigenvalue(operator)] on the instance [obj],
    and [problem.interpret(raw)]. *)
Variable compute_minimum_eigenvalue : nat → option SolverObj → qop → outcome raw_mes.
Variable interpret : Problem → raw_mes → EigenstateResult.

(** The driver check of lines 158-171 and 233-246. [self._driver] is the
    driver object of [self._problem] (both names reach the same molecule),
    so the model keeps the problem only; before the first [sample] both are
    [None], which is no supported driver. A deprecated driver only triggers
    a warning. *)
Definition check_driver : M World Problem :=
  do w <- get_state;
  match _problem (self w) with
  | None =>
      throw (QiskitNatureError
        "Driver must be ElectronicStructureMoleculeDriver or VibrationalStructureMoleculeDriver.")
  | Some pb =>
      match driver_kind (driver pb) with
      | DeprecatedBaseDriver
      | ElectronicStructureMoleculeDriver
      | VibrationalStructureMoleculeDriver => ret pb
      | UnsupportedDriver =>
          throw (QiskitNatureError
            "Driver must be ElectronicStructureMoleculeDriver or VibrationalStructureMoleculeDriver.")
      end
  end.

(** [prepare_problem] on the collection a new call of
    [problem.second_q_ops()] builds; that collection is dropped after. *)
Definition prepare (pb : Problem) (qc : option converter) : M World qop :=
  λ w, ((prepare_problem pb qc (second_q_ops pb)).1, w).

(** [self._solver = self._gss.get_solver(problem, converter)] *)
Definition resolve_solver
    (get_solver : Problem → converter → SolverStore → SolverStore * loc)
    (pb : Problem) (qc : converter) : M World unit :=
  do w <- get_state;
  let '(st', l) := get_solver pb qc (solver_store w) in
  modify (with_solver_store (λ _, st'));;
  modify (with_self (set_solver (Some l))).

(** Lines 278-287: the solve for [point], on the perturbed problem. *)
Definition solve (point : point) (guess : Guess) (pb : Problem)
  : M World EigenstateResult :=
  do w <- get_state;
  match _gss (self w) with
  | GroundStateSolver l =>
      let obj := solver_store w !! l in
      let r := gss_solve (length (calls w)) pb obj in
      modify (log_call {| call_point := point; call_guess := guess;
                          call_solver := Some l; call_solver_obj := obj;
                          call_result := r |});;
      lift_outcome r
  | MinimumEigensolverFactory get_solver =>
      do _main_operator <- prepare pb (_qubit_converter (self w));
      match _qubit_converter (self w) with
      | None => throw AttributeError
      | Some qc =>
          resolve_solver get_solver pb qc;;
          do w' <- get_state;
          let obj := deref (solver_store w') (_solver (self w')) in
          let r :=
            match compute_minimum_eigenvalue (length (calls w')) obj _main_operator with
            | Return raw => Return (interpret pb raw)
            | Raise e => Raise e
            end in
          modify (log_call {| call_point := point; call_guess := guess;
                              call_solver := _solver (self w');
                              call_solver_obj := obj;
                              call_result := r |});;
          lift_outcome r
      end
  end.

(** Lines 289-293: save the optimal point under [point]. *)
Definition record_optimal_point (point : point) (result : EigenstateResult)
  : M World unit :=
  do w <- get_state;
  if is_variational (solver_store w) (_solver (self w)) then
    match _points_optparams (self w) with
    | Some optparams =>
        let optimal_params := optimal_point (raw_result result) in
        modify (with_self (set_points_optparams
                  (Some (dict_setitem point optimal_params optparams))))
    | None => throw TypeError
    end
  else ret tt.

(** [BOPESSampler._run_single_point], lines 219-295. *)
Definition _run_single_point (point : point) : M World EigenstateResult :=
  do pb <- check_driver;
  match molecule (driver pb) with
  | None => throw AttributeError
  | Some _ =>
      let pb' := perturb point pb in
      modify (with_self (set_problem (Some pb')));;
      do guess <- warm_start point;
      do result <- solve point guess pb';
      record_optimal_point point result;;
      ret result
  end.

(** The loop of lines 212-215. *)
Fixpoint run_loop (points : list point)
    (raw_results : pydict point EigenstateResult)
  : M World (pydict point EigenstateResult) :=
  match points with
  | [] => ret raw_results
  | point :: rest =>
      do raw_result <- _run_single_point point;
      run_loop rest (dict_setitem point raw_result raw_results)
  end.

(** [BOPESSampler._run_points], lines 197-217. *)
Definition _run_points (points : list point)
  : M World (pydict point EigenstateResult) :=
  do w <- get_state;
  (if is_variational (solver_store w) (_solver (self w)) then
     modify (with_self (set_points_optparams (Some [])));;
     assign_initial_point (_initial_point (self w))
   else ret tt);;
  run_loop points [].

(** The loop of lines 188-191. *)
Fixpoint collect_energies (results : list EigenstateResult) : M World unit :=
  match results with
  | [] => ret tt
  | res :: rest =>
      match total_energies res with
      | e :: _ =>
          modify (with_self (λ s,
            set_energies (Some (default [] (_energies s) ++ [e])%list) s));;
          collect_energies rest
      | [] => throw IndexError
      end
  end.

(** Lines 155-182 of [sample]: keep the problem, check its driver and
    molecule and, with a factory, prepare the operator once and resolve
    the solver. *)
Definition bind_problem (problem : Problem) : M World unit :=
  modify (with_self (set_problem (Some problem)));;
  do pb <- check_driver;
  match molecule (driver pb) with
  | None => throw (QiskitNatureError "Driver MUST be configured with a Molecule.")
  | Some _ =>
      do w <- get_state;
      match _gss (self w) with
      | GroundStateSolver _ => ret tt
      | MinimumEigensolverFactory get_solver =>
          match _qubit_converter (self w) with
          | None =>
              throw (QiskitNatureError
                "When using MinimumEigensolverFactory you must specify a qubit converter")
          | Some qc =>
              prepare problem (Some qc);;
              resolve_solver get_solver problem qc
          end
      end
  end.

(** Lines 185-193 of [sample]: keep the table of results and derive the
    points and the energies from it. *)
Definition aggregate (raw : pydict point EigenstateResult)
  : M World BOPESSamplerResult :=
  modify (with_self (set_raw_results (Some raw)));;
  modify (with_self (set_points (Some (dict_keys raw))));;
  modify (with_self (set_energies (Some [])));;
  collect_energies (dict_values raw);;
  do w <- get_state;
  ret {| points := default [] (_points (self w));
         energies := default [] (_energies (self w));
         raw_results := default [] (_raw_results (self w)) |}.

(** [BOPESSampler.sample], lines 141-195. *)
Definition sample (problem : Problem) (points : list point)
  : M World BOPESSamplerResult :=
  bind_problem problem;;
  do raw <- _run_points points;
  aggregate raw.

(** *** Vocabulary of the properties *)

(** The points of a list in the order of their first occurrence. *)
Definition first_occurrences (l : list point) : list point :=
  foldl (λ acc p, if decide (p ∈ acc) then acc else acc ++ [p])%list [] l.

(** The entries of the point history; a history that was never created
    ([None]) has none. *)
Definition history_entries (s : BOPESSampler) : pydict point params :=
  default [] (_points_optparams s).

(** The invocations logged between two states. *)
Definition new_calls (w w' : World) : list Call :=
  drop (length (calls w)) (calls w').

(** The evaluations that came back with a result: point and result. *)
Definition evaluations (cs : list Call) : list (point * EigenstateResult) :=
  omap (λ c, match call_result c with
             | Return r => Some (call_point c, r)
             | Raise _ => None
             end) cs.

(** The last invocation made for the point [p]. *)
Definition last_call_at (p : point) (cs : list Call) : option Call :=
  last (filter (λ c, call_point c = p) cs).

(** The solver the sampler resolves is variational ([v = true]) or not
    ([v = false]): for a [GroundStateSolver] this is read off the instance
    the sampler holds, for a factory it is a property of every instance
    the factory hands out. *)
Definition resolved_kind (v : bool) (w : World) : Prop :=
  match _gss (self w) with
  | GroundStateSolver _ =>
      is_variational (solver_store w) (_solver (self w)) = v
  | MinimumEigensolverFactory get_solver =>
      ∀ pb qc st,
        is_variational (get_solver pb qc st).1 (Some (get_solver pb qc st).2) = v
  end.

(** The optimal points of a table of results. *)
Definition optimal_points (d : pydict point EigenstateResult)
  : pydict point params :=
  prod_map id (λ r, optimal_point (raw_result r)) <$> d.

(** What construction fixes in a sampler. *)
Definition config (s : BOPESSampler) :=
  (_gss s, _tolerance s, _bootstrap s, _num_bootstrap s, _extrapolator s,
   _initial_point s, _qubit_converter s).

(** A problem that passes the checks of lines 158-174: a driver of a
    supported (or deprecated) kind that carries a molecule. *)
Definition valid_problem (pb : Problem) : Prop :=
  driver_kind (driver pb) ≠ UnsupportedDriver ∧ is_Some (molecule (driver pb)).

(** The sampler was built around a [GroundStateSolver] wrapping the solver
    instance [l] (lines 112-113). *)
Definition prebound (l : loc) (w : World) : Prop :=
  _gss (self w) = GroundStateSolver l ∧ _solver (self w) = Some l.

(** The store [st'] differs from [st] at most in the [initial_point] of the
    instance [x]. *)
Definition only_initial_point_of (x : option loc) (st st' : SolverStore)
  : Prop :=
  ∀ l, variational <$> st' !! l = variational <$> st !! l
       ∧ (x ≠ Some l → st' !! l = st !! l).

(** The state in which [_run_points] enters its loop (lines 207-209): with
    a variational solver the history is emptied and the solver gets the
    saved initial point. *)
Definition sweep_start (w : World) : World :=
  if is_variational (solver_store w) (_solver (self w)) then
    match _solver (self w) with
    | Some l =>
        with_solver_store
          (alter (set_initial_point (_initial_point (self w))) l)
          (with_self (set_points_optparams (Some [])) w)
    | None => w
    end
  else w.

(** A variational solver has a history to read and to write. *)
Definition history_ready (w : World) : Prop :=
  is_variational (solver_store w) (_solver (self w)) = true →
  is_Some (_points_optparams (self w)).

(** What a sweep leaves alone, as a relation between the state before and
    the state after: the configuration and the extrapolators and, around a
    [GroundStateSolver], the solver held and all of the solver instances
    but its initial point. *)
Definition framed (w w' : World) : Prop :=
  config (self w') = config (self w)
  ∧ extrapolator_store w' = extrapolator_store w
  ∧ ∀ l, _gss (self w) = GroundStateSolver l →
         _solver (self w') = _solver (self w)
         ∧ only_initial_point_of (_solver (self w))
             (solver_store w) (solver_store w').

(** The extrapolator of the sampler, if it has one, is an instance of the
    store, and the sampler has a window for it. *)
Definition window_ready (w : World) : Prop :=
  ∀ ext, _extrapolator (self w) = Some ext →
         is_Some (extrapolator_store w !! ext)
         ∧ is_Some (_num_bootstrap (self w)).

End model.

(** ** A concrete instance

    Points and energies are rationals, parameter vectors are lists of
    rationals, operators are named by strings. *)

Module Example.

#[global] Instance Q_eq_dec : EqDecision Q.
Proof. solve_decision. Defined.

Abbreviation point := Q (only parsing).
Abbreviation params := (list Q) (only parsing).
Abbreviation problem := (@Problem Q string nat unit) (only parsing).
Abbreviation solver_obj := (@SolverObj (list Q)) (only parsing).
Abbreviation result := (@EigenstateResult (list Q) Q) (only parsing).
Abbreviation sampler :=
  (@BOPESSampler Q (list Q) Q string unit nat unit) (only parsing).
Abbreviation world :=
  (@World Q (list Q) Q string unit nat unit) (only parsing).

Definition convert (qc : unit) (o : string) (n : nat) (l : unit) : string := o.

(** The Euclidean distance between two scalar points. *)
Definition norm_diff (p k : Q) : Q := Qabs (p - k).

(** An engine that reports the square of the perturbation as the energy
    and, as the optimal point, the perturbation and the number of the
    invocation. *)
Definition gss_solve (n : nat) (pb : problem) (obj : option solver_obj)
  : outcome result :=
  match molecule (driver pb) with
  | Some {| perturbations := p :: _ |} =>
      Return {| total_energies := [(p * p)%Q; 0%Q];
                raw_result := {| optimal_point := [p; inject_Z (Z.of_nat n)] |} |}
  | _ => Raise (SolverError 0)
  end.

(** An engine whose optimum is the number of the invocation plus one. *)
Definition compute_minimum_eigenvalue (n : nat) (obj : option solver_obj)
    (o : string) : outcome (list Q) :=
  Return [inject_Z (Z.of_nat n + 1)].

Definition interpret (pb : problem) (raw : list Q) : result :=
  {| total_energies := raw; raw_result := {| optimal_point := raw |} |}.

Definition molecule_problem (kind : DriverKind) (ops : SecondQOps) : problem :=
  {| driver := {| driver_kind := kind;
                  molecule := Some {| perturbations := [] |} |};
     second_q_ops := ops;
     main_property_name := "ElectronicEnergy";
     num_particles := 2;
     symmetry_sector_locator := tt |}.

Definition h2 : problem :=
  molecule_problem ElectronicStructureMoleculeDriver (OpsList ["H"]).

(** A problem whose operators come as a dict without the main entry. *)
Definition no_main : problem :=
  molecule_problem ElectronicStructureMoleculeDriver
    (OpsDict [("ParticleNumber", Some "N")]).

Definition vqe (p : option (list Q)) : solver_obj :=
  {| variational := true; initial_point := p |}.
Definition numpy_solver : solver_obj :=
  {| variational := false; initial_point := None |}.

(** Solver instances: a variational one at 1, an exact one at 2. *)
Definition solvers : gmap loc solver_obj :=
  {[ 1 := vqe (Some [7%Q]); 2 := numpy_solver ]}.

(** Extrapolator instances: a window extrapolator at 1, a plain one
    at 2. Both answer with the parameters of the last history entry. *)
Definition last_entry (w : Z) (pts : list Q) (h : pydict Q (list Q))
  : pydict Q (list Q) :=
  match last h with
  | Some (_, v) => (λ p, (p, v)) <$> pts
  | None => []
  end.

Definition extrapolators : gmap loc (@ExtrapolatorObj Q (list Q)) :=
  {[ 1 := {| is_WindowExtrapolator := true; window := 2;
             extrapolate := last_entry |};
     2 := {| is_WindowExtrapolator := false; window := 0;
             extrapolate := last_entry |} ]}.

(** A factory that builds a new variational solver at every call, with
    the initial point [[0]] it was configured with. *)
Definition fresh_loc (st : gmap loc solver_obj) : loc :=
  S (map_fold (λ k _ acc, k `max` acc) 0 st).

Definition fresh_vqe_factory (pb : problem) (qc : unit)
    (st : gmap loc solver_obj) : gmap loc solver_obj * loc :=
  let l := fresh_loc st in
  (<[l := vqe (Some [0%Q])]> st, l).

(** A factory that hands out its variational instance for an electronic
    structure problem and its exact solver for any other. *)
Definition by_problem_factory (pb : problem) (qc : unit)
    (st : gmap loc solver_obj) : gmap loc solver_obj * loc :=
  match driver_kind (driver pb) with
  | ElectronicStructureMoleculeDriver => (st, 1)
  | _ => (st, 2)
  end.

(** Construction over these stores. *)
Definition construct (gss : GSS) (bootstrap : bool) (num_bootstrap : option Z)
    (extrapolator : option loc) (qubit_converter : option unit)
  : outcome sampler * gmap loc ExtrapolatorObj :=
  __init__ (energy := Q) (op := string) (particles := nat) (locator := unit)
    solvers gss 0.001%Q bootstrap num_bootstrap extrapolator
    qubit_converter extrapolators.

(** The sampler that construction yields around the solver instance [l],
    whose initial point is [ip]. *)
Definition prebound_sampler (l : loc) (ip : option (list Q))
    (bootstrap : bool) (num_bootstrap : option Z) (extrapolator : option loc)
  : sampler :=
  {| _gss := GroundStateSolver l; _tolerance := 0.001%Q;
     _bootstrap := bootstrap; _problem := None; _points := None;
     _energies := None; _raw_results := None; _points_optparams := None;
     _num_bootstrap := num_bootstrap; _extrapolator := extrapolator;
     _solver := Some l; _initial_point := ip; _qubit_converter := None |}.

(** The sampler that construction yields around a factory. *)
Definition factory_sampler
    (f : problem → unit → gmap loc solver_obj → gmap loc solver_obj * loc)
  : sampler :=
  {| _gss := MinimumEigensolverFactory f; _tolerance := 0.001%Q;
     _bootstrap := true; _problem := None; _points := None;
     _energies := None; _raw_results := None; _points_optparams := None;
     _num_bootstrap := None; _extrapolator := None;
     _solver := None; _initial_point := None;
     _qubit_converter := Some tt |}.

(** The state a first [sample] starts from. *)
Definition world_of (s : sampler) : world :=
  {| self := s; solver_store := solvers;
     extrapolator_store := extrapolators; calls := [] |}.

(** A state in the middle of a sweep over [h2], with history [h]. *)
Definition sweeping (h : pydict Q (list Q)) (s : sampler) : world :=
  world_of (set_points_optparams (Some h) (set_problem (Some h2) s)).

Definition run (pb : problem) (pts : list Q) (w : world) :=
  sample convert norm_diff gss_solve compute_minimum_eigenvalue interpret
    pb pts w.

Definition run_point (pt : Q) (w : world) :=
  _run_single_point convert norm_diff gss_solve compute_minimum_eigenvalue
    interpret pt w.

(** A variational sampler that bootstraps from its whole history, one
    with a window extrapolator and window 2, and an exact one. *)
Definition vqe_sampler : sampler :=
  prebound_sampler 1 (Some [7%Q]) true None None.
Definition window_sampler : sampler :=
  prebound_sampler 1 (Some [7%Q]) true (Some 2%Z) (Some 1).
Definition exact_sampler : sampler :=
  prebound_sampler 2 None true None None.

(** The history of the nearest-neighbour example. *)
Definition two_points : pydict Q (list Q) :=
  [(1.0%Q, [10%Q]); (3.0%Q, [30%Q])].
Definition three_points : pydict Q (list Q) :=
  [(1.0%Q, [10%Q]); (3.0%Q, [30%Q]); (2.0%Q, [20%Q])].

Definition vibrational : problem :=
  molecule_problem VibrationalStructureMoleculeDriver (OpsList ["H"]).

(** A problem whose driver is of no supported kind. *)
Definition unsupported : problem :=
  molecule_problem UnsupportedDriver (OpsList ["H"]).

(** An engine that answers like [gss_solve] but fails at its second
    invocation. *)
Definition failing_solve (n : nat) (pb : problem) (obj : option solver_obj)
  : outcome result :=
  if decide (n = 1) then Raise (SolverError 1) else gss_solve n pb obj.

Definition run_failing (pb : problem) (pts : list Q) (w : world) :=
  sample convert norm_diff failing_solve compute_minimum_eigenvalue
    interpret pb pts w.

(** The variational sampler after an earlier sweep: the solver still holds
    the guess [[10]] of that sweep, the sampler the initial point [[7]]
    saved at construction. *)
Definition warmed : world :=
  with_solver_store (alter (set_initial_point (Some [10%Q])) 1)
    (world_of vqe_sampler).

(** A table of two results, and one whose second result has no energy. *)
Definition energy_result (es : list Q) : result :=
  {| total_energies := es; raw_result := {| optimal_point := [] |} |}.
Definition two_results : pydict Q result :=
  [(1.0%Q, energy_result [5%Q; 6%Q]); (2.0%Q, energy_result [4%Q])].
Definition no_energy : pydict Q result :=
  [(1.0%Q, energy_result [5%Q]); (2.0%Q, energy_result [])].

End Example.

(** ** Properties of dictionaries *)

Section pydict_facts.
Context {K V : Type} `{EqDecision K}.
Implicit Types (k : K) (v : V) (d : pydict K V).

Lemma dict_get_remove_eq k d : dict_get k (dict_remove k d) = None.
Proof.
  unfold dict_remove, pydict in *.
  induction d as [|[k' v'] d IH]; [done|].
  rewrite filter_cons. simpl. case_decide; simpl; [|done].
  by case_decide.
Qed.

Lemma dict_get_remove_ne k k' d :
  k' ≠ k → dict_get k' (dict_remove k d) = dict_get k' d.
Proof.
  intros Hne. unfold dict_remove, pydict in *.
  induction d as [|[k0 v0] d IH]; [done|].
  rewrite filter_cons. simpl. case_decide; simpl.
  - by rewrite IH.
  - case_decide; [congruence|done].
Qed.

Lemma dict_get_setitem k k' v d :
  dict_get k' (dict_setitem k v d)
  = if decide (k = k') then Some v else dict_get k' d.
Proof.
  induction d as [|[k0 v0] d IH]; simpl.
  - repeat case_decide; congruence.
  - repeat (case_decide; simpl); try congruence.
    all: rewrite IH; case_decide; congruence.
Qed.

Lemma dict_get_Some_keys k v d : dict_get k d = Some v → k ∈ dict_keys d.
Proof.
  unfold dict_keys. induction d as [|[k0 v0] d IH]; simpl; [done|].
  case_decide; [subst; intros; apply list_elem_of_here|].
  intros. apply list_elem_of_further. auto.
Qed.

Lemma dict_get_None_keys k d : dict_get k d = None ↔ k ∉ dict_keys d.
Proof.
  unfold dict_keys. induction d as [|[k0 v0] d IH]; simpl.
  - split; [intros _; apply not_elem_of_nil|done].
  - rewrite not_elem_of_cons. case_decide as Hk.
    + split; [done|]. intros [Hne _]. by destruct Hne.
    + rewrite IH. split; [intros ?; split; [congruence|done]|by intros [_ ?]].
Qed.

Lemma dict_keys_setitem k v d :
  dict_keys (dict_setitem k v d)
  = if decide (k ∈ dict_keys d) then dict_keys d else dict_keys d ++ [k].
Proof.
  unfold dict_keys. induction d as [|[k0 v0] d IH]; [done|].
  cbn [dict_setitem fmap list_fmap fst].
  destruct (decide (k0 = k)) as [->|Hk].
  - rewrite decide_True; [done|apply list_elem_of_here].
  - cbn [fmap list_fmap fst]. rewrite IH.
    destruct (decide (k ∈ d.*1)) as [Hin|Hin].
    + rewrite decide_True; [done|by apply list_elem_of_further].
    + rewrite decide_False; [done|].
      rewrite not_elem_of_cons. split; congruence.
Qed.

Lemma dict_setitem_NoDup k v d :
  NoDup (dict_keys d) → NoDup (dict_keys (dict_setitem k v d)).
Proof.
  intros Hd. rewrite dict_keys_setitem. case_decide; [done|].
  apply NoDup_app. split_and!; [done| |apply NoDup_singleton].
  intros x Hx Hx'. apply list_elem_of_singleton in Hx'. by subst.
Qed.

Lemma dict_lookup_get (i : nat) k v d :
  NoDup (dict_keys d) → d !! i = Some (k, v) → dict_get k d = Some v.
Proof.
  unfold dict_keys. revert i. induction d as [|[k0 v0] d IH]; intros i Hd Hi; [done|].
  simpl in *. apply NoDup_cons in Hd as [Hk0 Hd].
  destruct i as [|i]; simpl in Hi.
  - injection Hi as -> ->. by rewrite decide_True.
  - case_decide as Hk; [|by eapply IH].
    subst. exfalso. apply Hk0.
    apply list_elem_of_lookup_2 in Hi.
    by apply (list_elem_of_fmap_2 fst) in Hi.
Qed.

Lemma dict_setitem_fmap {W} (f : V → W) k v d :
  dict_setitem k (f v) (prod_map id f <$> d)
  = prod_map id f <$> dict_setitem k v d.
Proof.
  unfold pydict in *. induction d as [|[k0 v0] d IH]; [done|].
  cbn [fmap list_fmap dict_setitem prod_map id fst snd].
  destruct (decide (k0 = k)); [done|].
  cbn [fmap list_fmap prod_map id fst snd]. f_equal. apply IH.
Qed.

Lemma dict_update_snoc (l : list (K * V)) k v d :
  dict_update (l ++ [(k, v)]) d = dict_setitem k v (dict_update l d).
Proof. unfold dict_update. by rewrite foldl_snoc. Qed.

Lemma dict_update_NoDup (l : list (K * V)) d :
  NoDup (dict_keys d) → NoDup (dict_keys (dict_update l d)).
Proof.
  revert d. induction l as [|[k v] l IH]; intros d Hd; [done|].
  apply IH. by apply dict_setitem_NoDup.
Qed.

(** The keys after a sequence of assignments: the old keys, then the new
    ones in the order of their first assignment. *)
Lemma dict_update_keys (l : list (K * V)) d :
  dict_keys (dict_update l d)
  = foldl (λ acc k, if decide (k ∈ acc) then acc else acc ++ [k])
      (dict_keys d) l.*1.
Proof.
  revert d. induction l as [|[k v] l IH]; intros d; [done|].
  cbn [dict_update foldl fmap list_fmap fst snd].
  unfold dict_update in IH. by rewrite IH, dict_keys_setitem.
Qed.

(** Last write wins: a key holds the value of its last assignment. *)
Lemma dict_update_get (l : list (K * V)) k d :
  dict_get k (dict_update l d)
  = match last (filter (λ kv, kv.1 = k) l) with
    | Some kv => Some kv.2
    | None => dict_get k d
    end.
Proof.
  induction l as [|[k' v'] l IH] using rev_ind; [done|].
  rewrite dict_update_snoc, dict_get_setitem, filter_app, filter_cons.
  rewrite filter_nil. cbn [fst snd].
  destruct (decide (k' = k)) as [->|Hne].
  - by rewrite last_snoc.
  - by rewrite app_nil_r.
Qed.

Lemma dict_update_fmap {W} (f : V → W) (l : list (K * V)) d :
  dict_update (prod_map id f <$> l) (prod_map id f <$> d)
  = prod_map id f <$> dict_update l d.
Proof.
  revert d. induction l as [|[k v] l IH]; intros d; [done|].
  cbn [dict_update foldl fmap list_fmap prod_map id fst snd].
  rewrite dict_setitem_fmap. apply IH.
Qed.
End pydict_facts.

(** ** Properties of [argmin] *)

Section argmin_facts.
Local Open Scope Q_scope.

(** [argmin_from] scans [l], the part of the array after the prefix [pre]
    whose first minimum is [best], at position [best_i]. *)
Lemma argmin_from_spec (l pre : list Q) (best_i : nat) (best : Q) :
  pre !! best_i = Some best →
  (∀ j x, pre !! j = Some x → best <= x) →
  (∀ j x, (j < best_i)%nat → pre !! j = Some x → best < x) →
  let m := argmin_from best_i best (length pre) l in
  ∃ b, (pre ++ l) !! m = Some b
       ∧ (∀ j x, (pre ++ l) !! j = Some x → b <= x)
       ∧ (∀ j x, (j < m)%nat → (pre ++ l) !! j = Some x → b < x).
Proof.
  revert pre best_i best.
  induction l as [|x l IH]; intros pre best_i best Hbest Hmin Hfirst; simpl.
  - rewrite app_nil_r. eauto.
  - replace (pre ++ x :: l) with ((pre ++ [x]) ++ l) by by rewrite <- app_assoc.
    replace (S (length pre)) with (length (pre ++ [x]))
      by (rewrite length_app; simpl; lia).
    destruct (Qle_bool best x) eqn:Hle.
    + apply Qle_bool_iff in Hle. apply IH.
      * rewrite lookup_app_l; [done|]. by eapply lookup_lt_Some.
      * intros j y Hj. apply lookup_snoc_Some in Hj as [[_ Hj]|[_ <-]]; eauto.
      * intros j y Hlt Hj.
        apply lookup_snoc_Some in Hj as [[_ Hj]|[-> <-]]; [eauto|].
        apply lookup_lt_Some in Hbest. lia.
    + assert (x < best) as Hlt.
      { apply Qnot_le_lt. intros Hle'. apply Qle_bool_iff in Hle'. congruence. }
      apply IH.
      * apply lookup_snoc_Some. right. done.
      * intros j y Hj. apply lookup_snoc_Some in Hj as [[_ Hj]|[_ <-]].
        -- apply Qlt_le_weak. eapply Qlt_le_trans; eauto.
        -- apply Qle_refl.
      * intros j y Hj Hy.
        apply lookup_snoc_Some in Hy as [[_ Hy]|[-> _]]; [|lia].
        eapply Qlt_le_trans; eauto.
Qed.

(** [argmin] returns the position of a minimum, and every earlier element
    is strictly larger. *)
Lemma argmin_spec (l : list Q) :
  l ≠ [] →
  ∃ b, l !! argmin l = Some b
       ∧ (∀ j x, l !! j = Some x → b <= x)
       ∧ (∀ j x, (j < argmin l)%nat → l !! j = Some x → b < x).
Proof.
  destruct l as [|x l]; [done|]. intros _. unfold argmin.
  apply (argmin_from_spec l [x] 0 x).
  - done.
  - intros [|j] y Hj; simplify_eq/=. apply Qle_refl.
  - intros j y Hj. lia.
Qed.
End argmin_facts.

(** ** Proof steps for computations *)

(** Case analysis on the innermost scrutinee of the goal. *)
Ltac destruct_match :=
  match goal with
  | |- context [match ?x with _ => _ end] =>
      lazymatch x with
      | context [match _ with _ => _ end] => fail
      | _ => destruct x eqn:?
      end
  end.

(** Run a computation symbolically: unfold the operations of [M] and split
    on every branch. *)
Ltac run_M :=
  unfold lift_outcome, bind, get_state, modify, ret, throw;
  cbn -[prepare_problem];
  repeat (destruct_match; cbn -[prepare_problem]).

(** Reduce the projections of an updated state. *)
Ltac proj :=
  cbn [fst snd self solver_store extrapolator_store calls
       with_self with_solver_store log_call
       set_problem set_points set_energies set_raw_results
       set_points_optparams set_solver
       _gss _tolerance _bootstrap _problem _points _energies _raw_results
       _points_optparams _num_bootstrap _extrapolator _solver _initial_point
       _qubit_converter] in *.

Lemma bind_eq {S A B} (c : M S A) (k : A → M S B) (s : S) :
  bind c k s = match c s with
               | (Return a, s') => k a s'
               | (Raise e, s') => (Raise e, s')
               end.
Proof. reflexivity. Qed.

Lemma snoc_neq {A} (l : list A) (x : A) : l ++ [x] ≠ l.
Proof.
  intros Hl. apply (f_equal length) in Hl.
  rewrite length_app in Hl. simpl in Hl. lia.
Qed.

(** ** Properties of the sampler *)

Section properties.
Context {point params energy op qop raw_mes converter particles locator : Type}.
Context `{EqDecision point}.

Local Abbreviation Problem' := (@Problem point op particles locator).
Local Abbreviation SolverObj' := (@SolverObj params).
Local Abbreviation ExtrapolatorObj' := (@ExtrapolatorObj point params).
Local Abbreviation Result' := (@EigenstateResult params energy).
Local Abbreviation GSS' := (@GSS point params op converter particles locator).
Local Abbreviation Sampler' :=
  (@BOPESSampler point params energy op converter particles locator).
Local Abbreviation World' :=
  (@World point params energy op converter particles locator).
Local Abbreviation init :=
  (@__init__ point params energy op converter particles locator).
Local Abbreviation retune t :=
  (@with_self point params energy op converter particles locator
     (set_tolerance t)).

Variable convert : converter → op → particles → locator → qop.
Variable norm_diff : point → point → Q.
Variable gss_solve : nat → Problem' → option SolverObj' → outcome Result'.
Variable compute_minimum_eigenvalue : nat → option SolverObj' → qop → outcome raw_mes.
Variable interpret : Problem' → raw_mes → Result'.

(** *** The problem adapter *)

(** C9, as amended. When [second_q_ops()] yields a mapping,
    [prepare_problem] always removes the entry keyed by the main property
    name from it and leaves the other entries alone; it raises
    [ValueError] when that entry is absent or holds [None], and otherwise
    goes on to the conversion of the entry. *)
Theorem prepare_problem_mapping (pb : Problem') (qc : option converter)
    (d : pydict string (option op)) :
  let name := main_property_name pb in
  let r := prepare_problem convert pb qc (OpsDict d) in
  r.2 = OpsDict (dict_remove name d)
  ∧ dict_get name (dict_remove name d) = None
  ∧ (∀ k, k ≠ name → dict_get k (dict_remove name d) = dict_get k d)
  ∧ (dict_get name d = None ∨ dict_get name d = Some None →
     raises r.1 is_ValueError)
  ∧ (∀ o, dict_get name d = Some (Some o) →
     r.1 = match qc with
           | Some c => Return (convert c o (num_particles pb)
                                 (symmetry_sector_locator pb))
           | None => Raise AttributeError
           end).
Proof.
  intros name r. subst r.
  unfold prepare_problem, bind, get_state, modify, ret, throw, dict_pop.
  fold name. cbn [fst snd].
  split_and!.
  - destruct (default None (dict_get name d)); [by destruct qc|done].
  - apply dict_get_remove_eq.
  - intros k Hk. by apply dict_get_remove_ne.
  - intros [-> | ->]; done.
  - intros o ->. by destruct qc.
Qed.

(** *** Construction *)

(** The window check of lines 117-132, as the code makes it. With an
    extrapolator supplied, a window below 2 is rejected with
    [QiskitNatureError], and so is a window of 2 or more when the
    extrapolator is not a [WindowExtrapolator]; both leave the extrapolator
    untouched. With no extrapolator supplied the check is not reached. *)
Theorem init_window_check (solvers : gmap loc SolverObj') (gss : GSS')
    (tolerance : Q) (bootstrap : bool) (k : Z) (extrapolator : option loc)
    (qubit_converter : option converter) (est : gmap loc ExtrapolatorObj') :
  let r := init solvers gss tolerance bootstrap (Some k) extrapolator
             qubit_converter est in
  (∀ l, extrapolator = Some l → (k < 2)%Z →
     raises r.1 is_QiskitNatureError ∧ r.2 = est)
  ∧ (∀ l, extrapolator = Some l → (2 ≤ k)%Z →
     is_window_extrapolator est l = false →
     raises r.1 is_QiskitNatureError ∧ r.2 = est)
  ∧ (extrapolator = None →
     ∃ s, r = (Return s, est) ∧ _num_bootstrap s = Some k).
Proof.
  intros r. subst r. split_and!.
  - intros l -> Hk.
    unfold __init__, bind, throw. cbn.
    destruct (Z.leb_spec 2 k); [lia|done].
  - intros l -> Hk Hw.
    unfold __init__, bind, throw, get_state. cbn.
    destruct (Z.leb_spec 2 k); [|lia]. by rewrite Hw.
  - intros ->. unfold __init__, bind, ret. cbn. eauto.
Qed.

(** C10. Given a window extrapolator and a window [k >= 2], the
    constructor succeeds, keeps [k] as the sampler's window and writes [k]
    into the [window] of the very instance it was handed, leaving every
    other instance alone; given no window it writes nothing and the
    sampler's window is 2. *)
Theorem init_sets_window (solvers : gmap loc SolverObj') (gss : GSS')
    (tolerance : Q) (bootstrap : bool) (l : loc)
    (qubit_converter : option converter) (est : gmap loc ExtrapolatorObj') :
  (∀ k e, est !! l = Some e → is_WindowExtrapolator e = true → (2 ≤ k)%Z →
     ∃ s est',
       init solvers gss tolerance bootstrap (Some k) (Some l)
         qubit_converter est = (Return s, est')
       ∧ _num_bootstrap s = Some k
       ∧ _extrapolator s = Some l
       ∧ est' !! l = Some (set_window k e)
       ∧ window (set_window k e) = k
       ∧ ∀ l', l' ≠ l → est' !! l' = est !! l')
  ∧ (∃ s,
       init solvers gss tolerance bootstrap None (Some l)
         qubit_converter est = (Return s, est)
       ∧ _num_bootstrap s = Some 2%Z
       ∧ _extrapolator s = Some l).
Proof.
  split.
  - intros k e He Hw Hk.
    unfold __init__, bind, throw, get_state, modify, ret. cbn.
    destruct (Z.leb_spec 2 k); [|lia].
    unfold is_window_extrapolator. rewrite He, Hw.
    eexists _, _. split_and!; try reflexivity.
    + rewrite lookup_alter_eq, He. done.
    + intros l' Hl'. by rewrite lookup_alter_ne.
  - unfold __init__, bind, ret. cbn. eauto.
Qed.

(** *** The warm start *)

Lemma is_variational_Some (st : gmap loc SolverObj') (x : option loc) :
  is_variational st x = true →
  ∃ l o, x = Some l ∧ st !! l = Some o ∧ variational o = true.
Proof.
  unfold is_variational, deref. destruct x as [l|]; [|done].
  destruct (st !! l) as [o|] eqn:Hl; [|done]. eauto.
Qed.

Lemma warm_start_skip (pt : point) (w : World') :
  is_variational (solver_store w) (_solver (self w)) && _bootstrap (self w)
    = false →
  warm_start norm_diff pt w = (Return NoLookup, w).
Proof.
  intros Hc. unfold warm_start, bind, get_state. cbn. by rewrite Hc.
Qed.

Lemma warm_start_empty (pt : point) (w : World') :
  is_variational (solver_store w) (_solver (self w)) = true →
  _bootstrap (self w) = true →
  _points_optparams (self w) = Some [] →
  warm_start norm_diff pt w = (Return EmptyHistory, w).
Proof.
  intros Hv Hb Hh. unfold warm_start, bind, get_state. cbn.
  by rewrite Hv, Hb, Hh.
Qed.

(** The nearest-neighbour branch: the history has at most as many entries
    as the window (which is the size of the history itself when there is no
    extrapolator). *)
Lemma warm_start_nearest (pt : point) (w : World') (h : pydict point params)
    (l : loc) :
  is_variational (solver_store w) (_solver (self w)) = true →
  _bootstrap (self w) = true →
  _points_optparams (self w) = Some h →
  h ≠ [] →
  _solver (self w) = Some l →
  match _extrapolator (self w) with
  | None => True
  | Some _ =>
      ∃ k, _num_bootstrap (self w) = Some k ∧ (Z.of_nat (length h) ≤ k)%Z
  end →
  let i := argmin (map (norm_diff pt) (dict_keys h)) in
  ∃ v, dict_values h !! i = Some v
       ∧ warm_start norm_diff pt w
         = (Return (NearestNeighbour i v),
            with_solver_store (alter (set_initial_point (Some v)) l) w).
Proof.
  intros Hv Hb Hh Hne Hl Hwin i.
  assert (is_Some (dict_values h !! i)) as [v Hi].
  { apply lookup_lt_is_Some.
    destruct (argmin_spec (map (norm_diff pt) (dict_keys h))) as (b & Hb' & _).
    { unfold dict_keys. by destruct h. }
    apply lookup_lt_Some in Hb'. fold i in Hb'.
    unfold dict_keys, dict_values in *.
    by rewrite length_map, !length_fmap in *. }
  exists v. split; [done|].
  unfold warm_start, bind, get_state. cbn.
  rewrite Hv, Hb, Hh. cbn. fold i. clearbody i.
  assert (length (dict_keys h) = length h) as Hlen
    by (unfold dict_keys; apply length_fmap).
  rewrite Hlen.
  destruct (dict_keys h) as [|k0 ks] eqn:Hks.
  { unfold dict_keys in Hks. by destruct h. }
  destruct (_extrapolator (self w)) as [ext|].
  - destruct Hwin as (k & -> & Hk).
    destruct (Z.leb_spec (Z.of_nat (length h)) k); [|lia].
    rewrite Hi. unfold assign_initial_point, bind, get_state, modify, ret.
    cbn. by rewrite Hl.
  - rewrite Z.leb_refl, Hi.
    unfold assign_initial_point, bind, get_state, modify, ret.
    cbn. by rewrite Hl.
Qed.

(** The extrapolation branch: the history has more entries than the
    window. *)
Lemma warm_start_extrapolate (pt : point) (w : World')
    (h : pydict point params) (l ext : loc) (e : ExtrapolatorObj') (k : Z) :
  is_variational (solver_store w) (_solver (self w)) = true →
  _bootstrap (self w) = true →
  _points_optparams (self w) = Some h →
  h ≠ [] →
  _solver (self w) = Some l →
  _extrapolator (self w) = Some ext →
  extrapolator_store w !! ext = Some e →
  _num_bootstrap (self w) = Some k →
  (k < Z.of_nat (length h))%Z →
  let v := dict_get pt (extrapolate e (window e) [pt] h) in
  warm_start norm_diff pt w
  = (Return (Extrapolated v),
     with_solver_store (alter (set_initial_point v) l) w).
Proof.
  intros Hv Hb Hh Hne Hl Hext He Hk Hlt v.
  unfold warm_start, bind, get_state. cbn.
  rewrite Hv, Hb, Hh, Hext, Hk. cbn.
  assert (length (dict_keys h) = length h) as Hlen
    by (unfold dict_keys; apply length_fmap).
  rewrite Hlen.
  destruct (dict_keys h) as [|k0 ks] eqn:Hks.
  { unfold dict_keys in Hks. by destruct h. }
  destruct (Z.leb_spec (Z.of_nat (length h)) k); [lia|].
  rewrite He. fold v.
  unfold assign_initial_point, bind, get_state, modify, ret.
  cbn. by rewrite Hl.
Qed.

(** *** One point of a sweep, step by step *)

Lemma is_variational_alter (st : gmap loc SolverObj') (v : option params)
    (l : loc) (x : option loc) :
  is_variational (alter (set_initial_point v) l st) x = is_variational st x.
Proof.
  unfold is_variational, deref. destruct x as [l'|]; [|done].
  destruct (decide (l = l')) as [->|Hne].
  - rewrite lookup_alter_eq. by destruct (st !! l').
  - by rewrite lookup_alter_ne.
Qed.

(** The warm start touches nothing but the [initial_point] of the solver
    the sampler holds. *)
Lemma warm_start_frame (pt : point) (w : World') :
  let r := warm_start norm_diff pt w in
  self r.2 = self w
  ∧ extrapolator_store r.2 = extrapolator_store w
  ∧ calls r.2 = calls w
  ∧ (solver_store r.2 = solver_store w
     ∨ ∃ l v, _solver (self w) = Some l
              ∧ solver_store r.2
                = alter (set_initial_point v) l (solver_store w)).
Proof.
  unfold warm_start, assign_initial_point. run_M; split_and!; eauto.
Qed.

Lemma warm_start_variational (pt : point) (w : World') (x : option loc) :
  is_variational (solver_store (warm_start norm_diff pt w).2) x
  = is_variational (solver_store w) x.
Proof.
  destruct (warm_start_frame pt w) as (_ & _ & _ & [-> | (l & v & _ & ->)]);
    [done|apply is_variational_alter].
Qed.

(** Recording the optimal point: a variational solver writes the entry of
    the point into the history, any other solver writes nothing. *)
Lemma record_optimal_point_spec (pt : point) (res : Result') (w : World') :
  record_optimal_point pt res w
  = if is_variational (solver_store w) (_solver (self w)) then
      match _points_optparams (self w) with
      | Some h =>
          (Return tt,
           with_self (set_points_optparams
             (Some (dict_setitem pt (optimal_point (raw_result res)) h))) w)
      | None => (Raise TypeError, w)
      end
    else (Return tt, w).
Proof.
  unfold record_optimal_point, bind, get_state, modify, ret, throw. cbn.
  destruct (is_variational _ _); [|done].
  by destruct (_points_optparams (self w)).
Qed.

(** The solve with a [GroundStateSolver]: the wrapped instance solves. *)
Lemma solve_prebound (pt : point) (g : Guess) (pb : Problem') (w : World')
    (l : loc) :
  _gss (self w) = GroundStateSolver l →
  let obj := solver_store w !! l in
  let r := gss_solve (length (calls w)) pb obj in
  solve convert gss_solve compute_minimum_eigenvalue interpret pt g pb w
  = (r, log_call {| call_point := pt; call_guess := g;
                    call_solver := Some l; call_solver_obj := obj;
                    call_result := r |} w).
Proof.
  intros Hg. unfold solve, lift_outcome, bind, get_state, modify. cbn.
  rewrite Hg. cbn. by destruct (gss_solve _ _ _).
Qed.

(** The solve with a factory: the operator is prepared, the factory hands
    out the instance that solves, and the sampler holds that instance from
    then on. *)
Lemma solve_factory (pt : point) (g : Guess) (pb : Problem') (w : World')
    (f : Problem' → converter → gmap loc SolverObj' → gmap loc SolverObj' * loc) :
  _gss (self w) = MinimumEigensolverFactory f →
  solve convert gss_solve compute_minimum_eigenvalue interpret pt g pb w
  = match (prepare_problem convert pb (_qubit_converter (self w))
             (second_q_ops pb)).1 with
    | Raise e => (Raise e, w)
    | Return main =>
        match _qubit_converter (self w) with
        | None => (Raise AttributeError, w)
        | Some qc =>
            let st' := (f pb qc (solver_store w)).1 in
            let l := (f pb qc (solver_store w)).2 in
            let w' := with_self (set_solver (Some l))
                        (with_solver_store (λ _, st') w) in
            let obj := st' !! l in
            let r := match compute_minimum_eigenvalue (length (calls w))
                             obj main with
                     | Return raw => Return (interpret pb raw)
                     | Raise e => Raise e
                     end in
            (r, log_call {| call_point := pt; call_guess := g;
                            call_solver := Some l; call_solver_obj := obj;
                            call_result := r |} w')
        end
    end.
Proof.
  intros Hg.
  unfold solve, resolve_solver, prepare, lift_outcome,
    bind, get_state, modify, ret, throw.
  cbn -[prepare_problem]. rewrite Hg. cbn -[prepare_problem].
  destruct (prepare_problem _ _ _ _).1 as [main|e]; [|done].
  destruct (_qubit_converter (self w)) as [qc|]; [|done].
  destruct (f pb qc (solver_store w)) as [st' l']. cbn.
  by destruct (compute_minimum_eigenvalue _ _ _).
Qed.

(** Either way: the sampler's configuration and history are untouched, at
    most one invocation is logged, exactly one when a result comes back. *)
Lemma solve_frame (pt : point) (g : Guess) (pb : Problem') (w : World') :
  let r := solve convert gss_solve compute_minimum_eigenvalue interpret
             pt g pb w in
  _gss (self r.2) = _gss (self w)
  ∧ _bootstrap (self r.2) = _bootstrap (self w)
  ∧ _points_optparams (self r.2) = _points_optparams (self w)
  ∧ (calls r.2 = calls w
     ∨ ∃ c, calls r.2 = calls w ++ [c]
            ∧ call_point c = pt ∧ call_guess c = g ∧ call_result c = r.1)
  ∧ (∀ res, r.1 = Return res → calls r.2 ≠ calls w).
Proof.
  destruct (_gss (self w)) as [l|f] eqn:Hg; cbn zeta.
  - rewrite (solve_prebound _ _ _ _ _ Hg). cbn.
    split_and!; eauto using snoc_neq.
    right. eexists. split_and!; done.
  - rewrite (solve_factory _ _ _ _ _ Hg).
    repeat (destruct_match; cbn); split_and!; eauto using snoc_neq; try done.
    all: right; eexists; split_and!; done.
Qed.

(** The solve keeps the kind of solver the sampler resolves. *)
Lemma solve_kind (v : bool) (pt : point) (g : Guess) (pb : Problem')
    (w : World') :
  resolved_kind v w →
  is_variational (solver_store w) (_solver (self w)) = v →
  let r := solve convert gss_solve compute_minimum_eigenvalue interpret
             pt g pb w in
  resolved_kind v r.2
  ∧ is_variational (solver_store r.2) (_solver (self r.2)) = v.
Proof.
  unfold resolved_kind.
  destruct (_gss (self w)) as [l|f] eqn:Hg; cbn zeta; intros Hres Hv.
  - rewrite (solve_prebound _ _ _ _ _ Hg). cbn. by rewrite Hg.
  - rewrite (solve_factory _ _ _ _ _ Hg).
    repeat (destruct_match; cbn); simplify_eq; try done.
    all: split; [done|apply Hres].
Qed.

(** [_run_single_point] either stops at the driver check, leaving the
    state as it was, or sets the perturbation and goes through the warm
    start, the solve and the recording of the optimal point. *)
Lemma run_single_point_cases (pt : point) (w : World') :
  let run := _run_single_point convert norm_diff gss_solve
               compute_minimum_eigenvalue interpret pt w in
  (∃ e, run = (Raise e, w))
  ∨ (∃ pb, _problem (self w) = Some pb ∧
       run = (do guess <- warm_start norm_diff pt;
              do result <- solve convert gss_solve
                             compute_minimum_eigenvalue interpret
                             pt guess (perturb pt pb);
              record_optimal_point pt result;;
              ret result)
               (with_self (set_problem (Some (perturb pt pb))) w)).
Proof.
  lazy zeta. unfold _run_single_point. rewrite bind_eq.
  destruct (check_driver w) as [[pb|e] w0] eqn:Hcd.
  2: { left. exists e. f_equal.
       revert Hcd. unfold check_driver. run_M; congruence. }
  assert (_problem (self w) = Some pb ∧ w0 = w) as [Hpb ->].
  { revert Hcd. unfold check_driver. run_M; intros; by simplify_eq. }
  destruct (molecule (driver pb)); [|left; by eexists].
  right. by exists pb.
Qed.

(** What one point of a sweep does, whatever its outcome: the configuration
    stays; at most one invocation is logged, for this point, and exactly
    one when a result comes back; the kind of solver resolved stays; the
    history is left alone or gets the entry of this point. *)
Lemma run_single_point_spec (pt : point) (w : World') :
  let r := _run_single_point convert norm_diff gss_solve
             compute_minimum_eigenvalue interpret pt w in
  let var w := is_variational (solver_store w) (_solver (self w)) in
  (_gss (self r.2) = _gss (self w) ∧ _bootstrap (self r.2) = _bootstrap (self w))
  ∧ (calls r.2 = calls w
     ∨ ∃ c, calls r.2 = calls w ++ [c]
            ∧ call_point c = pt
            ∧ (var w && _bootstrap (self w) = false → call_guess c = NoLookup)
            ∧ (∀ res, r.1 = Return res → call_result c = Return res))
  ∧ (∀ res, r.1 = Return res → calls r.2 ≠ calls w)
  ∧ (∀ v, resolved_kind v w → var w = v → resolved_kind v r.2 ∧ var r.2 = v)
  ∧ (_points_optparams (self r.2) = _points_optparams (self w)
     ∨ var r.2 = true ∧
       ∃ h v, _points_optparams (self w) = Some h
              ∧ _points_optparams (self r.2) = Some (dict_setitem pt v h))
  ∧ (∀ res, r.1 = Return res → var r.2 = true →
       ∃ h, _points_optparams (self w) = Some h
            ∧ _points_optparams (self r.2)
              = Some (dict_setitem pt (optimal_point (raw_result res)) h)).
Proof.
  lazy zeta.
  destruct (run_single_point_cases pt w) as [[e ->] | (pb & Hpb & ->)];
    cbn [fst snd].
  { split_and!; eauto; done. }
  set (w1 := with_self (set_problem (Some (perturb pt pb))) w).
  rewrite bind_eq.
  destruct (warm_start_frame pt w1) as (Hs & _ & Hc & _).
  pose proof (warm_start_variational pt w1) as Hvar.
  pose proof (warm_start_skip pt w1) as Hskip.
  destruct (warm_start norm_diff pt w1) as [[g|e] w2]; cbn [fst snd] in *.
  2: { rewrite Hs, Hc, Hvar. unfold resolved_kind. rewrite Hs.
       subst w1. proj. split_and!; eauto; try done.
       intros v Hr Hv. split; [|done].
       destruct (_gss (self w)); by rewrite ?Hvar. }
  rewrite bind_eq.
  destruct (solve_frame pt g (perturb pt pb) w2) as (Hg & Hb & Hh & Hcs & Hne).
  pose proof (λ v, solve_kind v pt g (perturb pt pb) w2) as Hkind.
  destruct (solve _ _ _ _ _ _ _ _) as [[res|e] w3]; cbn [fst snd] in *.
  2: { rewrite Hg, Hb, Hh, Hs. subst w1. proj. split_and!.
       - done.
       - done.
       - destruct Hcs as [->|(c & -> & ? & Hgc & ?)]; [left; by rewrite Hc|].
         right. exists c. rewrite Hc. split_and!; try done.
         intros Hsk. specialize (Hskip Hsk). by simplify_eq.
       - done.
       - intros v Hr Hv. apply Hkind.
         + unfold resolved_kind in *. rewrite Hs. proj.
           destruct (_gss (self w)); [by rewrite Hvar|done].
         + by rewrite Hs, Hvar.
       - by left.
       - done. }
  rewrite bind_eq, record_optimal_point_spec.
  assert (∀ v, resolved_kind v w →
               is_variational (solver_store w) (_solver (self w)) = v →
               resolved_kind v w3 ∧
               is_variational (solver_store w3) (_solver (self w3)) = v)
    as Hkind'.
  { intros v Hr Hv. apply Hkind.
    + unfold resolved_kind in *. rewrite Hs. subst w1. proj.
      destruct (_gss (self w)); [by rewrite Hvar|done].
    + rewrite Hs, Hvar. by subst w1. }
  assert (calls w3 = calls w
          ∨ ∃ c, calls w3 = calls w ++ [c] ∧ call_point c = pt
                 ∧ (is_variational (solver_store w) (_solver (self w))
                    && _bootstrap (self w) = false → call_guess c = NoLookup)
                 ∧ call_result c = Return res) as Hcalls.
  { destruct Hcs as [->|(c & -> & ? & Hgc & ?)]; [left; by rewrite Hc|].
    right. exists c. rewrite Hc. split_and!; try done.
    intros Hsk. specialize (Hskip Hsk). by simplify_eq. }
  assert (calls w3 ≠ calls w) as Hne'.
  { specialize (Hne res eq_refl). by rewrite Hc in Hne. }
  rewrite Hs in Hh, Hg, Hb. subst w1. proj.
  assert (∀ c : @Call point params energy, call_result c = Return res →
               ∀ res0, Return res = Return res0 →
                       call_result c = Return res0) as Hres
    by (intros; by simplify_eq).
  assert (calls w3 = calls w
          ∨ ∃ c, calls w3 = calls w ++ [c] ∧ call_point c = pt
                 ∧ (is_variational (solver_store w) (_solver (self w))
                    && _bootstrap (self w) = false → call_guess c = NoLookup)
                 ∧ ∀ res0, Return res = Return res0 →
                           call_result c = Return res0) as Hcalls'.
  { destruct Hcalls as [?|(c & ? & ? & ? & ?)]; [by left|].
    right. exists c. split_and!; eauto. }
  destruct (is_variational (solver_store w3) (_solver (self w3))) eqn:Hv3;
    [destruct (_points_optparams (self w3)) as [h|] eqn:Hh3|];
    unfold ret; proj.
  - split_and!; [done|done|done|done| |right|].
    + intros v Hr Hv. destruct (Hkind' v Hr Hv) as [Hr' Hv'].
      split; [|congruence]. unfold resolved_kind in *. proj.
      destruct (_gss (self w3)); [congruence|done].
    + split; [done|]. rewrite <- Hh. eauto.
    + intros; simplify_eq. rewrite <- Hh. eauto.
  - split_and!; [done|done| |done| |left;congruence|done].
    + destruct Hcalls as [?|(c & ? & ? & ? & ?)]; [by left|].
      right. exists c. split_and!; done.
    + intros v Hr Hv. destruct (Hkind' v Hr Hv) as [Hr' Hv'].
      split; [done|congruence].
  - split_and!; [done|done|done|done| |by left|intros; congruence].
    intros v Hr Hv. destruct (Hkind' v Hr Hv) as [Hr' Hv'].
    split; [done|congruence].
Qed.

(** *** The loop over the points *)

(** What the loop does, whatever its outcome. [cs] are the invocations it
    logs. A loop that completes has evaluated every point, in order, and
    its table is the given one updated with the evaluations in order.
    With a solver that is not variational no warm start is looked up and
    the history is left as it was; with a variational solver a loop that
    completes has updated the history with the optimal points in order. *)
Lemma run_loop_spec (pts : list point) :
  ∀ (d : pydict point Result') (w : World'),
    let r := run_loop convert norm_diff gss_solve
               compute_minimum_eigenvalue interpret pts d w in
    let var w := is_variational (solver_store w) (_solver (self w)) in
    _gss (self r.2) = _gss (self w)
    ∧ _bootstrap (self r.2) = _bootstrap (self w)
    ∧ ∃ cs,
        calls r.2 = calls w ++ cs
        ∧ (∀ d', r.1 = Return d' →
             d' = dict_update (evaluations cs) d
             ∧ (evaluations cs).*1 = pts
             ∧ call_point <$> cs = pts
             ∧ Forall (λ c, ∃ res, call_result c = Return res) cs)
        ∧ (∀ v, resolved_kind v w → var w = v →
             resolved_kind v r.2 ∧ var r.2 = v
             ∧ (v = false →
                  Forall (λ c, call_guess c = NoLookup) cs
                  ∧ _points_optparams (self r.2) = _points_optparams (self w))
             ∧ (v = true → ∀ d', r.1 = Return d' →
                  _points_optparams (self r.2)
                  = dict_update (optimal_points (evaluations cs))
                      <$> _points_optparams (self w))).
Proof.
  induction pts as [|p ps IH]; intros d w; lazy zeta.
  { cbn. split_and!; [done|done|]. exists []. rewrite app_nil_r.
    split_and!; [done| |].
    - intros d' [= <-]. done.
    - intros v Hr Hv. split_and!; [done|done|done|].
      intros _ d' _. by destruct (_points_optparams (self w)). }
  cbn [run_loop]. rewrite bind_eq.
  destruct (run_single_point_spec p w)
    as ((Hg & Hb) & Hcs & Hne & Hkind & Hhist & Hrec).
  destruct (_run_single_point _ _ _ _ _ p w) as [[res|e] w1];
    cbn [fst snd] in *.
  2: { split_and!; [done|done|].
       destruct Hcs as [Hcs|(c & Hcs & Hp & Hskip & _)].
       - exists []. rewrite app_nil_r. split_and!; [done|done|].
         intros v Hr Hv. destruct (Hkind v Hr Hv) as [Hr1 Hv1].
         split_and!; [done|done| |done].
         intros ->. split; [done|].
         destruct Hhist as [?|[? _]]; [done|congruence].
       - exists [c]. split_and!; [done|done|].
         intros v Hr Hv. destruct (Hkind v Hr Hv) as [Hr1 Hv1].
         split_and!; [done|done| |done].
         intros ->. split.
         + apply Forall_singleton, Hskip. by rewrite Hv.
         + destruct Hhist as [?|[? _]]; [done|congruence]. }
  destruct Hcs as [Hcs|(c & Hcs & Hp & Hskip & Hres)];
    [by destruct (Hne res eq_refl)|].
  specialize (Hres res eq_refl).
  destruct (IH (dict_setitem p res d) w1) as (Hg' & Hb' & cs & Hcs' & Hok & Hk).
  split_and!; [congruence|congruence|].
  exists (c :: cs).
  assert (evaluations (c :: cs) = (p, res) :: evaluations cs) as Hev.
  { unfold evaluations. cbn. by rewrite Hres, Hp. }
  split_and!.
  - rewrite Hcs', Hcs. by rewrite <- app_assoc.
  - intros d' Hd'. destruct (Hok d' Hd') as (-> & Hpts & Hcp & Hall).
    rewrite Hev. split_and!; [done| | |].
    + cbn. by rewrite Hpts.
    + cbn. by rewrite Hp, Hcp.
    + apply Forall_cons. eauto.
  - intros v Hr Hv. destruct (Hkind v Hr Hv) as [Hr1 Hv1].
    destruct (Hk v Hr1 Hv1) as (Hr2 & Hv2 & Hfalse & Htrue).
    split_and!; [done|done| |].
    + intros ->. destruct (Hfalse eq_refl) as [Hall Hh].
      split.
      * apply Forall_cons. split; [|done]. apply Hskip. by rewrite Hv.
      * rewrite Hh. destruct Hhist as [?|[? _]]; [done|congruence].
    + intros -> d' Hd'. rewrite (Htrue eq_refl d' Hd'), Hev.
      destruct (Hrec res eq_refl Hv1) as (h & -> & ->). done.
Qed.

(** *** A whole sweep *)

(** Binding the problem logs nothing and leaves the history alone; when it
    succeeds the sampler holds a solver of the kind it resolves. *)
Lemma bind_problem_spec (pb : Problem') (w : World') :
  let r := bind_problem convert pb w in
  calls r.2 = calls w
  ∧ _points_optparams (self r.2) = _points_optparams (self w)
  ∧ ∀ v, resolved_kind v w →
         resolved_kind v r.2
         ∧ (r.1 = Return tt →
            is_variational (solver_store r.2) (_solver (self r.2)) = v).
Proof.
  unfold resolved_kind, bind_problem, check_driver, prepare, resolve_solver.
  run_M; simplify_eq; split_and!; try done.
  all: intros v Hr; split; [done|]; intros _; try done.
  all: match goal with
       | Hg : ?f ?a ?b ?c = (_, _) |- _ =>
           specialize (Hr a b c); by rewrite Hg in Hr
       end.
Qed.

(** Binding the problem does not look at the history. *)
Lemma bind_problem_history (h : option (pydict point params))
    (pb : Problem') (w : World') :
  bind_problem convert pb (with_self (set_points_optparams h) w)
  = ((bind_problem convert pb w).1,
     with_self (set_points_optparams h) (bind_problem convert pb w).2).
Proof.
  unfold bind_problem, check_driver, prepare, resolve_solver.
  run_M; simplify_eq; done.
Qed.

(** [_run_points] is the loop, started on an empty table in a state where
    a variational solver has got an empty history and the saved initial
    point. *)
Lemma run_points_eq (pts : list point) (w : World') :
  let var w := is_variational (solver_store w) (_solver (self w)) in
  ∃ w0,
    _run_points convert norm_diff gss_solve compute_minimum_eigenvalue
      interpret pts w
    = run_loop convert norm_diff gss_solve compute_minimum_eigenvalue
        interpret pts [] w0
    ∧ calls w0 = calls w
    ∧ var w0 = var w
    ∧ (∀ v, resolved_kind v w → resolved_kind v w0)
    ∧ _points_optparams (self w0)
      = (if var w then Some [] else _points_optparams (self w))
    ∧ (var w = true →
       deref (solver_store w0) (_solver (self w0)) ≫= initial_point
       = _initial_point (self w)).
Proof.
  lazy zeta. unfold _run_points. rewrite bind_eq. unfold get_state at 1.
  destruct (is_variational (solver_store w) (_solver (self w))) eqn:Hv.
  - destruct (is_variational_Some _ _ Hv) as (l & o & Hl & Ho & Hvo).
    eexists. split.
    { rewrite bind_eq. unfold assign_initial_point.
      unfold bind, modify, get_state. proj. rewrite Hl. reflexivity. }
    proj. rewrite is_variational_alter, Hl.
    split_and!; try done.
    + by rewrite <- Hl.
    + intros v. unfold resolved_kind. proj.
      destruct (_gss (self w)); [|done].
      by rewrite is_variational_alter.
    + intros _. cbn. rewrite lookup_alter_eq, Ho. done.
  - exists w. rewrite Hv. by split_and!.
Qed.

(** With a variational solver, [_run_points] forgets the history it
    finds. *)
Lemma run_points_reset (h : option (pydict point params))
    (pts : list point) (w : World') :
  is_variational (solver_store w) (_solver (self w)) = true →
  _run_points convert norm_diff gss_solve compute_minimum_eigenvalue
    interpret pts (with_self (set_points_optparams h) w)
  = _run_points convert norm_diff gss_solve compute_minimum_eigenvalue
      interpret pts w.
Proof.
  intros Hv. unfold _run_points. rewrite !bind_eq. unfold get_state.
  proj. rewrite Hv. rewrite !bind_eq.
  unfold assign_initial_point, bind, modify, get_state. proj.
  destruct (is_variational_Some _ _ Hv) as (l & o & -> & _). done.
Qed.

Lemma collect_energies_spec (rs : list Result') :
  ∀ w : World',
    let r := collect_energies rs w in
    calls r.2 = calls w
    ∧ _points_optparams (self r.2) = _points_optparams (self w)
    ∧ _points (self r.2) = _points (self w)
    ∧ _raw_results (self r.2) = _raw_results (self w)
    ∧ (r.1 = Return tt →
       ∃ es, default [] (_energies (self r.2))
             = default [] (_energies (self w)) ++ es
             ∧ Forall2 (λ r e, head (total_energies r) = Some e) rs es).
Proof.
  induction rs as [|res rs IH]; intros w; lazy zeta.
  { cbn. split_and!; try done. intros _. exists [].
    rewrite app_nil_r. split; [done|constructor]. }
  cbn [collect_energies].
  destruct (total_energies res) as [|e es'] eqn:He; [by cbn|].
  rewrite bind_eq. unfold modify at 1.
  destruct (IH (with_self (λ s,
              set_energies (Some (default [] (_energies s) ++ [e])) s) w))
    as (Hc & Hh & Hp & Hr & Hes).
  proj. split_and!; try done.
  intros Hret. destruct (Hes Hret) as (es & Heq & Hall).
  exists (e :: es). split.
  - etrans; [exact Heq|]. cbn. by rewrite <- app_assoc.
  - constructor; [by rewrite He|done].
Qed.

Lemma aggregate_spec (raw : pydict point Result') (w : World') :
  let r := aggregate raw w in
  calls r.2 = calls w
  ∧ _points_optparams (self r.2) = _points_optparams (self w)
  ∧ (∀ res, r.1 = Return res →
       points res = dict_keys raw
       ∧ raw_results res = raw
       ∧ Forall2 (λ r e, head (total_energies r) = Some e)
           (dict_values raw) (energies res)).
Proof.
  lazy zeta.
  set (w0 := with_self (set_energies (Some []))
               (with_self (set_points (Some (dict_keys raw)))
                  (with_self (set_raw_results (Some raw)) w))).
  assert (aggregate raw w
          = match collect_energies (dict_values raw) w0 with
            | (Return _, w1) =>
                (Return {| points := default [] (_points (self w1));
                           energies := default [] (_energies (self w1));
                           raw_results := default [] (_raw_results (self w1)) |},
                 w1)
            | (Raise e, w1) => (Raise e, w1)
            end) as -> by reflexivity.
  destruct (collect_energies_spec (dict_values raw) w0)
    as (Hc & Hh & Hp & Hr & Hes).
  destruct (collect_energies (dict_values raw) w0) as [[[]|e] w1];
    subst w0; proj; [|by split_and!].
  split_and!; [done|done|].
  intros res [= <-]. cbn. rewrite Hp, Hr. cbn.
  destruct (Hes eq_refl) as (es & Heq & Hall).
  split_and!; [done|done|]. by rewrite Heq.
Qed.

(** A call of [sample], whatever its outcome. [cs] are the invocations it
    logs. *)
Lemma sample_spec (pb : Problem') (pts : list point) (w : World') :
  let r := sample convert norm_diff gss_solve compute_minimum_eigenvalue
             interpret pb pts w in
  ∃ cs,
    calls r.2 = calls w ++ cs
    ∧ (∀ res, r.1 = Return res →
         points res = dict_keys (raw_results res)
         ∧ raw_results res = dict_update (evaluations cs) []
         ∧ (evaluations cs).*1 = pts
         ∧ call_point <$> cs = pts
         ∧ Forall (λ c, ∃ res, call_result c = Return res) cs
         ∧ Forall2 (λ r e, head (total_energies r) = Some e)
             (dict_values (raw_results res)) (energies res))
    ∧ (resolved_kind false w →
         Forall (λ c, call_guess c = NoLookup) cs
         ∧ _points_optparams (self r.2) = _points_optparams (self w))
    ∧ (resolved_kind true w → ∀ res, r.1 = Return res →
         _points_optparams (self r.2)
         = Some (optimal_points (raw_results res))).
Proof.
  lazy zeta. unfold sample. rewrite bind_eq.
  destruct (bind_problem_spec pb w) as (Hc0 & Hh0 & Hk0).
  destruct (bind_problem convert pb w) as [[[]|e] w0]; proj.
  2: { exists []. rewrite app_nil_r. by split_and!. }
  rewrite bind_eq.
  destruct (run_points_eq pts w0) as (w1 & -> & Hc1 & Hv1 & Hk1 & Hh1 & _).
  destruct (run_loop_spec pts [] w1) as (_ & _ & cs & Hcs & Hok & Hk).
  exists cs.
  destruct (run_loop _ _ _ _ _ pts [] w1) as [[raw|e] w2]; proj.
  2: { split_and!; [congruence|done| |done].
       intros Hr. destruct (Hk0 false Hr) as [Hr0 Hv0].
       specialize (Hv0 eq_refl).
       destruct (Hk false (Hk1 _ Hr0)) as (_ & _ & Hf & _); [congruence|].
       destruct (Hf eq_refl) as [Hall Hh2]. split; [done|].
       rewrite Hh2, Hh1, Hv0. done. }
  destruct (aggregate_spec raw w2) as (Hc3 & Hh3 & Hres).
  destruct (aggregate raw w2) as [[res|e] w3]; proj.
  2: { split_and!; [congruence|done| |done].
       intros Hr. destruct (Hk0 false Hr) as [Hr0 Hv0].
       specialize (Hv0 eq_refl).
       destruct (Hk false (Hk1 _ Hr0)) as (_ & _ & Hf & _); [congruence|].
       destruct (Hf eq_refl) as [Hall Hh2]. split; [done|].
       rewrite Hh3, Hh2, Hh1, Hv0. done. }
  destruct (Hok raw eq_refl) as (Hraw & Hpts & Hcp & Hall).
  destruct (Hres res eq_refl) as (Hp & Hr & Hen).
  split_and!.
  - congruence.
  - intros ? [= <-]. rewrite Hr. by split_and!.
  - intros Hr'. destruct (Hk0 false Hr') as [Hr0 Hv0].
    specialize (Hv0 eq_refl).
    destruct (Hk false (Hk1 _ Hr0)) as (_ & _ & Hf & _); [congruence|].
    destruct (Hf eq_refl) as [Hall' Hh2]. split; [done|].
    rewrite Hh3, Hh2, Hh1, Hv0. done.
  - intros Hr' ? [= <-]. destruct (Hk0 true Hr') as [Hr0 Hv0].
    specialize (Hv0 eq_refl).
    destruct (Hk true (Hk1 _ Hr0)) as (_ & _ & _ & Ht); [congruence|].
    rewrite Hh3, (Ht eq_refl raw eq_refl), Hh1, Hv0. cbn.
    rewrite Hr, Hraw. f_equal.
    apply (dict_update_fmap (λ r, optimal_point (raw_result r)) _ []).
Qed.

(** *** Order of the points and energies *)

Lemma first_occurrences_from_NoDup (acc l : list point) :
  NoDup (acc ++ l) →
  foldl (λ acc p, if decide (p ∈ acc) then acc else acc ++ [p]) acc l
  = acc ++ l.
Proof.
  revert acc. induction l as [|p l IH]; intros acc Hnd; cbn.
  - by rewrite app_nil_r.
  - rewrite decide_False.
    + rewrite IH; rewrite <- app_assoc; done.
    + apply NoDup_app in Hnd as (_ & Hdisj & _).
      intros Hin. apply (Hdisj p Hin). apply list_elem_of_here.
Qed.

Lemma first_occurrences_NoDup (l : list point) :
  NoDup l → first_occurrences l = l.
Proof. intros Hl. by apply (first_occurrences_from_NoDup [] l). Qed.

Lemma table_keys (l : list (point * Result')) :
  dict_keys (dict_update l []) = first_occurrences l.*1.
Proof. apply (dict_update_keys l []). Qed.

(** C5. A call of [sample] that completes returns the points in the order
    of the keys of the table of raw results, which is the order in which
    the points first occur in the request (the request itself when it has
    no repetition); the energies run parallel to the points, each being
    the first of the total energies of the result stored for its point. *)
Theorem sample_order (pb : Problem') (pts : list point) (w w' : World')
    (res : BOPESSamplerResult) :
  sample convert norm_diff gss_solve compute_minimum_eigenvalue interpret
    pb pts w = (Return res, w') →
  points res = dict_keys (raw_results res)
  ∧ points res = first_occurrences pts
  ∧ (NoDup pts → points res = pts)
  ∧ length (energies res) = length (points res)
  ∧ ∀ i p, points res !! i = Some p →
      ∃ r e, dict_get p (raw_results res) = Some r
             ∧ head (total_energies r) = Some e
             ∧ energies res !! i = Some e.
Proof.
  intros Hs. destruct (sample_spec pb pts w) as (cs & _ & Hok & _).
  rewrite Hs in Hok. cbn [fst snd] in Hok.
  destruct (Hok res eq_refl) as (Hp & Hraw & Hpts & _ & _ & Hen).
  assert (points res = first_occurrences pts) as Hfirst.
  { by rewrite Hp, Hraw, table_keys, Hpts. }
  assert (NoDup (dict_keys (raw_results res))) as Hnd.
  { rewrite Hraw. apply dict_update_NoDup. constructor. }
  split_and!; [done|done| | |].
  - intros Hl. by rewrite Hfirst, first_occurrences_NoDup.
  - apply Forall2_length in Hen. rewrite <- Hen, Hp.
    unfold dict_keys, dict_values. by rewrite !length_fmap.
  - intros i p Hi. rewrite Hp in Hi. unfold dict_keys in Hi.
    apply list_lookup_fmap_Some_1 in Hi as ([p' r] & -> & Hi).
    assert (dict_values (raw_results res) !! i = Some r) as Hr.
    { unfold dict_values. by rewrite list_lookup_fmap, Hi. }
    destruct (Forall2_lookup_l _ _ _ _ _ Hen Hr) as (e & He & Hhd).
    exists r, e. split_and!; [|done|done].
    by eapply dict_lookup_get.
Qed.

(** *** Repeated points *)

Lemma first_occurrences_from_elem (p : point) (acc l : list point) :
  p ∈ foldl (λ acc p, if decide (p ∈ acc) then acc else acc ++ [p]) acc l
  ↔ p ∈ acc ∨ p ∈ l.
Proof.
  revert acc. induction l as [|q l IH]; intros acc; cbn.
  - split; [by left|]. intros [?|Hp]; [done|]. by apply elem_of_nil in Hp.
  - rewrite IH, elem_of_cons. destruct (decide (q ∈ acc)) as [Hq|Hq].
    + split; [intros [?|?]; auto|]. intros [?|[->|?]]; auto.
    + rewrite elem_of_app, list_elem_of_singleton.
      split; [intros [[?|?]|?]; auto|]. intros [?|[?|?]]; auto.
Qed.

Lemma first_occurrences_elem (p : point) (l : list point) :
  p ∈ first_occurrences l ↔ p ∈ l.
Proof.
  unfold first_occurrences. rewrite first_occurrences_from_elem.
  split; [|by right]. intros [Hp|?]; [|done]. by apply elem_of_nil in Hp.
Qed.

(** The last evaluation of a point is its last invocation, when every
    invocation came back with a result. *)
Lemma evaluations_last (p : point) (cs : list (@Call point params energy)) :
  Forall (λ c, ∃ res, call_result c = Return res) cs →
  last (filter (λ kv, kv.1 = p) (evaluations cs))
  = last_call_at p cs ≫= λ c,
      match call_result c with
      | Return r => Some (call_point c, r)
      | Raise _ => None
      end.
Proof.
  unfold last_call_at, evaluations.
  induction cs as [|c cs IH] using rev_ind; intros Hall; [done|].
  apply Forall_app in Hall as [Hall Hc].
  apply Forall_singleton in Hc as [res Hres].
  rewrite omap_app, !filter_app.
  assert (omap (λ c, match call_result c with
                     | Return r => Some (call_point c, r)
                     | Raise _ => None
                     end) [c] = [(call_point c, res)]) as ->
    by (cbn; by rewrite Hres).
  rewrite !filter_cons, !filter_nil. cbn [fst].
  destruct (decide (call_point c = p)) as [Hp|Hp].
  - rewrite !last_snoc. cbn. by rewrite Hres.
  - rewrite !app_nil_r. by apply IH.
Qed.

(** C7. After a call of [sample] that completes, the table of raw results
    has one entry for each distinct point of the request and no other;
    the entry of a point is the result of the last invocation made for it
    (the points are evaluated one by one, in the order of the request,
    repetitions included); and when the solver resolved is variational the
    history holds, for the same points in the same order, the optimal
    point of that last result. *)
Theorem sample_last_write_wins (pb : Problem') (pts : list point)
    (w w' : World') (res : BOPESSamplerResult) :
  sample convert norm_diff gss_solve compute_minimum_eigenvalue interpret
    pb pts w = (Return res, w') →
  let cs := new_calls w w' in
  NoDup (dict_keys (raw_results res))
  ∧ (∀ p, p ∈ dict_keys (raw_results res) ↔ p ∈ pts)
  ∧ call_point <$> cs = pts
  ∧ (∀ p, p ∈ pts →
       ∃ c r, last_call_at p cs = Some c
              ∧ call_result c = Return r
              ∧ dict_get p (raw_results res) = Some r)
  ∧ (resolved_kind true w →
       _points_optparams (self w') = Some (optimal_points (raw_results res))).
Proof.
  intros Hs cs. destruct (sample_spec pb pts w) as (cs' & Hcs & Hok & _ & Hh).
  rewrite Hs in Hcs, Hok, Hh. cbn [fst snd] in *.
  assert (cs = cs') as ->.
  { unfold cs, new_calls. by rewrite Hcs, drop_app_length. }
  destruct (Hok res eq_refl) as (Hp & Hraw & Hpts & Hcp & Hall & _).
  split_and!.
  - rewrite Hraw. apply dict_update_NoDup. constructor.
  - intros p. by rewrite Hraw, table_keys, Hpts, first_occurrences_elem.
  - done.
  - intros p Hin.
    destruct (last_call_at p cs') as [c|] eqn:Hlast.
    + assert (c ∈ cs') as Hc.
      { unfold last_call_at in Hlast.
        apply last_Some_elem_of, list_elem_of_filter in Hlast. tauto. }
      destruct (proj1 (Forall_forall _ _) Hall c Hc) as [r Hr].
      exists c, r. split_and!; [done|done|].
      rewrite Hraw, dict_update_get, (evaluations_last p cs' Hall), Hlast.
      cbn. by rewrite Hr.
    + exfalso. unfold last_call_at in Hlast. apply last_None in Hlast.
      rewrite <- Hcp in Hin.
      apply list_elem_of_fmap in Hin as (c & -> & Hc).
      assert (c ∈ filter (λ c', call_point c' = call_point c) cs') as Hf
        by by apply list_elem_of_filter.
      rewrite Hlast in Hf. by apply elem_of_nil in Hf.
  - intros Hr. by apply Hh.
Qed.

(** *** The guess and the solver that gets it *)

Lemma warm_start_set_problem (x : option Problem') (pt : point) (w : World') :
  warm_start norm_diff pt (with_self (set_problem x) w)
  = ((warm_start norm_diff pt w).1,
     with_self (set_problem x) (warm_start norm_diff pt w).2).
Proof. unfold warm_start, assign_initial_point. run_M; done. Qed.

(** With a [GroundStateSolver] and a problem whose driver passes the
    check, a point always gets to the solve once the warm start has made
    its choice: the wrapped instance solves, in the state the warm start
    left it in. *)
Lemma run_single_point_prebound (pt : point) (w w2 : World') (l : loc)
    (pb : Problem') (g : Guess) :
  _gss (self w) = GroundStateSolver l →
  _problem (self w) = Some pb →
  driver_kind (driver pb) ≠ UnsupportedDriver →
  is_Some (molecule (driver pb)) →
  warm_start norm_diff pt w = (Return g, w2) →
  ∃ c, calls (_run_single_point convert norm_diff gss_solve
                compute_minimum_eigenvalue interpret pt w).2
       = calls w ++ [c]
       ∧ call_point c = pt
       ∧ call_guess c = g
       ∧ call_solver c = Some l
       ∧ call_solver_obj c = solver_store w2 !! l.
Proof.
  intros Hg Hpb Hk [m Hm] Hws.
  assert (check_driver w = (Return pb, w)) as Hcd.
  { unfold check_driver, bind, get_state, ret, throw. cbn. rewrite Hpb.
    by destruct (driver_kind (driver pb)). }
  destruct (warm_start_frame pt w) as (Hs & _ & Hc & _).
  rewrite Hws in Hs, Hc. cbn [fst snd] in Hs, Hc.
  unfold _run_single_point. rewrite bind_eq, Hcd, Hm.
  rewrite bind_eq. unfold modify at 1.
  rewrite bind_eq, warm_start_set_problem, Hws. cbn [fst snd].
  rewrite bind_eq, (solve_prebound _ _ _ _ l); [|proj; by rewrite Hs].
  proj.
  set (r := gss_solve (length (calls w2)) (perturb pt pb)
              (solver_store w2 !! l)).
  exists {| call_point := pt; call_guess := g; call_solver := Some l;
            call_solver_obj := solver_store w2 !! l; call_result := r |}.
  split; [|done].
  destruct r as [res|e]; [|proj; by rewrite Hc].
  rewrite bind_eq, record_optimal_point_spec.
  repeat (destruct_match; proj); unfold ret; proj; by rewrite Hc.
Qed.

(** C3. In nearest-neighbour mode (variational solver, bootstrap on, a
    history [h] that is not empty and no larger than the window) the warm
    start picks the entry of [h] whose key is at minimum distance from the
    point, the first such entry in the order of [h], and writes its
    parameter vector to the [initial_point] of the solver the sampler
    holds; with a [GroundStateSolver] that is the instance which then
    solves the point, with that initial point. *)
Theorem nearest_neighbour_guess (pt : point) (w : World')
    (h : pydict point params) (l : loc) :
  is_variational (solver_store w) (_solver (self w)) = true →
  _bootstrap (self w) = true →
  _points_optparams (self w) = Some h →
  h ≠ [] →
  _solver (self w) = Some l →
  match _extrapolator (self w) with
  | None => True
  | Some _ =>
      ∃ k, _num_bootstrap (self w) = Some k ∧ (Z.of_nat (length h) ≤ k)%Z
  end →
  ∃ i k v,
    h !! i = Some (k, v)
    ∧ (∀ j k' v', h !! j = Some (k', v') →
         (norm_diff pt k <= norm_diff pt k')%Q)
    ∧ (∀ j k' v', j < i → h !! j = Some (k', v') →
         (norm_diff pt k < norm_diff pt k')%Q)
    ∧ (warm_start norm_diff pt w).1 = Return (NearestNeighbour i v)
    ∧ solver_store (warm_start norm_diff pt w).2 !! l ≫= initial_point
      = Some v
    ∧ ∀ pb, _gss (self w) = GroundStateSolver l →
            _problem (self w) = Some pb →
            driver_kind (driver pb) ≠ UnsupportedDriver →
            is_Some (molecule (driver pb)) →
            ∃ c, calls (_run_single_point convert norm_diff gss_solve
                          compute_minimum_eigenvalue interpret pt w).2
                 = calls w ++ [c]
                 ∧ call_point c = pt
                 ∧ call_guess c = NearestNeighbour i v
                 ∧ call_solver c = Some l
                 ∧ call_solver_obj c ≫= initial_point = Some v.
Proof.
  intros Hv Hb Hh Hne Hl Hwin.
  destruct (warm_start_nearest pt w h l Hv Hb Hh Hne Hl Hwin) as (v & Hi & Hws).
  set (i := argmin (map (norm_diff pt) (dict_keys h))) in *.
  destruct (argmin_spec (map (norm_diff pt) (dict_keys h)))
    as (b & Hbi & Hmin & Hfirst).
  { unfold dict_keys. by destruct h. }
  fold i in Hbi, Hfirst.
  apply list_lookup_fmap_Some_1 in Hbi as (k & -> & Hk).
  assert (h !! i = Some (k, v)) as Hkv.
  { unfold dict_keys, dict_values in *.
    apply list_lookup_fmap_Some_1 in Hk as ([k0 v0] & -> & Hk).
    apply list_lookup_fmap_Some_1 in Hi as ([k1 v1] & -> & Hi).
    by simplify_eq/=. }
  assert (solver_store (warm_start norm_diff pt w).2 !! l ≫= initial_point
          = Some v) as Hinit.
  { rewrite Hws. proj. rewrite lookup_alter_eq.
    destruct (is_variational_Some _ _ Hv) as (l' & o & Hl' & Ho & _).
    assert (l' = l) as -> by congruence. by rewrite Ho. }
  exists i, k, v. split_and!; [done| | |by rewrite Hws|done|].
  - intros j k' v' Hj. apply (Hmin j).
    apply (list_lookup_fmap_Some_2 (norm_diff pt)).
    by apply (list_lookup_fmap_Some_2 fst _ _ (k', v')).
  - intros j k' v' Hlt Hj. apply (Hfirst j); [done|].
    apply (list_lookup_fmap_Some_2 (norm_diff pt)).
    by apply (list_lookup_fmap_Some_2 fst _ _ (k', v')).
  - intros pb Hg Hpb Hk' Hm.
    destruct (run_single_point_prebound pt w _ l pb _ Hg Hpb Hk' Hm Hws)
      as (c & Hc & Hp & Hgc & Hsc & Hobj).
    exists c. split_and!; [done|done|done|done|].
    rewrite Hobj. by rewrite Hws in Hinit.
Qed.

(** What the warm start leaves in the [initial_point] of the solver the
    sampler holds: the guess, when it made one. *)
Lemma warm_start_initial_point (pt : point) (w w2 : World') (g : Guess)
    (l : loc) :
  warm_start norm_diff pt w = (Return g, w2) →
  _solver (self w) = Some l →
  solver_store w2 !! l ≫= initial_point
  = match g with
    | NearestNeighbour _ v => Some v
    | Extrapolated v => v
    | NoLookup | EmptyHistory => solver_store w !! l ≫= initial_point
    end.
Proof.
  intros Hws Hl. revert Hws.
  unfold warm_start, assign_initial_point. run_M; intros; simplify_eq; proj;
    try done.
  all: rewrite lookup_alter_eq.
  all: match goal with
       | Hb : is_variational _ _ && _ = true |- _ =>
           apply andb_true_iff in Hb as [Hb _];
           destruct (is_variational_Some _ _ Hb) as (l' & o & ? & Ho & _)
       end.
  all: simplify_eq; by rewrite Ho.
Qed.

(** With a [GroundStateSolver], the instance that solves a point starts
    from the guess of the warm start (or, when no guess was made, from the
    initial point it had). *)
Lemma prebound_solver_gets_guess (pt : point) (w w2 : World') (l : loc)
    (pb : Problem') (g : Guess) :
  _gss (self w) = GroundStateSolver l →
  _solver (self w) = Some l →
  _problem (self w) = Some pb →
  driver_kind (driver pb) ≠ UnsupportedDriver →
  is_Some (molecule (driver pb)) →
  warm_start norm_diff pt w = (Return g, w2) →
  ∃ c, calls (_run_single_point convert norm_diff gss_solve
                compute_minimum_eigenvalue interpret pt w).2
       = calls w ++ [c]
       ∧ call_guess c = g
       ∧ call_solver c = Some l
       ∧ call_solver_obj c ≫= initial_point
         = match g with
           | NearestNeighbour _ v => Some v
           | Extrapolated v => v
           | NoLookup | EmptyHistory => solver_store w !! l ≫= initial_point
           end.
Proof.
  intros Hg Hl Hpb Hk Hm Hws.
  destruct (run_single_point_prebound pt w w2 l pb g Hg Hpb Hk Hm Hws)
    as (c & Hc & _ & Hgc & Hsc & Hobj).
  exists c. split_and!; [done|done|done|].
  rewrite Hobj. by apply (warm_start_initial_point pt w).
Qed.

(** ** Further properties of the code *)

(** *** The problem adapter, list branch *)

(** X1. When [second_q_ops()] yields a list, [prepare_problem] converts its
    first element and leaves the list as it is; an empty list raises
    [IndexError], before the converter is looked at. *)
Theorem prepare_problem_list (pb : Problem') (qc : option converter)
    (l : list op) :
  let r := prepare_problem convert pb qc (OpsList l) in
  r.2 = OpsList l
  ∧ (l = [] → r.1 = Raise IndexError)
  ∧ (∀ o l', l = o :: l' →
       r.1 = match qc with
             | Some c => Return (convert c o (num_particles pb)
                                   (symmetry_sector_locator pb))
             | None => Raise AttributeError
             end).
Proof.
  lazy zeta. unfold prepare_problem, bind, get_state, ret, throw. cbn.
  split_and!.
  - destruct l; [done|by destruct qc].
  - by intros ->.
  - intros o l' ->. by destruct qc.
Qed.

(** *** Failing fast *)

(** X2. A problem whose driver is of no supported kind, or carries no
    molecule, makes [sample] raise [QiskitNatureError] having done nothing
    but keep the problem: no solver is invoked, no store is written, the
    history and the earlier results stay. *)
Theorem sample_rejects_problem (pb : Problem') (pts : list point)
    (w : World') :
  ¬ valid_problem pb →
  let r := sample convert norm_diff gss_solve compute_minimum_eigenvalue
             interpret pb pts w in
  raises r.1 is_QiskitNatureError
  ∧ r.2 = with_self (set_problem (Some pb)) w.
Proof.
  unfold valid_problem. intros Hpb. lazy zeta.
  unfold sample, bind_problem, check_driver.
  unfold bind, modify, get_state, ret, throw. proj.
  destruct (driver_kind (driver pb)) eqn:Hk;
    destruct (molecule (driver pb)) eqn:Hm; try done.
  all: exfalso; apply Hpb; split; [congruence|by eexists].
Qed.

(** X3. With a factory, [sample] fails before the sweep, and before the
    factory is asked for a solver, when the sampler has no converter
    ([QiskitNatureError]) and when preparing the operator fails (with the
    exception of [prepare_problem]). *)
Theorem sample_factory_fails_fast (pb : Problem') (pts : list point)
    (w : World')
    (f : Problem' → converter → gmap loc SolverObj' → gmap loc SolverObj' * loc) :
  valid_problem pb →
  _gss (self w) = MinimumEigensolverFactory f →
  let r := sample convert norm_diff gss_solve compute_minimum_eigenvalue
             interpret pb pts w in
  (_qubit_converter (self w) = None →
     raises r.1 is_QiskitNatureError
     ∧ r.2 = with_self (set_problem (Some pb)) w)
  ∧ (∀ qc e,
       _qubit_converter (self w) = Some qc →
       (prepare_problem convert pb (Some qc) (second_q_ops pb)).1 = Raise e →
       r = (Raise e, with_self (set_problem (Some pb)) w)).
Proof.
  intros [Hk [m Hm]] Hg. lazy zeta.
  unfold sample, bind_problem, check_driver, prepare.
  unfold bind, modify, get_state, ret, throw. proj.
  destruct (driver_kind (driver pb)); [| | |done].
  all: rewrite Hm; proj; rewrite Hg; split;
    [by intros ->|intros qc e -> He; by rewrite He].
Qed.

(** *** Aggregation *)

Lemma collect_energies_state (rs : list Result') :
  ∀ w : World',
    ∃ es, (collect_energies rs w).2 = with_self (set_energies es) w.
Proof.
  induction rs as [|res rs IH]; intros w; cbn [collect_energies].
  - exists (_energies (self w)). unfold ret. cbn.
    by destruct w as [[] ? ? ?].
  - destruct (total_energies res) as [|e es'].
    + exists (_energies (self w)). unfold throw. cbn.
      by destruct w as [[] ? ? ?].
    + rewrite bind_eq. unfold modify at 1.
      match goal with
      | |- context [collect_energies rs ?w0] =>
          destruct (IH w0) as [es Hes];
          destruct (collect_energies rs w0) as [[[]|e0] w1]
      end; cbn [snd] in *; subst w1; by eexists.
Qed.

Lemma collect_energies_outcome (rs : list Result') :
  ∀ (w : World') (es0 : list energy),
    _energies (self w) = Some es0 →
    let r := collect_energies rs w in
    (Forall (λ res, total_energies res ≠ []) rs →
       r.1 = Return tt
       ∧ _energies (self r.2)
         = Some (es0 ++ omap (λ res, head (total_energies res)) rs))
    ∧ (¬ Forall (λ res, total_energies res ≠ []) rs →
       r.1 = Raise IndexError).
Proof.
  induction rs as [|res rs IH]; intros w es0 Hes.
  { cbn. rewrite app_nil_r. split; [done|]. intros Hn. destruct Hn.
    constructor. }
  destruct (total_energies res) as [|e es'] eqn:He.
  { assert (collect_energies (res :: rs) w = (Raise IndexError, w)) as ->.
    { cbn [collect_energies]. by rewrite He. }
    cbn. split; [|done]. intros Hall. apply Forall_cons in Hall as [Hr _].
    by rewrite He in Hr. }
  set (w0 := with_self (λ s,
               set_energies (Some (default [] (_energies s) ++ [e])) s) w).
  assert (collect_energies (res :: rs) w = collect_energies rs w0) as ->.
  { cbn [collect_energies]. by rewrite He. }
  destruct (IH w0 (es0 ++ [e])) as [Hok Hbad].
  { subst w0. proj. by rewrite Hes. }
  lazy zeta. split.
  - intros Hall. apply Forall_cons in Hall as [_ Hall].
    destruct (Hok Hall) as [Hret Hen].
    split; [done|]. rewrite Hen. cbn. rewrite He. cbn.
    by rewrite <- app_assoc.
  - intros Hn. apply Hbad.
    intros Hall. apply Hn, Forall_cons. split; [by rewrite He|done].
Qed.

(** X4. Aggregation writes the table of results and its keys to the
    sampler, then collects the first total energy of every result: when
    every result has one, the call returns and the sampler holds exactly
    the three sequences it returns; when some result has none, the call
    raises [IndexError] with the table and the points already replaced.
    Nothing else of the state is written. *)
Theorem aggregate_outcome (raw : pydict point Result') (w : World') :
  let r := aggregate raw w in
  (∃ es, r.2 = with_self (set_energies es)
                 (with_self (set_points (Some (dict_keys raw)))
                    (with_self (set_raw_results (Some raw)) w)))
  ∧ (Forall (λ res, total_energies res ≠ []) (dict_values raw) →
       ∃ res, r.1 = Return res
              ∧ _points (self r.2) = Some (points res)
              ∧ _energies (self r.2) = Some (energies res)
              ∧ _raw_results (self r.2) = Some (raw_results res)
              ∧ energies res
                = omap (λ res, head (total_energies res)) (dict_values raw))
  ∧ (¬ Forall (λ res, total_energies res ≠ []) (dict_values raw) →
       r.1 = Raise IndexError).
Proof.
  lazy zeta.
  set (w0 := with_self (set_energies (Some []))
               (with_self (set_points (Some (dict_keys raw)))
                  (with_self (set_raw_results (Some raw)) w))).
  assert (aggregate raw w
          = match collect_energies (dict_values raw) w0 with
            | (Return _, w1) =>
                (Return {| points := default [] (_points (self w1));
                           energies := default [] (_energies (self w1));
                           raw_results := default [] (_raw_results (self w1)) |},
                 w1)
            | (Raise e, w1) => (Raise e, w1)
            end) as -> by reflexivity.
  destruct (collect_energies_state (dict_values raw) w0) as [es Hst].
  destruct (collect_energies_outcome (dict_values raw) w0 [] eq_refl)
    as [Hok Hbad].
  destruct (collect_energies (dict_values raw) w0) as [[[]|e] w1];
    cbn [fst snd] in *; subst w1 w0; proj.
  - split; [by eexists|]. split.
    + intros Hall. destruct (Hok Hall) as [_ Hen]. proj.
      eexists. split; [done|]. cbn. rewrite Hen. done.
    + intros Hn. by specialize (Hbad Hn).
  - split; [by eexists|]. split.
    + intros Hall. by destruct (Hok Hall).
    + intros Hn. specialize (Hbad Hn). by simplify_eq.
Qed.

(** *** What a sweep leaves alone *)

Lemma only_initial_point_of_refl (x : option loc) (st : gmap loc SolverObj') :
  only_initial_point_of x st st.
Proof. by intros l. Qed.

Lemma only_initial_point_of_trans (x : option loc)
    (st1 st2 st3 : gmap loc SolverObj') :
  only_initial_point_of x st1 st2 → only_initial_point_of x st2 st3 →
  only_initial_point_of x st1 st3.
Proof.
  intros H1 H2 l. destruct (H1 l) as [Hv1 Ho1], (H2 l) as [Hv2 Ho2].
  split; [congruence|]. intros Hx. rewrite Ho2, Ho1; done.
Qed.

Lemma only_initial_point_of_alter (l : loc) (v : option params)
    (st : gmap loc SolverObj') :
  only_initial_point_of (Some l) st (alter (set_initial_point v) l st).
Proof.
  intros l'. destruct (decide (l = l')) as [->|Hne].
  - rewrite lookup_alter_eq. split; [by destruct (st !! l')|done].
  - rewrite lookup_alter_ne; done.
Qed.

Lemma perturb_perturb (p q : point) (pb : Problem') :
  perturb q (perturb p pb) = perturb q pb.
Proof. reflexivity. Qed.

Lemma solve_state (pt : point) (g : Guess) (pb : Problem') (w : World') :
  let r := solve convert gss_solve compute_minimum_eigenvalue interpret
             pt g pb w in
  config (self r.2) = config (self w)
  ∧ _problem (self r.2) = _problem (self w)
  ∧ extrapolator_store r.2 = extrapolator_store w
  ∧ ∀ l, _gss (self w) = GroundStateSolver l →
         _solver (self r.2) = _solver (self w)
         ∧ solver_store r.2 = solver_store w.
Proof.
  destruct (_gss (self w)) as [l|f] eqn:Hg; cbn zeta.
  - rewrite (solve_prebound _ _ _ _ _ Hg). by split_and!.
  - rewrite (solve_factory _ _ _ _ _ Hg). unfold config. repeat (destruct_match; proj).
    all: split_and!; [by f_equal|done..].
Qed.

(** One point: the configuration and the extrapolators stay; the problem
    is perturbed at the point once the driver check is passed; with a
    [GroundStateSolver] the sampler keeps its solver and only the initial
    point of that solver may be written. *)
Lemma run_single_point_frame (pt : point) (w : World') :
  let r := _run_single_point convert norm_diff gss_solve
             compute_minimum_eigenvalue interpret pt w in
  config (self r.2) = config (self w)
  ∧ extrapolator_store r.2 = extrapolator_store w
  ∧ (r.2 = w
     ∨ ∃ pb, _problem (self w) = Some pb
             ∧ _problem (self r.2) = Some (perturb pt pb))
  ∧ (∀ res, r.1 = Return res →
       ∃ pb, _problem (self w) = Some pb
             ∧ _problem (self r.2) = Some (perturb pt pb))
  ∧ ∀ l, _gss (self w) = GroundStateSolver l →
         _solver (self r.2) = _solver (self w)
         ∧ only_initial_point_of (_solver (self w))
             (solver_store w) (solver_store r.2).
Proof.
  lazy zeta.
  destruct (run_single_point_cases pt w) as [[e ->] | (pb & Hpb & ->)];
    cbn [fst snd].
  { split_and!; [done|done|by left|done|].
    intros l _. split; [done|apply only_initial_point_of_refl]. }
  set (w1 := with_self (set_problem (Some (perturb pt pb))) w).
  rewrite bind_eq.
  destruct (warm_start_frame pt w1) as (Hs & He & _ & Hst).
  assert (only_initial_point_of (_solver (self w))
            (solver_store w) (solver_store (warm_start norm_diff pt w1).2))
    as Hst'.
  { destruct Hst as [->|(l0 & v & Hl0 & ->)];
      [apply only_initial_point_of_refl|].
    subst w1. proj. rewrite Hl0. apply only_initial_point_of_alter. }
  clear Hst.
  destruct (warm_start norm_diff pt w1) as [[g|e] w2]; cbn [fst snd] in *.
  2: { rewrite Hs, He. subst w1. unfold config. proj.
       split_and!; [done|done|right; eauto|done|]. by intros l _. }
  rewrite bind_eq.
  destruct (solve_state pt g (perturb pt pb) w2) as (Hc & Hp & He' & Hpre).
  rewrite Hs in Hc, Hp, Hpre. subst w1. unfold config in *. proj.
  assert (∀ w3 : World',
            config (self w3) = config (self w) →
            _problem (self w3) = Some (perturb pt pb) →
            extrapolator_store w3 = extrapolator_store w →
            (∀ l, _gss (self w) = GroundStateSolver l →
                  _solver (self w3) = _solver (self w)
                  ∧ solver_store w3 = solver_store w2) →
            config (self w3) = config (self w)
            ∧ extrapolator_store w3 = extrapolator_store w
            ∧ (w3 = w
               ∨ ∃ pb0, Some pb = Some pb0
                        ∧ _problem (self w3) = Some (perturb pt pb0))
            ∧ (∃ pb0, Some pb = Some pb0
                      ∧ _problem (self w3) = Some (perturb pt pb0))
            ∧ ∀ l, _gss (self w) = GroundStateSolver l →
                   _solver (self w3) = _solver (self w)
                   ∧ only_initial_point_of (_solver (self w))
                       (solver_store w) (solver_store w3)) as Hfin.
  { intros w3 Hc3 Hp3 He3 Hpre3. split_and!; [done|done|right; eauto|eauto|].
    intros l Hl. destruct (Hpre3 l Hl) as [Hsv ->]. done. }
  destruct (solve _ _ _ _ _ _ _ _) as [[res|e] w3]; cbn [fst snd] in *.
  2: { rewrite Hpb.
       destruct (Hfin w3) as (? & ? & ? & ? & ?);
         [done|done|congruence|done|]. by split_and!. }
  rewrite bind_eq, record_optimal_point_spec. rewrite Hpb.
  repeat (destruct_match; unfold ret; proj).
  all: destruct (Hfin w3) as (? & ? & ? & ? & ?);
    [done|done|congruence|done|];
    split_and!; [done|done|right; eauto|eauto|done].
Qed.

(** A relation between the state before and after that every point
    evaluation establishes holds across the loop. *)
Lemma run_loop_invariant (R : World' → World' → Prop) :
  (∀ w, R w w) →
  (∀ w1 w2 w3, R w1 w2 → R w2 w3 → R w1 w3) →
  (∀ pt w, R w (_run_single_point convert norm_diff gss_solve
                  compute_minimum_eigenvalue interpret pt w).2) →
  ∀ pts (d : pydict point Result') w,
    R w (run_loop convert norm_diff gss_solve compute_minimum_eigenvalue
           interpret pts d w).2.
Proof.
  intros Hrefl Htrans Hstep pts.
  induction pts as [|pt pts IH]; intros d w; cbn [run_loop].
  - apply Hrefl.
  - rewrite bind_eq. specialize (Hstep pt w).
    destruct (_run_single_point _ _ _ _ _ pt w) as [[res|e] w1];
      cbn [snd] in *; [|done].
    eapply Htrans; [exact Hstep|apply IH].
Qed.

Lemma framed_refl (w : World') : framed w w.
Proof.
  split_and!; [done..|]. intros l _.
  split; [done|apply only_initial_point_of_refl].
Qed.

Lemma framed_trans (w1 w2 w3 : World') :
  framed w1 w2 → framed w2 w3 → framed w1 w3.
Proof.
  intros (Hc1 & He1 & Hp1) (Hc2 & He2 & Hp2).
  split_and!; [congruence..|]. intros l Hl.
  destruct (Hp1 l Hl) as [Hs1 Ho1].
  destruct (Hp2 l) as [Hs2 Ho2].
  { unfold config in Hc1. simplify_eq. congruence. }
  split; [congruence|]. rewrite Hs1 in Ho2.
  by eapply only_initial_point_of_trans.
Qed.

Lemma bind_problem_state (pb : Problem') (w : World') :
  let r := bind_problem convert pb w in
  config (self r.2) = config (self w)
  ∧ _problem (self r.2) = Some pb
  ∧ extrapolator_store r.2 = extrapolator_store w
  ∧ (r.1 = Return tt → valid_problem pb)
  ∧ ∀ l, _gss (self w) = GroundStateSolver l →
         r.2 = with_self (set_problem (Some pb)) w
         ∧ (valid_problem pb → r.1 = Return tt).
Proof.
  unfold bind_problem, check_driver, prepare, resolve_solver, valid_problem,
    config.
  run_M; simplify_eq; proj; split_and!; try done.
  all: try (intros _; split; [congruence|by eexists]).
  all: try (intros l _; split; [done|]; intros [Hk [m Hm]]; congruence).
  all: try (intros l Hl; congruence).
  all: congruence.
Qed.

Lemma run_points_start (pts : list point) (w : World') :
  ∃ w0,
    _run_points convert norm_diff gss_solve compute_minimum_eigenvalue
      interpret pts w
    = run_loop convert norm_diff gss_solve compute_minimum_eigenvalue
        interpret pts [] w0
    ∧ framed w w0
    ∧ _problem (self w0) = _problem (self w).
Proof.
  unfold _run_points. rewrite bind_eq. unfold get_state at 1.
  destruct (is_variational (solver_store w) (_solver (self w))) eqn:Hv.
  - destruct (is_variational_Some _ _ Hv) as (l & o & Hl & Ho & Hvo).
    eexists. split.
    { rewrite bind_eq. unfold assign_initial_point.
      unfold bind, modify, get_state. proj. rewrite Hl. reflexivity. }
    unfold framed, config. proj. split_and!; [done..| |done].
    intros l' _. split; [done|]. rewrite Hl.
    apply only_initial_point_of_alter.
  - exists w. split_and!; [done|apply framed_refl|done].
Qed.

Lemma aggregate_state (raw : pydict point Result') (w : World') :
  let r := aggregate raw w in
  framed w r.2 ∧ _problem (self r.2) = _problem (self w)
  ∧ solver_store r.2 = solver_store w.
Proof.
  lazy zeta.
  set (w0 := with_self (set_energies (Some []))
               (with_self (set_points (Some (dict_keys raw)))
                  (with_self (set_raw_results (Some raw)) w))).
  assert ((aggregate raw w).2 = (collect_energies (dict_values raw) w0).2)
    as ->.
  { unfold aggregate. unfold bind, modify, get_state, ret. fold w0.
    by destruct (collect_energies (dict_values raw) w0) as [[[]|e] w1]. }
  destruct (collect_energies_state (dict_values raw) w0) as [es ->].
  subst w0. unfold framed, config. proj. split_and!; [done..| |done|done].
  intros l _. split; [done|apply only_initial_point_of_refl].
Qed.

(** X5. Whatever its outcome, [sample] leaves what construction fixed in
    the sampler (solver or factory, tolerance, bootstrap flag, window,
    extrapolator, saved initial point, converter) and every extrapolator
    instance as they were. Around a [GroundStateSolver] it also keeps the
    solver the sampler holds, and in the store of solver instances it
    writes nothing but the [initial_point] of that solver. *)
Theorem sample_frame (pb : Problem') (pts : list point) (w : World') :
  let r := sample convert norm_diff gss_solve compute_minimum_eigenvalue
             interpret pb pts w in
  config (self r.2) = config (self w)
  ∧ extrapolator_store r.2 = extrapolator_store w
  ∧ ∀ l, _gss (self w) = GroundStateSolver l →
         _solver (self r.2) = _solver (self w)
         ∧ only_initial_point_of (_solver (self w))
             (solver_store w) (solver_store r.2).
Proof.
  lazy zeta. change (framed w (sample convert norm_diff gss_solve
    compute_minimum_eigenvalue interpret pb pts w).2).
  unfold sample. rewrite bind_eq.
  assert (framed w (bind_problem convert pb w).2) as H0.
  { destruct (bind_problem_state pb w) as (Hc & _ & He & _ & Hpre).
    split_and!; [done..|]. intros l Hl. destruct (Hpre l Hl) as [-> _].
    proj. split; [done|apply only_initial_point_of_refl]. }
  destruct (bind_problem convert pb w) as [[[]|e] w0]; cbn [snd] in *;
    [|done].
  rewrite bind_eq.
  destruct (run_points_start pts w0) as (w1 & -> & H1 & _).
  assert (framed w1 (run_loop convert norm_diff gss_solve
            compute_minimum_eigenvalue interpret pts [] w1).2) as H2.
  { apply run_loop_invariant; [apply framed_refl|apply framed_trans|].
    intros pt w'. destruct (run_single_point_frame pt w')
      as (? & ? & _ & _ & ?). by split_and!. }
  destruct (run_loop _ _ _ _ _ pts [] w1) as [[raw|e] w2]; cbn [snd] in *.
  2: { eauto using framed_trans. }
  destruct (aggregate_state raw w2) as (H3 & _).
  eauto using framed_trans.
Qed.

(** *** The geometry the problem is left with *)

Lemma run_loop_problem (pts : list point) :
  ∀ (d : pydict point Result') (w : World') (pb : Problem'),
    _problem (self w) = Some pb →
    let r := run_loop convert norm_diff gss_solve
               compute_minimum_eigenvalue interpret pts d w in
    (∀ d', r.1 = Return d' →
       _problem (self r.2)
       = Some (from_option (λ q, perturb q pb) pb (last pts)))
    ∧ (_problem (self r.2) = Some pb
       ∨ ∃ q, q ∈ pts ∧ _problem (self r.2) = Some (perturb q pb)).
Proof.
  induction pts as [|pt pts IH]; intros d w pb Hpb; cbn [run_loop].
  { unfold ret. cbn. split; [done|by left]. }
  lazy zeta. rewrite bind_eq.
  destruct (run_single_point_frame pt w) as (_ & _ & Hany & Hret & _).
  destruct (_run_single_point _ _ _ _ _ pt w) as [[res|e] w1];
    cbn [fst snd] in *.
  2: { split; [done|]. destruct Hany as [->|(pb' & Hpb' & Hw1)];
         [by left|right]. exists pt. split; [left|]. congruence. }
  destruct (Hret res eq_refl) as (pb' & Hpb' & Hw1).
  rewrite Hpb in Hpb'. injection Hpb' as <-.
  destruct (IH (dict_setitem pt res d) w1 _ Hw1) as [IHret IHany].
  split.
  - intros d' Hd'. rewrite (IHret d' Hd'). f_equal.
    destruct pts as [|p ps]; [done|].
    change (last (pt :: p :: ps)) with (last (p :: ps)).
    destruct (last (p :: ps)) eqn:Hl; [done|]. by apply last_None in Hl.
  - right. destruct IHany as [IHany|(q & Hq & IHany)].
    + exists pt. split; [left|done].
    + exists q. split; [by right|]. by rewrite IHany.
Qed.

(** X6. [sample] writes the geometry of every point it evaluates into the
    molecule of the problem object: after a call that returns, the problem
    the sampler holds is the given one perturbed at the last requested
    point (the given one itself for an empty request); after a call that
    raises it is the given problem, untouched or perturbed at one of the
    requested points. *)
Theorem sample_leaves_last_geometry (pb : Problem') (pts : list point)
    (w : World') :
  let r := sample convert norm_diff gss_solve compute_minimum_eigenvalue
             interpret pb pts w in
  (∀ res, r.1 = Return res →
     _problem (self r.2)
     = Some (from_option (λ q, perturb q pb) pb (last pts)))
  ∧ (_problem (self r.2) = Some pb
     ∨ ∃ q, q ∈ pts ∧ _problem (self r.2) = Some (perturb q pb)).
Proof.
  lazy zeta. unfold sample. rewrite bind_eq.
  destruct (bind_problem_state pb w) as (_ & Hp0 & _).
  destruct (bind_problem convert pb w) as [[[]|e] w0]; cbn [fst snd] in *.
  2: { split; [done|by left]. }
  rewrite bind_eq.
  destruct (run_points_start pts w0) as (w1 & -> & _ & Hp1).
  rewrite Hp0 in Hp1.
  destruct (run_loop_problem pts [] w1 pb Hp1) as [Hret Hany].
  destruct (run_loop _ _ _ _ _ pts [] w1) as [[raw|e] w2];
    cbn [fst snd] in *; [|done].
  destruct (aggregate_state raw w2) as (_ & Hp3 & _).
  rewrite <- Hp3 in Hany, Hret. split; [|done].
  intros res _. by apply (Hret raw).
Qed.

(** *** The order of the invocations *)

Lemma run_single_point_calls (pt : point) (w : World') :
  let r := _run_single_point convert norm_diff gss_solve
             compute_minimum_eigenvalue interpret pt w in
  (calls r.2 = calls w ∧ ∃ e, r.1 = Raise e)
  ∨ ∃ c, calls r.2 = calls w ++ [c]
         ∧ call_point c = pt
         ∧ (∀ e, call_result c = Raise e → r.1 = Raise e)
         ∧ (∀ res, r.1 = Return res → call_result c = Return res).
Proof.
  lazy zeta.
  destruct (run_single_point_cases pt w) as [[e ->] | (pb & Hpb & ->)];
    cbn [fst snd]; [left; eauto|].
  set (w1 := with_self (set_problem (Some (perturb pt pb))) w).
  rewrite bind_eq.
  destruct (warm_start_frame pt w1) as (_ & _ & Hc & _).
  change (calls w1) with (calls w) in Hc.
  destruct (warm_start norm_diff pt w1) as [[g|e] w2]; cbn [fst snd] in *;
    [|left; eauto].
  rewrite bind_eq.
  destruct (solve_frame pt g (perturb pt pb) w2) as (_ & _ & _ & Hlog & Hne).
  destruct (solve _ _ _ _ _ _ _ _) as [[res|e] w3]; cbn [fst snd] in *.
  2: { destruct Hlog as [Hlog|(c & Hlog & Hpt & _ & Hres)].
       - left. split; [congruence|eauto].
       - right. exists c. split_and!; [congruence|done| |done].
         intros e'. rewrite Hres. by intros [= ->]. }
  destruct Hlog as [Hlog|(c & Hlog & Hpt & _ & Hres)];
    [by destruct (Hne res)|].
  rewrite bind_eq, record_optimal_point_spec.
  right. exists c.
  repeat (destruct_match; unfold ret; proj).
  all: split_and!; [congruence|done| |];
    rewrite Hres; [by intros e'|by intros res' [= ->]].
Qed.

Lemma run_loop_calls (pts : list point) :
  ∀ (d : pydict point Result') (w : World'),
    let r := run_loop convert norm_diff gss_solve
               compute_minimum_eigenvalue interpret pts d w in
    ∃ cs, calls r.2 = calls w ++ cs
          ∧ call_point <$> cs `prefix_of` pts
          ∧ ∀ c e, c ∈ cs → call_result c = Raise e →
                   r.1 = Raise e ∧ last cs = Some c.
Proof.
  induction pts as [|pt pts IH]; intros d w; cbn [run_loop]; lazy zeta.
  { exists []. rewrite app_nil_r. split_and!; [done|done|].
    intros c e Hc. by apply elem_of_nil in Hc. }
  rewrite bind_eq.
  destruct (run_single_point_calls pt w)
    as [[Hc [e He]]|(c & Hc & Hpt & Hraise & Hret)].
  { destruct (_run_single_point _ _ _ _ _ pt w) as [[res|e'] w1];
      cbn [fst snd] in *; [done|].
    exists []. rewrite app_nil_r. split_and!; [done|apply prefix_nil|].
    intros c e0 Hc0. by apply elem_of_nil in Hc0. }
  destruct (_run_single_point _ _ _ _ _ pt w) as [[res|e'] w1];
    cbn [fst snd] in *.
  2: { exists [c]. split_and!; [done| |].
       - cbn. rewrite Hpt. apply prefix_cons, prefix_nil.
       - intros c' e0 ->%list_elem_of_singleton Hc'.
         split; [|done]. specialize (Hraise e0 Hc'). by simplify_eq. }
  destruct (IH (dict_setitem pt res d) w1) as (cs & Hcs & Hpre & Hfail).
  exists (c :: cs). split_and!.
  - rewrite Hcs, Hc, <- app_assoc. done.
  - cbn. rewrite Hpt. by apply prefix_cons.
  - intros c' e0 [->|Hin]%elem_of_cons Hc'.
    { rewrite (Hret res eq_refl) in Hc'. done. }
    destruct (Hfail c' e0 Hin Hc') as [Hr Hlast]. split; [done|].
    destruct cs as [|c0 cs0]; [by apply elem_of_nil in Hin|done].
Qed.

(** X7. The points are evaluated one after the other, in the order of the
    request, and the sweep stops at the first failure: whatever the
    outcome of [sample], the points of the invocations it made are a
    prefix of the request, and an invocation in which the solver raised
    is the last one made, its exception being the outcome of [sample]. *)
Theorem sample_stops_at_first_failure (pb : Problem') (pts : list point)
    (w : World') :
  let r := sample convert norm_diff gss_solve compute_minimum_eigenvalue
             interpret pb pts w in
  let cs := new_calls w r.2 in
  calls r.2 = calls w ++ cs
  ∧ call_point <$> cs `prefix_of` pts
  ∧ ∀ c e, c ∈ cs → call_result c = Raise e →
           r.1 = Raise e ∧ last cs = Some c.
Proof.
  lazy zeta. unfold new_calls.
  assert (∃ cs, let r := sample convert norm_diff gss_solve
                  compute_minimum_eigenvalue interpret pb pts w in
                calls r.2 = calls w ++ cs
                ∧ call_point <$> cs `prefix_of` pts
                ∧ ∀ c e, c ∈ cs → call_result c = Raise e →
                         r.1 = Raise e ∧ last cs = Some c)
    as (cs & Hcs & Hrest).
  2: { rewrite Hcs, drop_app_length. by split. }
  lazy zeta. unfold sample. rewrite bind_eq.
  destruct (bind_problem_spec pb w) as (Hc0 & _).
  destruct (bind_problem convert pb w) as [[[]|e] w0]; cbn [fst snd] in *.
  2: { exists []. rewrite app_nil_r. split_and!; [done|apply prefix_nil|].
       intros c e0 Hc. by apply elem_of_nil in Hc. }
  rewrite bind_eq.
  destruct (run_points_eq pts w0) as (w1 & -> & Hc1 & _).
  destruct (run_loop_calls pts [] w1) as (cs & Hcs & Hpre & Hfail).
  exists cs.
  destruct (run_loop _ _ _ _ _ pts [] w1) as [[raw|e] w2];
    cbn [fst snd] in *.
  2: { split_and!; [congruence|done|]. intros c e0 Hin Hc.
       destruct (Hfail c e0 Hin Hc) as [? ?]. split; [by simplify_eq|done]. }
  destruct (aggregate_spec raw w2) as (Hc3 & _).
  split_and!; [congruence|done|].
  intros c e Hin Hc. by destruct (Hfail c e Hin Hc).
Qed.

(** *** Sweeps that return *)

Lemma run_points_unfold (pts : list point) (w : World') :
  _run_points convert norm_diff gss_solve compute_minimum_eigenvalue
    interpret pts w
  = run_loop convert norm_diff gss_solve compute_minimum_eigenvalue
      interpret pts [] (sweep_start w).
Proof.
  unfold _run_points, sweep_start. rewrite bind_eq. unfold get_state at 1.
  destruct (is_variational (solver_store w) (_solver (self w))) eqn:Hv;
    [|done].
  destruct (is_variational_Some _ _ Hv) as (l & o & Hl & Ho & Hvo).
  rewrite bind_eq. unfold assign_initial_point.
  unfold bind, modify, get_state. proj. by rewrite Hl.
Qed.

Lemma sweep_start_history_ready (w : World') : history_ready (sweep_start w).
Proof.
  unfold history_ready, sweep_start.
  destruct (is_variational (solver_store w) (_solver (self w))) eqn:Hv;
    [|congruence].
  destruct (_solver (self w)); [by eexists|intros _; cbn in Hv; discriminate].
Qed.

Lemma sweep_start_prebound (l : loc) (w : World') :
  prebound l w →
  prebound l (sweep_start w)
  ∧ (window_ready w → window_ready (sweep_start w))
  ∧ _problem (self (sweep_start w)) = _problem (self w)
  ∧ calls (sweep_start w) = calls w.
Proof.
  intros [Hg Hl]. unfold sweep_start, prebound, window_ready. rewrite Hl.
  by destruct (is_variational (solver_store w) (Some l)).
Qed.

Lemma warm_start_returns (pt : point) (w : World') (l : loc) :
  _solver (self w) = Some l → window_ready w → history_ready w →
  ∃ g w2, warm_start norm_diff pt w = (Return g, w2).
Proof.
  intros Hl Hwin Hh.
  destruct (is_variational (solver_store w) (_solver (self w))) eqn:Hv.
  2: { rewrite warm_start_skip; [eauto|by rewrite Hv]. }
  destruct (_bootstrap (self w)) eqn:Hb.
  2: { rewrite warm_start_skip; [eauto|by rewrite Hv, Hb]. }
  destruct (Hh Hv) as [h Hhist].
  destruct h as [|kv h].
  { rewrite warm_start_empty; eauto. }
  destruct (_extrapolator (self w)) as [ext|] eqn:He.
  - destruct (Hwin ext He) as [[e Hext] [k Hk]].
    destruct (Z.le_gt_cases (Z.of_nat (length (kv :: h))) k) as [Hle|Hgt].
    + destruct (warm_start_nearest pt w (kv :: h) l Hv Hb Hhist)
        as (v & _ & ->); [done|done| |eauto].
      rewrite He. eauto.
    + erewrite warm_start_extrapolate; eauto.
  - destruct (warm_start_nearest pt w (kv :: h) l Hv Hb Hhist)
      as (v & _ & ->); [done|done| |eauto].
    by rewrite He.
Qed.

(** Around a [GroundStateSolver], a point whose warm start has made its
    choice is solved by the wrapped instance as the warm start left it;
    the evaluation returns what the solver answers, unless a variational
    solver finds no history to write to. *)
Lemma run_single_point_prebound_run (pt : point) (w w2 : World') (l : loc)
    (pb : Problem') (g : Guess) :
  _gss (self w) = GroundStateSolver l →
  _problem (self w) = Some pb →
  valid_problem pb →
  warm_start norm_diff pt w = (Return g, w2) →
  let obj := solver_store w2 !! l in
  let out := gss_solve (length (calls w)) (perturb pt pb) obj in
  let r := _run_single_point convert norm_diff gss_solve
             compute_minimum_eigenvalue interpret pt w in
  calls r.2 = calls w ++ [{| call_point := pt; call_guess := g;
                             call_solver := Some l; call_solver_obj := obj;
                             call_result := out |}]
  ∧ solver_store r.2 = solver_store w2
  ∧ (r.1 = out
     ∨ r.1 = Raise TypeError
       ∧ is_variational (solver_store w) (_solver (self w)) = true
       ∧ _points_optparams (self w) = None).
Proof.
  intros Hg Hpb [Hk [m Hm]] Hws.
  assert (check_driver w = (Return pb, w)) as Hcd.
  { unfold check_driver, bind, get_state, ret, throw. cbn. rewrite Hpb.
    by destruct (driver_kind (driver pb)). }
  pose proof (warm_start_variational pt w (_solver (self w))) as Hvar.
  destruct (warm_start_frame pt w) as (Hs & _ & Hc & _).
  rewrite Hws in Hs, Hc, Hvar. cbn [fst snd] in Hs, Hc, Hvar.
  lazy zeta.
  remember (_run_single_point convert norm_diff gss_solve
              compute_minimum_eigenvalue interpret pt w) as r eqn:Hr.
  unfold _run_single_point in Hr. rewrite bind_eq, Hcd, Hm in Hr.
  rewrite bind_eq in Hr. unfold modify at 1 in Hr.
  rewrite bind_eq, warm_start_set_problem, Hws in Hr. cbn [fst snd] in Hr.
  rewrite bind_eq, (solve_prebound _ _ _ _ l) in Hr; [|proj; by rewrite Hs].
  proj. rewrite Hc in Hr.
  destruct (gss_solve (length (calls w)) (perturb pt pb)
              (solver_store w2 !! l)) as [res|e].
  2: { subst r. proj. rewrite Hc. split_and!; [done|done|by left]. }
  rewrite bind_eq, record_optimal_point_spec in Hr. proj.
  rewrite Hs in Hr. proj. rewrite Hvar in Hr.
  destruct (is_variational (solver_store w) (_solver (self w)));
    [destruct (_points_optparams (self w))|];
    unfold ret in Hr; subst r; proj; rewrite Hc;
    split_and!; [done|done|eauto..].
Qed.

Lemma dict_values_setitem_Forall (P : Result' → Prop) (k : point)
    (v : Result') (d : pydict point Result') :
  P v → Forall P (dict_values d) →
  Forall P (dict_values (dict_setitem k v d)).
Proof.
  intros Hv. unfold dict_values.
  induction d as [|[k' v'] d IH]; cbn [dict_setitem]; intros Hd.
  { by repeat constructor. }
  apply Forall_cons in Hd as [Hv' Hd].
  destruct (decide (k' = k)); cbn; constructor; auto.
Qed.

Lemma run_loop_returns (pts : list point) :
  ∀ (d : pydict point Result') (w : World') (l : loc) (pb0 pb : Problem'),
    prebound l w → window_ready w → history_ready w →
    _problem (self w) = Some pb → valid_problem pb →
    (∀ q, perturb q pb = perturb q pb0) →
    (∀ q n o, q ∈ pts →
       ∃ res, gss_solve n (perturb q pb0) o = Return res
              ∧ total_energies res ≠ []) →
    Forall (λ res, total_energies res ≠ []) (dict_values d) →
    ∃ d', (run_loop convert norm_diff gss_solve compute_minimum_eigenvalue
             interpret pts d w).1 = Return d'
          ∧ Forall (λ res, total_energies res ≠ []) (dict_values d').
Proof.
  induction pts as [|pt pts IH];
    intros d w l pb0 pb [Hg Hl] Hwin Hh Hpb Hval Hper Heng Hd;
    cbn [run_loop].
  { exists d. by split. }
  rewrite bind_eq.
  destruct (warm_start_returns pt w l Hl Hwin Hh) as (g & w2 & Hws).
  destruct (run_single_point_prebound_run pt w w2 l pb g Hg Hpb Hval Hws)
    as (_ & _ & Hout).
  destruct (run_single_point_frame pt w) as (Hc & He & _ & Hret & Hpre).
  destruct (run_single_point_spec pt w) as (_ & _ & _ & Hkind & Hhist & _).
  destruct (Heng pt (length (calls w)) (solver_store w2 !! l))
    as (res & Hres & Hen); [by left|].
  rewrite Hper, Hres in Hout.
  destruct Hout as [Hout|(_ & Hv & Hnone)].
  2: { destruct (Hh Hv) as [h Hsome]. congruence. }
  destruct (_run_single_point _ _ _ _ _ pt w) as [[res'|e] w1];
    cbn [fst snd] in *; [|done].
  injection Hout as ->.
  destruct (Hret res eq_refl) as (pb' & Hpb' & Hw1).
  rewrite Hpb in Hpb'. injection Hpb' as <-.
  destruct (Hpre l Hg) as [Hsol _].
  apply (IH _ w1 l pb0 (perturb pt pb)).
  - split; [|congruence]. unfold config in Hc. simplify_eq. congruence.
  - intros ext Hext. unfold config in Hc. simplify_eq.
    destruct (Hwin ext) as [? ?]; [congruence|]. split; congruence.
  - intros Hv1.
    destruct (Hkind (is_variational (solver_store w) (_solver (self w))))
      as [_ Hv]; [unfold resolved_kind; by rewrite Hg|done|].
    destruct Hhist as [Hsame|(_ & h & v & _ & ->)]; [|by eexists].
    rewrite Hsame. apply Hh. congruence.
  - done.
  - destruct Hval as [Hk [m Hm]]. split; [done|by eexists].
  - intros q. by rewrite perturb_perturb.
  - intros q n o Hq. apply Heng. by right.
  - by apply dict_values_setitem_Forall.
Qed.

Lemma aggregate_returns (raw : pydict point Result') (w : World') :
  Forall (λ res, total_energies res ≠ []) (dict_values raw) →
  ∃ res, (aggregate raw w).1 = Return res.
Proof.
  intros Hall.
  set (w0 := with_self (set_energies (Some []))
               (with_self (set_points (Some (dict_keys raw)))
                  (with_self (set_raw_results (Some raw)) w))).
  assert ((aggregate raw w).1
          = match (collect_energies (dict_values raw) w0).1 with
            | Return _ =>
                Return {| points := default [] (_points (self
                            (collect_energies (dict_values raw) w0).2));
                          energies := default [] (_energies (self
                            (collect_energies (dict_values raw) w0).2));
                          raw_results := default [] (_raw_results (self
                            (collect_energies (dict_values raw) w0).2)) |}
            | Raise e => Raise e
            end) as ->.
  { unfold aggregate. unfold bind, modify, get_state, ret. fold w0.
    by destruct (collect_energies (dict_values raw) w0) as [[[]|e] w1]. }
  destruct (collect_energies_outcome (dict_values raw) w0 [] eq_refl)
    as [Hok _].
  destruct (Hok Hall) as [-> _]. eauto.
Qed.

(** X8. Around a [GroundStateSolver], [sample] has no failure of its own:
    when the problem passes the driver checks, the extrapolator of the
    sampler (if any) exists and has its window, and the solver answers at
    every requested geometry with a result that has a total energy,
    [sample] returns a result. *)
Theorem sample_returns (pb : Problem') (pts : list point) (w : World')
    (l : loc) :
  prebound l w → window_ready w → valid_problem pb →
  (∀ q n o, q ∈ pts →
     ∃ res, gss_solve n (perturb q pb) o = Return res
            ∧ total_energies res ≠ []) →
  ∃ res, (sample convert norm_diff gss_solve compute_minimum_eigenvalue
            interpret pb pts w).1 = Return res.
Proof.
  intros [Hg Hl] Hwin Hval Heng.
  unfold sample. rewrite bind_eq.
  destruct (bind_problem_state pb w) as (_ & _ & _ & _ & Hpre).
  destruct (Hpre l Hg) as [Hw0 Hret]. specialize (Hret Hval).
  destruct (bind_problem convert pb w) as [[[]|e] w0]; cbn [fst snd] in *;
    [|done].
  subst w0. rewrite bind_eq, run_points_unfold.
  set (w0 := with_self (set_problem (Some pb)) w).
  destruct (sweep_start_prebound l w0) as (Hp1 & Hw1 & Hpb1 & _);
    [by split|].
  destruct (run_loop_returns pts [] (sweep_start w0) l pb pb)
    as (raw & Hraw & Hall).
  - done.
  - by apply Hw1.
  - apply sweep_start_history_ready.
  - by rewrite Hpb1.
  - done.
  - done.
  - done.
  - constructor.
  - destruct (run_loop _ _ _ _ _ pts [] (sweep_start w0)) as [[raw'|e] w2];
      cbn [fst snd] in *; [|done].
    injection Hraw as ->. by apply aggregate_returns.
Qed.

(** *** The saved initial point *)

(** Around a [GroundStateSolver], a point for which the warm start has
    nothing to do (it is switched off, or the history is empty) is solved
    by the wrapped instance as it is, and leaves every solver instance as
    it is. *)
Lemma run_single_point_unwarmed (pt : point) (w : World') (l : loc) :
  _gss (self w) = GroundStateSolver l →
  is_variational (solver_store w) (_solver (self w)) && _bootstrap (self w)
    = false
  ∨ _points_optparams (self w) = Some [] →
  let r := _run_single_point convert norm_diff gss_solve
             compute_minimum_eigenvalue interpret pt w in
  solver_store r.2 = solver_store w
  ∧ ((calls r.2 = calls w ∧ ∃ e, r.1 = Raise e)
     ∨ ∃ c, calls r.2 = calls w ++ [c]
            ∧ call_solver_obj c = solver_store w !! l).
Proof.
  intros Hg Hcold. lazy zeta.
  destruct (run_single_point_cases pt w) as [[e ->] | (pb & Hpb & ->)];
    cbn [fst snd]; [split; [done|left; eauto]|].
  set (w1 := with_self (set_problem (Some (perturb pt pb))) w).
  assert (∃ g, warm_start norm_diff pt w1 = (Return g, w1)) as [g Hws].
  { destruct (is_variational (solver_store w) (_solver (self w))
              && _bootstrap (self w)) eqn:Hvb.
    - destruct Hcold as [?|Hh]; [done|].
      apply andb_true_iff in Hvb as [Hv Hb].
      exists EmptyHistory. by apply warm_start_empty.
    - exists NoLookup. by apply warm_start_skip. }
  rewrite bind_eq, Hws. cbn [fst snd].
  rewrite bind_eq, (solve_prebound _ _ _ _ l); [|done].
  subst w1. proj.
  destruct (gss_solve _ _ _) as [res|e]; proj.
  2: { split; [done|right]. by eexists. }
  rewrite bind_eq, record_optimal_point_spec. proj.
  repeat (destruct_match; unfold ret; proj).
  all: split; [done|right]; by eexists.
Qed.

(** Without a warm start (the solver is not variational, or the warm
    start is switched off), every point of the loop is solved by the
    wrapped instance as the loop found it, and no solver instance is
    written. *)
Lemma run_loop_cold (l : loc) (pts : list point) :
  ∀ (d : pydict point Result') (w : World'),
    _gss (self w) = GroundStateSolver l →
    is_variational (solver_store w) (_solver (self w)) && _bootstrap (self w)
      = false →
    let r := run_loop convert norm_diff gss_solve
               compute_minimum_eigenvalue interpret pts d w in
    solver_store r.2 = solver_store w
    ∧ ∃ cs, calls r.2 = calls w ++ cs
            ∧ Forall (λ c, call_solver_obj c = solver_store w !! l) cs.
Proof.
  induction pts as [|pt pts IH]; intros d w Hg Hb; cbn [run_loop];
    lazy zeta.
  { split; [done|]. exists []. by rewrite app_nil_r. }
  rewrite bind_eq.
  destruct (run_single_point_unwarmed pt w l Hg) as [Hst Hcalls];
    [by left|].
  destruct (run_single_point_frame pt w) as (Hc & _ & _ & _ & Hpre).
  destruct (Hpre l Hg) as [Hsol _].
  destruct (_run_single_point _ _ _ _ _ pt w) as [[res|e] w1];
    cbn [fst snd] in *.
  2: { split; [done|].
       destruct Hcalls as [[Hcalls _]|(c & Hcalls & Hobj)].
       - exists []. by rewrite app_nil_r.
       - exists [c]. split; [done|]. by repeat constructor. }
  destruct Hcalls as [[_ [e ?]]|(c & Hcalls & Hobj)]; [done|].
  unfold config in Hc. simplify_eq.
  destruct (IH (dict_setitem pt res d) w1) as (Hst' & cs & Hcs & Hall);
    [congruence..|].
  split; [congruence|]. exists (c :: cs). split.
  - rewrite Hcs, Hcalls, <- app_assoc. done.
  - constructor; [done|]. by rewrite <- Hst.
Qed.

(** The first point of a loop that starts with an empty history is solved
    by the wrapped instance as the loop found it. *)
Lemma run_loop_head (l : loc) (pts : list point)
    (d : pydict point Result') (w : World') :
  _gss (self w) = GroundStateSolver l →
  _points_optparams (self w) = Some [] →
  let r := run_loop convert norm_diff gss_solve
             compute_minimum_eigenvalue interpret pts d w in
  ∃ cs, calls r.2 = calls w ++ cs
        ∧ ∀ c, head cs = Some c → call_solver_obj c = solver_store w !! l.
Proof.
  intros Hg Hh. lazy zeta. destruct pts as [|pt pts]; cbn [run_loop].
  { exists []. by rewrite app_nil_r. }
  rewrite bind_eq.
  destruct (run_single_point_unwarmed pt w l Hg) as [_ Hcalls]; [by right|].
  destruct (_run_single_point _ _ _ _ _ pt w) as [[res|e] w1];
    cbn [fst snd] in *.
  2: { destruct Hcalls as [[Hcalls _]|(c & Hcalls & Hobj)].
       - exists []. by rewrite app_nil_r.
       - exists [c]. split; [done|]. by intros ? [= <-]. }
  destruct Hcalls as [[_ [e ?]]|(c & Hcalls & Hobj)]; [done|].
  destruct (run_loop_calls pts (dict_setitem pt res d) w1)
    as (cs & Hcs & _).
  exists (c :: cs). split.
  - rewrite Hcs, Hcalls, <- app_assoc. done.
  - by intros ? [= <-].
Qed.

(** X9. A sweep does not inherit the initial point of the sweep before:
    around a variational [GroundStateSolver], the first invocation of
    every [sample] call finds the solver with the initial point that was
    saved at construction, and with the warm start switched off every
    invocation of the call does. *)
Theorem sample_cold_start (pb : Problem') (pts : list point) (w : World')
    (l : loc) :
  prebound l w →
  is_variational (solver_store w) (Some l) = true →
  let r := sample convert norm_diff gss_solve compute_minimum_eigenvalue
             interpret pb pts w in
  let cs := new_calls w r.2 in
  (∀ c, head cs = Some c →
        call_solver_obj c ≫= initial_point = _initial_point (self w))
  ∧ (_bootstrap (self w) = false →
     Forall (λ c, call_solver_obj c ≫= initial_point
                  = _initial_point (self w)) cs).
Proof.
  intros [Hg Hl] Hv. lazy zeta. unfold new_calls.
  destruct (is_variational_Some _ _ Hv) as (l' & o & [= <-] & Ho & Hvo).
  assert (∃ cs, calls (sample convert norm_diff gss_solve
                         compute_minimum_eigenvalue interpret pb pts w).2
                = calls w ++ cs
                ∧ (∀ c, head cs = Some c →
                        call_solver_obj c ≫= initial_point
                        = _initial_point (self w))
                ∧ (_bootstrap (self w) = false →
                   Forall (λ c, call_solver_obj c ≫= initial_point
                                = _initial_point (self w)) cs))
    as (cs & -> & Hhead & Hall).
  2: { by rewrite drop_app_length. }
  unfold sample. rewrite bind_eq.
  destruct (bind_problem_state pb w) as (_ & _ & _ & _ & Hpre).
  destruct (Hpre l Hg) as [Hw0 _]. clear Hpre.
  destruct (bind_problem convert pb w) as [[[]|e] w0]; cbn [fst snd] in *.
  2: { subst w0. exists []. rewrite app_nil_r.
       split_and!; [done|done|by constructor]. }
  subst w0. rewrite bind_eq, run_points_unfold.
  set (w1 := sweep_start (with_self (set_problem (Some pb)) w)).
  assert (_gss (self w1) = GroundStateSolver l
          ∧ _bootstrap (self w1) = _bootstrap (self w)
          ∧ _points_optparams (self w1) = Some []
          ∧ calls w1 = calls w
          ∧ solver_store w1 !! l ≫= initial_point = _initial_point (self w))
    as (Hg1 & Hb1 & Hh1 & Hc1 & Hip).
  { unfold w1, sweep_start. proj. rewrite Hl, Hv. proj.
    split_and!; [done..|]. by rewrite lookup_alter_eq, Ho. }
  destruct (run_loop_head l pts [] w1 Hg1 Hh1) as (cs & Hcs & Hhead).
  pose proof (run_loop_cold l pts [] w1 Hg1) as Hcold.
  assert ((∀ c, head cs = Some c →
                call_solver_obj c ≫= initial_point = _initial_point (self w))
          ∧ (_bootstrap (self w) = false →
             Forall (λ c, call_solver_obj c ≫= initial_point
                          = _initial_point (self w)) cs)) as [Hfst Hall].
  { split.
    - intros c Hc. by rewrite (Hhead c Hc).
    - intros Hb. destruct Hcold as (_ & cs' & Hcs' & Hall).
      { rewrite Hb1, Hb. apply andb_false_r. }
      rewrite Hcs in Hcs'. apply app_inv_head in Hcs' as <-.
      eapply Forall_impl; [exact Hall|]. by intros c ->. }
  exists cs. rewrite Hc1 in Hcs.
  destruct (run_loop _ _ _ _ _ pts [] w1) as [[raw|e] w2];
    cbn [fst snd] in *; [|done].
  destruct (aggregate_spec raw w2) as (Hc3 & _).
  rewrite Hc3. done.
Qed.

(** X10. Around a [GroundStateSolver], without a warm start (the solver
    is not variational, or bootstrapping is switched off) [sample] writes
    no guess into any solver instance: a solver that is not variational
    is left untouched, and a variational one ends the call holding the
    initial point saved at construction. *)
Theorem sample_without_warm_start (pb : Problem') (pts : list point)
    (w : World') (l : loc) :
  prebound l w → valid_problem pb →
  is_variational (solver_store w) (Some l) && _bootstrap (self w) = false →
  let r := sample convert norm_diff gss_solve compute_minimum_eigenvalue
             interpret pb pts w in
  solver_store r.2
  = if is_variational (solver_store w) (Some l)
    then alter (set_initial_point (_initial_point (self w))) l
           (solver_store w)
    else solver_store w.
Proof.
  intros [Hg Hl] Hval Hcold. lazy zeta.
  unfold sample. rewrite bind_eq.
  destruct (bind_problem_state pb w) as (_ & _ & _ & _ & Hpre).
  destruct (Hpre l Hg) as [Hw0 Hret]. specialize (Hret Hval). clear Hpre.
  destruct (bind_problem convert pb w) as [[[]|e] w0]; cbn [fst snd] in *;
    [|done].
  subst w0. rewrite bind_eq, run_points_unfold.
  set (w1 := sweep_start (with_self (set_problem (Some pb)) w)).
  assert (_gss (self w1) = GroundStateSolver l
          ∧ is_variational (solver_store w1) (_solver (self w1))
            && _bootstrap (self w1) = false
          ∧ solver_store w1
            = if is_variational (solver_store w) (Some l)
              then alter (set_initial_point (_initial_point (self w))) l
                     (solver_store w)
              else solver_store w) as (Hg1 & Hcold1 & Hst1).
  { unfold w1, sweep_start. proj. rewrite Hl.
    destruct (is_variational (solver_store w) (Some l)) eqn:Hv; proj.
    - rewrite is_variational_alter, Hl, Hv. by split_and!.
    - rewrite Hl, Hv. by split_and!. }
  destruct (run_loop_cold l pts [] w1 Hg1 Hcold1) as (Hst2 & _).
  rewrite <- Hst1, <- Hst2.
  destruct (run_loop _ _ _ _ _ pts [] w1) as [[raw|e] w2];
    cbn [fst snd] in *; [|done].
  by destruct (aggregate_state raw w2) as (_ & _ & ->).
Qed.

(** *** Construction *)

(** X11. A sampler that the constructor returns for a [GroundStateSolver]
    holds the wrapped solver, has a window whenever it has an
    extrapolator, and has neither a problem nor a history yet: with an
    extrapolator that exists, construction establishes what a sweep needs
    from the sampler. *)
Theorem init_establishes_ready (solvers : gmap loc SolverObj') (l : loc)
    (tolerance : Q) (bootstrap : bool) (num_bootstrap : option Z)
    (extrapolator : option loc) (qubit_converter : option converter)
    (est est' : gmap loc ExtrapolatorObj') (s : Sampler')
    (cs : list Call) :
  init solvers (GroundStateSolver l) tolerance bootstrap num_bootstrap
    extrapolator qubit_converter est = (Return s, est') →
  (∀ x, extrapolator = Some x → is_Some (est !! x)) →
  let w := {| self := s; solver_store := solvers;
              extrapolator_store := est'; calls := cs |} in
  prebound l w ∧ window_ready w
  ∧ _problem s = None ∧ _points_optparams s = None
  ∧ (is_variational solvers (Some l) = true →
     _initial_point s = solvers !! l ≫= initial_point).
Proof.
  intros Hinit Hext. lazy zeta. unfold prebound, window_ready. proj.
  revert Hinit. unfold __init__, is_window_extrapolator.
  unfold bind, throw, get_state, modify, ret. cbn.
  repeat (destruct_match; cbn); intros; simplify_eq; cbn.
  all: split_and!; try done.
  all: try by intros ->.
  all: intros x [= ->]; split; [|by eexists].
  all: destruct (Hext x eq_refl) as [e0 He0]; try (by eexists).
  all: rewrite lookup_alter_eq, He0; by eexists.
Qed.

(** *** The tolerance *)

Section ignores_facts.
Context {S : Type} (f : S → S).

Lemma ignores_ret {A} (a : A) : ignores f (ret a).
Proof. done. Qed.

Lemma ignores_throw {A} (e : exn) : ignores f (throw (A := A) e).
Proof. done. Qed.

Lemma ignores_modify (g : S → S) :
  (∀ s, g (f s) = f (g s)) → ignores f (modify g).
Proof. intros Hg s. unfold modify. cbn. by rewrite Hg. Qed.

Lemma ignores_bind {A B} (c : M S A) (k : A → M S B) :
  ignores f c → (∀ a, ignores f (k a)) → ignores f (bind c k).
Proof.
  intros Hc Hk s. rewrite !bind_eq, Hc.
  destruct (c s) as [[a|e] s']; cbn [fst snd]; [apply Hk|done].
Qed.
End ignores_facts.

Lemma check_driver_tolerance (t : Q) :
  ignores (retune t)
    check_driver.
Proof. intros w. unfold check_driver. run_M; done. Qed.

Lemma warm_start_tolerance (t : Q) (pt : point) :
  ignores (retune t) (warm_start norm_diff pt).
Proof.
  intros w. unfold warm_start, assign_initial_point. run_M; done.
Qed.

Lemma solve_tolerance (t : Q) (pt : point) (g : Guess) (pb : Problem') :
  ignores (retune t)
    (solve convert gss_solve compute_minimum_eigenvalue interpret pt g pb).
Proof.
  intros w. unfold solve, resolve_solver, prepare. run_M; done.
Qed.

Lemma record_optimal_point_tolerance (t : Q) (pt : point) (res : Result') :
  ignores (retune t) (record_optimal_point pt res).
Proof. intros w. unfold record_optimal_point. run_M; done. Qed.

Lemma run_single_point_tolerance (t : Q) (pt : point) :
  ignores (retune t)
    (_run_single_point convert norm_diff gss_solve
       compute_minimum_eigenvalue interpret pt).
Proof.
  unfold _run_single_point.
  apply ignores_bind; [apply check_driver_tolerance|]. intros pb.
  destruct (molecule (driver pb)); [|apply ignores_throw].
  apply ignores_bind; [by apply ignores_modify|]. intros _.
  apply ignores_bind; [apply warm_start_tolerance|]. intros g.
  apply ignores_bind; [apply solve_tolerance|]. intros res.
  apply ignores_bind; [apply record_optimal_point_tolerance|]. intros _.
  apply ignores_ret.
Qed.

Lemma run_loop_tolerance (t : Q) (pts : list point) :
  ∀ d : pydict point Result',
    ignores (retune t)
      (run_loop convert norm_diff gss_solve compute_minimum_eigenvalue
         interpret pts d).
Proof.
  induction pts as [|pt pts IH]; intros d; cbn [run_loop].
  - apply ignores_ret.
  - apply ignores_bind; [apply run_single_point_tolerance|].
    intros res. apply IH.
Qed.

Lemma run_points_tolerance (t : Q) (pts : list point) :
  ignores (retune t)
    (_run_points convert norm_diff gss_solve compute_minimum_eigenvalue
       interpret pts).
Proof.
  intros w. rewrite !run_points_unfold.
  assert (sweep_start (retune t w) = retune t (sweep_start w)) as ->.
  { unfold sweep_start. cbn [self solver_store with_self set_tolerance
      _solver _initial_point].
    destruct (is_variational (solver_store w) (_solver (self w)));
      [|done].
    by destruct (_solver (self w)). }
  apply run_loop_tolerance.
Qed.

Lemma collect_energies_tolerance (t : Q) (rs : list Result') :
  ignores (retune t)
    (collect_energies rs).
Proof.
  induction rs as [|res rs IH]; cbn [collect_energies].
  - apply ignores_ret.
  - destruct (total_energies res) as [|e es]; [apply ignores_throw|].
    apply ignores_bind; [by apply ignores_modify|]. intros _. apply IH.
Qed.

Lemma bind_problem_tolerance (t : Q) (pb : Problem') :
  ignores (retune t) (bind_problem convert pb).
Proof.
  intros w. unfold bind_problem, check_driver, prepare, resolve_solver.
  run_M; done.
Qed.

Lemma aggregate_tolerance (t : Q) (raw : pydict point Result') :
  ignores (retune t)
    (aggregate raw).
Proof.
  unfold aggregate.
  do 3 (apply ignores_bind; [by apply ignores_modify|]; intros _).
  apply ignores_bind; [apply collect_energies_tolerance|]. intros _.
  intros w. done.
Qed.

(** X12. The tolerance the sampler is built with is kept and never read:
    [sample] on a sampler that differs in the tolerance only has the same
    outcome, makes the same invocations and ends in the same state, up to
    the tolerance. *)
Theorem sample_ignores_tolerance (t : Q) (pb : Problem')
    (pts : list point) (w : World') :
  let r := sample convert norm_diff gss_solve compute_minimum_eigenvalue
             interpret pb pts w in
  sample convert norm_diff gss_solve compute_minimum_eigenvalue
    interpret pb pts (retune t w)
  = (r.1, retune t r.2).
Proof.
  lazy zeta.
  apply (ignores_bind _ _ _ (bind_problem_tolerance t pb)). intros _.
  apply (ignores_bind _ _ _ (run_points_tolerance t pts)). intros raw.
  apply aggregate_tolerance.
Qed.

(** *** The history across calls *)

(** C6, as amended. When the solver that a [sample] call resolves at its
    start is variational, [_run_points] goes into the loop with an empty
    history whatever history [h] the sampler held, so that the call gives
    the same outcome, logs the same invocations, warm-start branches
    included, and ends in the same state as it would without [h]. A call
    that fails before its sweep gives the same outcome and makes the same
    invocations with and without [h]. While a sweep runs, a point leaves
    the history as it was or assigns the entry of that point. When the
    solver the sampler holds is not variational, [_run_points] goes into
    the loop without touching the history. *)
Theorem history_reset (pb : Problem') (pts : list point) (w : World') :
  (∀ w0,
     bind_problem convert pb w = (Return tt, w0) →
     is_variational (solver_store w0) (_solver (self w0)) = true →
     ∀ h,
       _run_points convert norm_diff gss_solve compute_minimum_eigenvalue
         interpret pts (with_self (set_points_optparams h) w0)
       = run_loop convert norm_diff gss_solve compute_minimum_eigenvalue
           interpret pts [] (sweep_start w0)
       ∧ _points_optparams (self (sweep_start w0)) = Some []
       ∧ sample convert norm_diff gss_solve compute_minimum_eigenvalue
           interpret pb pts (with_self (set_points_optparams h) w)
         = sample convert norm_diff gss_solve compute_minimum_eigenvalue
             interpret pb pts w)
  ∧ (∀ e w0 h,
       bind_problem convert pb w = (Raise e, w0) →
       let r := sample convert norm_diff gss_solve
                  compute_minimum_eigenvalue interpret pb pts w in
       let r_h := sample convert norm_diff gss_solve
                    compute_minimum_eigenvalue interpret pb pts
                    (with_self (set_points_optparams h) w) in
       r_h.1 = r.1 ∧ calls r_h.2 = calls r.2)
  ∧ (∀ pt,
       let r := _run_single_point convert norm_diff gss_solve
                  compute_minimum_eigenvalue interpret pt w in
       _points_optparams (self r.2) = _points_optparams (self w)
       ∨ ∃ h v, _points_optparams (self w) = Some h
                ∧ _points_optparams (self r.2) = Some (dict_setitem pt v h))
  ∧ (is_variational (solver_store w) (_solver (self w)) = false →
     _run_points convert norm_diff gss_solve compute_minimum_eigenvalue
       interpret pts w
     = run_loop convert norm_diff gss_solve compute_minimum_eigenvalue
         interpret pts [] w).
Proof.
  split_and!.
  - intros w0 Hb Hv h.
    assert (_run_points convert norm_diff gss_solve
              compute_minimum_eigenvalue interpret pts
              (with_self (set_points_optparams h) w0)
            = run_loop convert norm_diff gss_solve
                compute_minimum_eigenvalue interpret pts []
                (sweep_start w0)) as Hrun.
    { by rewrite (run_points_reset h pts w0 Hv), run_points_unfold. }
    split_and!; [done| |].
    + unfold sweep_start. rewrite Hv.
      by destruct (is_variational_Some _ _ Hv) as (l & o & -> & _).
    + unfold sample.
      rewrite !bind_eq, bind_problem_history, Hb. cbn [fst snd].
      by rewrite !bind_eq, (run_points_reset h pts w0 Hv).
  - intros e w0 h Hb. lazy zeta. unfold sample.
    rewrite !bind_eq, bind_problem_history, Hb. done.
  - intros pt.
    destruct (run_single_point_spec pt w) as (_ & _ & _ & _ & [?|[_ ?]] & _);
      [by left|by right].
  - intros Hv. unfold _run_points. rewrite bind_eq. unfold get_state at 1.
    by rewrite Hv.
Qed.

(** *** Solvers that are not variational *)

Lemma only_initial_point_of_variational (x y : option loc)
    (st st' : gmap loc SolverObj') :
  only_initial_point_of x st st' →
  is_variational st' y = is_variational st y.
Proof.
  intros Ho. unfold is_variational, deref. destruct y as [l|]; [|done].
  destruct (Ho l) as [Hv _].
  destruct (st' !! l), (st !! l); by simplify_eq/=.
Qed.

(** The kind of the solver the sampler holds after a point: the kind it
    had, or the kind of the instance that made the invocation. *)
Lemma run_single_point_solver_kind (pt : point) (w : World') :
  let r := _run_single_point convert norm_diff gss_solve
             compute_minimum_eigenvalue interpret pt w in
  is_variational (solver_store r.2) (_solver (self r.2))
  = is_variational (solver_store w) (_solver (self w))
  ∨ ∃ c, calls r.2 = calls w ++ [c]
         ∧ is_variational (solver_store r.2) (_solver (self r.2))
           = from_option variational false (call_solver_obj c).
Proof.
  lazy zeta. destruct (_gss (self w)) as [l|f] eqn:Hg.
  { left. destruct (run_single_point_frame pt w) as (_ & _ & _ & _ & Hpre).
    destruct (Hpre l Hg) as [-> Ho].
    by eapply only_initial_point_of_variational. }
  destruct (run_single_point_cases pt w) as [[e ->] | (pb & Hpb & ->)];
    cbn [fst snd]; [by left|].
  set (w1 := with_self (set_problem (Some (perturb pt pb))) w).
  rewrite bind_eq.
  pose proof (warm_start_variational pt w1 (_solver (self w1))) as Hvar.
  destruct (warm_start_frame pt w1) as (Hs & _ & Hc & _).
  change (calls w1) with (calls w) in Hc.
  change (is_variational (solver_store w1) (_solver (self w1)))
    with (is_variational (solver_store w) (_solver (self w))) in Hvar.
  destruct (warm_start norm_diff pt w1) as [[g|e] w2]; cbn [fst snd] in *.
  2: { left. by rewrite Hs. }
  change (_solver (self w1)) with (_solver (self w)) in Hvar.
  rewrite bind_eq, (solve_factory _ _ _ _ f); [|by rewrite Hs].
  destruct ((prepare_problem convert (perturb pt pb)
               (_qubit_converter (self w2)) (second_q_ops (perturb pt pb))).1)
    as [main|e]; cbn [fst snd].
  2: { left. by rewrite Hs. }
  destruct (_qubit_converter (self w2)) as [qc|]; cbn [fst snd].
  2: { left. by rewrite Hs. }
  lazy zeta.
  set (st' := (f (perturb pt pb) qc (solver_store w2)).1).
  set (l' := (f (perturb pt pb) qc (solver_store w2)).2).
  right.
  destruct (compute_minimum_eigenvalue _ _ _) as [raw|e]; cbn [fst snd].
  2: { eexists. proj. split; [by rewrite Hc|]. proj.
       unfold is_variational, deref. by destruct (st' !! l'). }
  rewrite bind_eq, record_optimal_point_spec. proj.
  repeat (destruct_match; unfold ret; proj).
  all: eexists; split; [by rewrite Hc|]; proj.
  all: unfold is_variational, deref; by destruct (st' !! l').
Qed.

(** A point evaluated while the sampler holds a solver that is not
    variational: no lookup; and when the instance that solved is not
    variational either, the history is left as it was. *)
Lemma run_single_point_not_variational (pt : point) (w : World') :
  is_variational (solver_store w) (_solver (self w)) = false →
  let r := _run_single_point convert norm_diff gss_solve
             compute_minimum_eigenvalue interpret pt w in
  ∃ cs, calls r.2 = calls w ++ cs
        ∧ Forall (λ c, call_guess c = NoLookup) cs
        ∧ (Forall (λ c, variational <$> call_solver_obj c ≠ Some true) cs →
           is_variational (solver_store r.2) (_solver (self r.2)) = false
           ∧ _points_optparams (self r.2) = _points_optparams (self w)).
Proof.
  intros Hv. lazy zeta.
  destruct (run_single_point_spec pt w) as (_ & Hcalls & _ & _ & Hhist & _).
  destruct (run_single_point_solver_kind pt w) as [Hk|(c' & Hc' & Hk)].
  - assert (is_variational
              (solver_store (_run_single_point convert norm_diff gss_solve
                 compute_minimum_eigenvalue interpret pt w).2)
              (_solver (self (_run_single_point convert norm_diff gss_solve
                 compute_minimum_eigenvalue interpret pt w).2)) = false)
      as Hv' by congruence.
    assert (_points_optparams
              (self (_run_single_point convert norm_diff gss_solve
                 compute_minimum_eigenvalue interpret pt w).2)
            = _points_optparams (self w)) as Hh.
    { destruct Hhist as [?|[? _]]; [done|congruence]. }
    destruct Hcalls as [Hcalls|(c & Hcalls & _ & Hg & _)].
    + exists []. rewrite app_nil_r. by split_and!.
    + exists [c]. split_and!; [done| |done].
      repeat constructor. apply Hg. by rewrite Hv.
  - destruct Hcalls as [Hcalls|(c & Hcalls & _ & Hg & _)].
    { rewrite Hcalls in Hc'. exfalso.
      apply (f_equal length) in Hc'. rewrite length_app in Hc'. cbn in Hc'.
      lia. }
    rewrite Hcalls in Hc'. apply app_inv_head in Hc'. injection Hc' as <-.
    exists [c]. split_and!; [done| |].
    + repeat constructor. apply Hg. by rewrite Hv.
    + intros [Hc _]%Forall_cons.
      assert (is_variational
                (solver_store (_run_single_point convert norm_diff gss_solve
                   compute_minimum_eigenvalue interpret pt w).2)
                (_solver (self (_run_single_point convert norm_diff
                   gss_solve compute_minimum_eigenvalue interpret pt w).2))
              = false) as Hv'.
      { rewrite Hk. destruct (call_solver_obj c) as [o|]; [|done].
        cbn in *. destruct (variational o); [|done]. by destruct Hc. }
      split; [done|].
      destruct Hhist as [?|[? _]]; [done|congruence].
Qed.

Lemma run_loop_not_variational (pts : list point) :
  ∀ (d : pydict point Result') (w : World') (cs : list Call),
    is_variational (solver_store w) (_solver (self w)) = false →
    let r := run_loop convert norm_diff gss_solve
               compute_minimum_eigenvalue interpret pts d w in
    calls r.2 = calls w ++ cs →
    Forall (λ c, variational <$> call_solver_obj c ≠ Some true) cs →
    Forall (λ c, call_guess c = NoLookup) cs
    ∧ _points_optparams (self r.2) = _points_optparams (self w).
Proof.
  induction pts as [|pt pts IH]; intros d w cs Hv; cbn [run_loop];
    lazy zeta.
  { unfold ret. cbn. intros Hcs _.
    assert (cs = []) as ->; [|done].
    apply (app_inv_head (calls w)). by rewrite app_nil_r. }
  rewrite bind_eq.
  destruct (run_single_point_not_variational pt w Hv)
    as (cs1 & Hcs1 & Hno1 & Hkeep).
  destruct (_run_single_point _ _ _ _ _ pt w) as [[res|e] w1];
    cbn [fst snd] in *.
  2: { intros Hcs Hnv. rewrite Hcs1 in Hcs. apply app_inv_head in Hcs as ->.
       split; [done|]. by apply Hkeep. }
  destruct (run_loop_calls pts (dict_setitem pt res d) w1)
    as (cs2 & Hcs2 & _).
  intros Hcs Hnv.
  rewrite Hcs2, Hcs1, <- app_assoc in Hcs. apply app_inv_head in Hcs as <-.
  apply Forall_app in Hnv as [Hnv1 Hnv2].
  destruct (Hkeep Hnv1) as [Hv1 Hh1].
  destruct (IH (dict_setitem pt res d) w1 cs2 Hv1 Hcs2 Hnv2) as [Hno2 Hh2].
  split; [by apply Forall_app|congruence].
Qed.

(** C8, as amended. In a call of [sample] where no solver resolved is
    variational, whatever the bootstrap flag and whatever the outcome, no
    invocation is preceded by a warm-start lookup and the history is never
    written: it is what it was before the call, so an empty history stays
    empty, and the entries of an earlier call stay too. This holds when
    the kind is a property of the sampler (a [GroundStateSolver] around
    such a solver, a factory that hands out no other kind), and it holds
    of every single call in which the solver resolved at the start and
    the instances that solved the points are not variational. *)
Theorem non_variational_bypass (pb : Problem') (pts : list point)
    (w : World') :
  let r := sample convert norm_diff gss_solve compute_minimum_eigenvalue
             interpret pb pts w in
  let cs := new_calls w r.2 in
  let bypassed :=
    Forall (λ c, call_guess c = NoLookup) cs
    ∧ _points_optparams (self r.2) = _points_optparams (self w)
    ∧ (history_entries (self w) = [] → history_entries (self r.2) = []) in
  (resolved_kind false w → bypassed)
  ∧ ((∀ w0, bind_problem convert pb w = (Return tt, w0) →
            is_variational (solver_store w0) (_solver (self w0)) = false) →
     Forall (λ c, variational <$> call_solver_obj c ≠ Some true) cs →
     bypassed).
Proof.
  lazy zeta. split.
  { intros Hr.
    destruct (sample_spec pb pts w) as (cs & Hcs & _ & Hf & _).
    destruct (Hf Hr) as [Hall Hh].
    unfold new_calls, history_entries. rewrite Hcs, drop_app_length, Hh.
    by split_and!. }
  intros Hstart.
  assert (∀ cs, calls (sample convert norm_diff gss_solve
                         compute_minimum_eigenvalue interpret pb pts w).2
                = calls w ++ cs →
                Forall (λ c, variational <$> call_solver_obj c ≠ Some true)
                  cs →
                Forall (λ c, call_guess c = NoLookup) cs
                ∧ _points_optparams
                    (self (sample convert norm_diff gss_solve
                             compute_minimum_eigenvalue interpret pb pts w).2)
                  = _points_optparams (self w)) as Hgen.
  { unfold sample. rewrite bind_eq.
    destruct (bind_problem_spec pb w) as (Hc0 & Hh0 & _).
    destruct (bind_problem convert pb w) as [[[]|e] w0]; cbn [fst snd] in *.
    2: { intros cs Hcs _. rewrite Hc0 in Hcs.
         assert (cs = []) as ->; [|done].
         apply (app_inv_head (calls w)). by rewrite app_nil_r. }
    specialize (Hstart w0 eq_refl).
    rewrite bind_eq, run_points_unfold.
    assert (sweep_start w0 = w0) as -> by (unfold sweep_start; by rewrite Hstart).
    intros cs Hcs Hnv.
    destruct (run_loop_not_variational pts [] w0 cs Hstart) as [Hno Hh];
      [|done|].
    { destruct (run_loop _ _ _ _ _ pts [] w0) as [[raw|e] w2];
        cbn [fst snd] in *; [|congruence].
      destruct (aggregate_spec raw w2) as (Hc3 & _). congruence. }
    split; [done|].
    destruct (run_loop _ _ _ _ _ pts [] w0) as [[raw|e] w2];
      cbn [fst snd] in *; [|congruence].
    destruct (aggregate_spec raw w2) as (_ & Hh3 & _). congruence. }
  destruct (sample_spec pb pts w) as (cs & Hcs & _).
  unfold new_calls, history_entries. rewrite Hcs, drop_app_length.
  intros Hnv. destruct (Hgen cs Hcs Hnv) as [Hno Hh].
  rewrite Hh. by split_and!.
Qed.

(** *** The two warm-start modes *)

Lemma dict_setitem_fresh (k : point) (v : params) (d : pydict point params) :
  k ∉ dict_keys d → dict_setitem k v d = d ++ [(k, v)].
Proof.
  unfold dict_keys. induction d as [|[k' v'] d IH]; [done|].
  cbn [dict_setitem fmap list_fmap fst]. intros Hk.
  apply not_elem_of_cons in Hk as [Hne Hk].
  rewrite decide_False by done. cbn. by rewrite IH.
Qed.

(** The decision of lines 256-276 and what it writes, for a history that
    is not empty. *)
Lemma warm_start_decision (pt : point) (w : World')
    (h : pydict point params) (l : loc) :
  is_variational (solver_store w) (_solver (self w)) = true →
  _bootstrap (self w) = true →
  _points_optparams (self w) = Some h →
  h ≠ [] →
  _solver (self w) = Some l →
  let n := Z.of_nat (length h) in
  let r := warm_start norm_diff pt w in
  let i := argmin (map (norm_diff pt) (dict_keys h)) in
  let nearest :=
    ∃ v, dict_values h !! i = Some v
         ∧ r = (Return (NearestNeighbour i v),
                with_solver_store (alter (set_initial_point (Some v)) l) w)
         ∧ solver_store r.2 !! l ≫= initial_point = Some v in
  let extrapolated (e : ExtrapolatorObj') :=
    let v := dict_get pt (extrapolate e (window e) [pt] h) in
    r = (Return (Extrapolated v),
         with_solver_store (alter (set_initial_point v) l) w)
    ∧ solver_store r.2 !! l ≫= initial_point = v in
  (_extrapolator (self w) = None → nearest)
  ∧ (∀ ext e k,
       _extrapolator (self w) = Some ext →
       extrapolator_store w !! ext = Some e →
       _num_bootstrap (self w) = Some k →
       ((n ≤ k)%Z → nearest) ∧ ((k < n)%Z → extrapolated e)).
Proof.
  intros Hv Hb Hh Hne Hl. lazy zeta.
  destruct (is_variational_Some _ _ Hv) as (l' & o & Hl' & Ho & _).
  assert (l' = l) as -> by congruence.
  assert (∀ v : option params,
            alter (set_initial_point v) l (solver_store w) !! l
              ≫= initial_point = v) as Hwritten.
  { intros v. by rewrite lookup_alter_eq, Ho. }
  split.
  - intros Hext.
    destruct (warm_start_nearest pt w h l Hv Hb Hh Hne Hl) as (v & Hi & Hws).
    { by rewrite Hext. }
    exists v. rewrite Hws. split_and!; [done|done|apply Hwritten].
  - intros ext e k Hext He Hk. split.
    + intros Hle.
      destruct (warm_start_nearest pt w h l Hv Hb Hh Hne Hl)
        as (v & Hi & Hws).
      { rewrite Hext. eauto. }
      exists v. rewrite Hws. split_and!; [done|done|apply Hwritten].
    + intros Hlt.
      rewrite (warm_start_extrapolate pt w h l ext e k) by done.
      split; [done|apply Hwritten].
Qed.

(** Around a [GroundStateSolver], a point is given up before the solve,
    or solved by the wrapped instance as the warm start left it, the
    invocation carrying the choice of the warm start. *)
Lemma run_single_point_guess (pt : point) (w : World') (l : loc) :
  _gss (self w) = GroundStateSolver l →
  let r := _run_single_point convert norm_diff gss_solve
             compute_minimum_eigenvalue interpret pt w in
  (calls r.2 = calls w ∧ ∃ e, r.1 = Raise e)
  ∨ ∃ c, calls r.2 = calls w ++ [c]
         ∧ call_point c = pt
         ∧ (warm_start norm_diff pt w).1 = Return (call_guess c)
         ∧ call_solver_obj c
           = solver_store (warm_start norm_diff pt w).2 !! l
         ∧ (∀ res, r.1 = Return res → call_result c = Return res).
Proof.
  intros Hg. lazy zeta.
  destruct (run_single_point_cases pt w) as [[e ->] | (pb & Hpb & ->)];
    cbn [fst snd]; [left; eauto|].
  rewrite bind_eq, warm_start_set_problem.
  destruct (warm_start_frame pt w) as (Hs & _ & Hc & _).
  destruct (warm_start norm_diff pt w) as [[g|e] w2]; cbn [fst snd] in *;
    [|left; eauto].
  rewrite bind_eq, (solve_prebound _ _ _ _ l); [|proj; by rewrite Hs].
  proj. right.
  destruct (gss_solve _ _ _) as [res|e] eqn:Hres; proj.
  2: { eexists. split_and!; [by rewrite Hc|done..]. }
  rewrite bind_eq, record_optimal_point_spec. proj.
  repeat (destruct_match; unfold ret; proj).
  all: eexists; split_and!; [by rewrite Hc|done|done|done|]; proj.
  all: by intros ? [= <-].
Qed.

(** Over points that are new to the history, every invocation of the loop
    follows a warm start that read the history of the loop's start and
    the optimal points of the invocations before, in that order. *)
Lemma run_loop_guesses (l : loc) (pts : list point) :
  ∀ (d : pydict point Result') (w : World') (h0 : pydict point params),
    _gss (self w) = GroundStateSolver l →
    is_variational (solver_store w) (_solver (self w)) = true →
    _points_optparams (self w) = Some h0 →
    NoDup (dict_keys h0 ++ pts) →
    let r := run_loop convert norm_diff gss_solve
               compute_minimum_eigenvalue interpret pts d w in
    ∃ cs, calls r.2 = calls w ++ cs
          ∧ ∀ j c, cs !! j = Some c →
              ∃ p w1,
                pts !! j = Some p ∧ call_point c = p
                ∧ framed w w1
                ∧ _points_optparams (self w1)
                  = Some (h0 ++ optimal_points (evaluations (take j cs)))
                ∧ dict_keys (h0 ++ optimal_points (evaluations (take j cs)))
                  = dict_keys h0 ++ take j pts
                ∧ (warm_start norm_diff p w1).1 = Return (call_guess c)
                ∧ call_solver_obj c
                  = solver_store (warm_start norm_diff p w1).2 !! l.
Proof.
  induction pts as [|pt pts IH]; intros d w h0 Hg Hv Hh Hnd;
    cbn [run_loop]; lazy zeta.
  { exists []. rewrite app_nil_r. split; [done|]. by intros j c. }
  rewrite bind_eq.
  destruct (run_single_point_guess pt w l Hg)
    as [[Hc [e He]]|(c & Hc & Hpt & Hws & Hobj & Hret)].
  { destruct (_run_single_point _ _ _ _ _ pt w) as [[res|e'] w1];
      cbn [fst snd] in *; [done|].
    exists []. rewrite app_nil_r. split; [done|]. by intros j c. }
  assert (∃ p w1,
            (pt :: pts) !! 0 = Some p ∧ call_point c = p
            ∧ framed w w1
            ∧ _points_optparams (self w1) = Some (h0 ++ [])
            ∧ dict_keys (h0 ++ []) = dict_keys h0 ++ []
            ∧ (warm_start norm_diff p w1).1 = Return (call_guess c)
            ∧ call_solver_obj c
              = solver_store (warm_start norm_diff p w1).2 !! l) as Hfirst.
  { exists pt, w. rewrite !app_nil_r.
    split_and!; [done|done|apply framed_refl|done..]. }
  destruct (run_single_point_frame pt w) as (Hcfg & Hest & _ & _ & Hpre).
  destruct (run_single_point_spec pt w) as (_ & _ & _ & _ & _ & Hrec).
  destruct (_run_single_point _ _ _ _ _ pt w) as [[res|e'] w1];
    cbn [fst snd] in *.
  2: { exists [c]. split; [done|]. intros [|j] c'; [|done].
       intros [= <-]. exact Hfirst. }
  assert (framed w w1) as Hfr by (by split_and!).
  destruct (Hpre l Hg) as [Hsol Honly].
  assert (is_variational (solver_store w1) (_solver (self w1)) = true)
    as Hv1.
  { rewrite Hsol, (only_initial_point_of_variational _ _ _ _ Honly). done. }
  destruct (Hrec res eq_refl Hv1) as (h & Hh' & Hh1).
  rewrite Hh in Hh'. injection Hh' as <-.
  assert (pt ∉ dict_keys h0) as Hfresh.
  { apply NoDup_app in Hnd as (_ & Hdisj & _). intros Hin.
    apply (Hdisj pt Hin). left. }
  rewrite (dict_setitem_fresh _ _ _ Hfresh) in Hh1.
  destruct (IH (dict_setitem pt res d) w1
              (h0 ++ [(pt, optimal_point (raw_result res))]))
    as (cs & Hcs & Hall).
  { unfold config in Hcfg. simplify_eq. congruence. }
  { done. }
  { done. }
  { unfold dict_keys in *. rewrite fmap_app, <- app_assoc. done. }
  exists (c :: cs). split.
  { rewrite Hcs, Hc, <- app_assoc. done. }
  intros [|j] c'.
  { intros [= <-]. exact Hfirst. }
  intros Hj. destruct (Hall j c' Hj)
    as (p & w2 & Hp & Hcp & Hfr2 & Hh2 & Hk2 & Hws2 & Hobj2).
  exists p, w2.
  assert (h0 ++ optimal_points (evaluations (take (S j) (c :: cs)))
          = (h0 ++ [(pt, optimal_point (raw_result res))])
              ++ optimal_points (evaluations (take j cs))) as ->.
  { change (take (S j) (c :: cs)) with (c :: take j cs).
    unfold evaluations, optimal_points. cbn [omap list_omap].
    rewrite (Hret res eq_refl), Hpt. cbn [fmap list_fmap].
    rewrite <- app_assoc. done. }
  split_and!; [done|done|by eapply framed_trans|done| |done|done].
  rewrite Hk2. unfold dict_keys. rewrite fmap_app, <- app_assoc. done.
Qed.

(** C4. With a variational solver, bootstrap on and a history of [n > 0]
    entries, the warm start makes its choice, returns it and writes it to
    the [initial_point] of the solver the sampler holds: without an
    extrapolator the choice is always the nearest neighbour; with an
    extrapolator and window [k] it is the nearest neighbour when
    [n <= k], and when [n > k] it is what the extrapolator answers for the
    single point, given the whole history. In a sweep over distinct
    points around a variational [GroundStateSolver], the invocation for
    the point at position [j] follows a decision on the history of the
    [j] points before it and starts from what that decision wrote: no
    lookup at the first point, then the nearest neighbour while [j <= k]
    (always, without an extrapolator), the extrapolator when [j > k]. So
    with [k = 2] the third point takes the nearest neighbour and the
    fourth the extrapolation. *)
Theorem warm_start_regime :
  (∀ (pt : point) (w : World') (h : pydict point params) (l : loc),
     is_variational (solver_store w) (_solver (self w)) = true →
     _bootstrap (self w) = true →
     _points_optparams (self w) = Some h →
     h ≠ [] →
     _solver (self w) = Some l →
     let n := Z.of_nat (length h) in
     let r := warm_start norm_diff pt w in
     let i := argmin (map (norm_diff pt) (dict_keys h)) in
     let nearest :=
       ∃ v, dict_values h !! i = Some v
            ∧ r = (Return (NearestNeighbour i v),
                   with_solver_store
                     (alter (set_initial_point (Some v)) l) w)
            ∧ solver_store r.2 !! l ≫= initial_point = Some v in
     let extrapolated (e : ExtrapolatorObj') :=
       let v := dict_get pt (extrapolate e (window e) [pt] h) in
       r = (Return (Extrapolated v),
            with_solver_store (alter (set_initial_point v) l) w)
       ∧ solver_store r.2 !! l ≫= initial_point = v in
     (_extrapolator (self w) = None → nearest)
     ∧ (∀ ext e k,
          _extrapolator (self w) = Some ext →
          extrapolator_store w !! ext = Some e →
          _num_bootstrap (self w) = Some k →
          ((n ≤ k)%Z → nearest)
          ∧ ((k < n)%Z → extrapolated e)
          ∧ (k = 2%Z → length h = 2 → nearest)
          ∧ (k = 2%Z → length h = 3 → extrapolated e)))
  ∧ (∀ (pb : Problem') (pts : list point) (w : World') (l : loc),
       prebound l w →
       is_variational (solver_store w) (Some l) = true →
       _bootstrap (self w) = true →
       NoDup pts →
       let r := sample convert norm_diff gss_solve
                  compute_minimum_eigenvalue interpret pb pts w in
       let cs := new_calls w r.2 in
       ∀ j c, cs !! j = Some c →
         ∃ p, pts !! j = Some p ∧ call_point c = p
           ∧ let h := optimal_points (evaluations (take j cs)) in
             let i := argmin (map (norm_diff p) (take j pts)) in
             let start := call_solver_obj c ≫= initial_point in
             let nearest :=
               ∃ v, dict_values h !! i = Some v
                    ∧ call_guess c = NearestNeighbour i v
                    ∧ start = Some v in
             let extrapolated (e : ExtrapolatorObj') :=
               let v := dict_get p (extrapolate e (window e) [p] h) in
               call_guess c = Extrapolated v ∧ start = v in
             dict_keys h = take j pts
             ∧ (j = 0 → call_guess c = EmptyHistory)
             ∧ (0 < j → _extrapolator (self w) = None → nearest)
             ∧ (∀ ext e k,
                  _extrapolator (self w) = Some ext →
                  extrapolator_store w !! ext = Some e →
                  _num_bootstrap (self w) = Some k →
                  0 < j →
                  ((Z.of_nat j ≤ k)%Z → nearest)
                  ∧ ((k < Z.of_nat j)%Z → extrapolated e)
                  ∧ (k = 2%Z → j = 2 → nearest)
                  ∧ (k = 2%Z → j = 3 → extrapolated e))).
Proof.
  split.
  - intros pt w h l Hv Hb Hh Hne Hl. lazy zeta.
    destruct (warm_start_decision pt w h l Hv Hb Hh Hne Hl) as [Hnone Hsome].
    split; [exact Hnone|].
    intros ext e k Hext He Hk.
    destruct (Hsome ext e k Hext He Hk) as [Hnn Hex].
    split_and!; [done|done| |].
    + intros -> Hlen. apply Hnn. lia.
    + intros -> Hlen. apply Hex. lia.
  - intros pb pts w l [Hg Hl] Hv Hb Hnd. lazy zeta.
    destruct (is_variational_Some _ _ Hv) as (l' & o & [= <-] & Ho & Hvo).
    assert (new_calls w (sample convert norm_diff gss_solve
                           compute_minimum_eigenvalue interpret pb pts w).2
            = []
            ∨ ∃ w1 : World',
                new_calls w (sample convert norm_diff gss_solve
                               compute_minimum_eigenvalue interpret
                               pb pts w).2
                = drop (length (calls w))
                    (calls (run_loop convert norm_diff gss_solve
                              compute_minimum_eigenvalue interpret pts []
                              w1).2)
                ∧ framed w w1
                ∧ is_variational (solver_store w1) (_solver (self w1)) = true
                ∧ _points_optparams (self w1) = Some []
                ∧ calls w1 = calls w) as Hcase.
    { unfold sample, new_calls. rewrite bind_eq.
      destruct (bind_problem_state pb w) as (_ & _ & _ & _ & Hpre).
      destruct (Hpre l Hg) as [Hw0 _]. clear Hpre.
      destruct (bind_problem convert pb w) as [[[]|e] w0];
        cbn [fst snd] in *; subst w0.
      2: { left. proj. by rewrite drop_all. }
      rewrite bind_eq, run_points_unfold. right.
      exists (sweep_start (with_self (set_problem (Some pb)) w)).
      split.
      { destruct (run_loop _ _ _ _ _ pts [] _) as [[raw|e] w2];
          cbn [fst snd] in *; [|done].
        destruct (aggregate_spec raw w2) as (Hc3 & _). by rewrite Hc3. }
      unfold sweep_start. proj. rewrite Hl, Hv. proj.
      split_and!; [|by rewrite is_variational_alter, Hl|done|done].
      unfold framed, config. proj. split_and!; [done|done|].
      intros l0 _. split; [done|]. rewrite Hl.
      apply only_initial_point_of_alter. }
    intros j c Hj.
    destruct Hcase as [Hnil|(w1 & Hcalls & Hfr & Hv1 & Hh1 & Hc1)].
    { by rewrite Hnil in Hj. }
    assert (_gss (self w1) = GroundStateSolver l) as Hg1.
    { destruct Hfr as (Hcfg & _). unfold config in Hcfg. simplify_eq.
      congruence. }
    destruct (run_loop_guesses l pts [] w1 [] Hg1 Hv1 Hh1 Hnd)
      as (cs & Hcs & Hall).
    rewrite Hcs, Hc1, drop_app_length in Hcalls.
    rewrite Hcalls in Hj |- *.
    destruct (Hall j c Hj) as (p & w2 & Hp & Hcp & Hfr2 & Hh2 & Hk2
                               & Hws & Hobj).
    cbn [app] in Hh2, Hk2.
    change (dict_keys [] ++ take j pts) with (take j pts) in Hk2.
    set (h := optimal_points (evaluations (take j cs))) in *.
    pose proof (framed_trans _ _ _ Hfr Hfr2) as (Hcfg & Hest & Hpre).
    destruct (Hpre l Hg) as [Hsol Honly].
    unfold config in Hcfg.
    assert (is_variational (solver_store w2) (_solver (self w2)) = true)
      as Hv2.
    { rewrite Hsol, (only_initial_point_of_variational _ _ _ _ Honly).
      by rewrite Hl. }
    assert (_bootstrap (self w2) = true) as Hb2
      by (simplify_eq; congruence).
    assert (_solver (self w2) = Some l) as Hl2 by congruence.
    assert (_extrapolator (self w2) = _extrapolator (self w)) as Hext2
      by (simplify_eq; congruence).
    assert (_num_bootstrap (self w2) = _num_bootstrap (self w)) as Hnb2
      by (simplify_eq; congruence).
    assert (length h = j) as Hlen.
    { apply (f_equal length) in Hk2. unfold dict_keys in Hk2.
      rewrite length_fmap, length_take in Hk2.
      apply lookup_lt_Some in Hp. lia. }
    assert (0 < j →
            let i := argmin (map (norm_diff p) (take j pts)) in
            (_extrapolator (self w) = None →
             ∃ v, dict_values h !! i = Some v
                  ∧ call_guess c = NearestNeighbour i v
                  ∧ call_solver_obj c ≫= initial_point = Some v)
            ∧ ∀ ext e k,
                _extrapolator (self w) = Some ext →
                extrapolator_store w !! ext = Some e →
                _num_bootstrap (self w) = Some k →
                ((Z.of_nat j ≤ k)%Z →
                 ∃ v, dict_values h !! i = Some v
                      ∧ call_guess c = NearestNeighbour i v
                      ∧ call_solver_obj c ≫= initial_point = Some v)
                ∧ ((k < Z.of_nat j)%Z →
                   call_guess c
                   = Extrapolated
                       (dict_get p (extrapolate e (window e) [p] h))
                   ∧ call_solver_obj c ≫= initial_point
                     = dict_get p (extrapolate e (window e) [p] h)))
      as Hdec.
    { intros Hpos. lazy zeta.
      assert (h ≠ []) as Hne.
      { intros Hnil. rewrite Hnil in Hlen. cbn in Hlen. lia. }
      destruct (warm_start_decision p w2 h l Hv2 Hb2 Hh2 Hne Hl2)
        as [Hnone Hsome].
      rewrite Hk2 in Hnone. rewrite Hk2, Hlen in Hsome.
      assert ((∃ v, dict_values h
                      !! argmin (map (norm_diff p) (take j pts)) = Some v
                    ∧ warm_start norm_diff p w2
                      = (Return (NearestNeighbour
                           (argmin (map (norm_diff p) (take j pts))) v),
                         with_solver_store
                           (alter (set_initial_point (Some v)) l) w2)
                    ∧ solver_store (warm_start norm_diff p w2).2 !! l
                        ≫= initial_point = Some v) →
              ∃ v, dict_values h
                     !! argmin (map (norm_diff p) (take j pts)) = Some v
                   ∧ call_guess c
                     = NearestNeighbour
                         (argmin (map (norm_diff p) (take j pts))) v
                   ∧ call_solver_obj c ≫= initial_point = Some v) as Hnn.
      { intros (v & Hi & Hr & Hst). exists v.
        rewrite Hr in Hws. cbn in Hws. injection Hws as <-.
        split_and!; [done|done|]. by rewrite Hobj. }
      split.
      - intros Hext. apply Hnn, Hnone. congruence.
      - intros ext e k Hext He Hk.
        destruct (Hsome ext e k) as [Hle Hgt]; [congruence..|].
        split.
        + intros Hjk. by apply Hnn, Hle.
        + intros Hjk. destruct (Hgt Hjk) as [Hr Hst].
          rewrite Hr in Hws. cbn in Hws. injection Hws as <-.
          split; [done|]. by rewrite Hobj. }
    exists p. split_and!; [done|done|exact Hk2| | |].
    + intros ->.
      assert (h = []) as Hnil by (by destruct h).
      rewrite Hnil in Hh2.
      rewrite warm_start_empty in Hws by done. by injection Hws.
    + intros Hpos Hext. by apply (Hdec Hpos).
    + intros ext e k Hext He Hk Hpos.
      destruct (Hdec Hpos) as [_ Hsome].
      destruct (Hsome ext e k Hext He Hk) as [Hle Hgt].
      split_and!; [done|done| |].
      * intros -> ->. apply Hle. lia.
      * intros -> ->. apply Hgt. lia.
Qed.

End properties.

(** ** Worked instances

    The statements above at the concrete instance, and the inputs on which
    the sampler departs from what a reader could expect. *)

Import Example.

(** Construction yields the samplers of the instance. *)
Lemma construct_vqe_sampler :
  construct (GroundStateSolver 1) true None None None
  = (Return vqe_sampler, extrapolators).
Proof. reflexivity. Qed.

Lemma construct_exact_sampler :
  construct (GroundStateSolver 2) true None None None
  = (Return exact_sampler, extrapolators).
Proof. reflexivity. Qed.

Lemma construct_factory_sampler f :
  construct (MinimumEigensolverFactory f) true None None (Some tt)
  = (Return (factory_sampler f), extrapolators).
Proof. reflexivity. Qed.

Lemma construct_window_sampler :
  (construct (GroundStateSolver 1) true (Some 2%Z) (Some 1) None).1
  = Return window_sampler.
Proof. reflexivity. Qed.

(** *** The problem adapter *)

(** C9 as stated fails here. A mapping without the main entry:
    [prepare_problem] raises, but what it raises is a [ValueError], which is not a [QiskitNatureError]. *)
Lemma prepare_problem_raises_ValueError :
  dict_get (main_property_name no_main) [("ParticleNumber", Some "N")] = None
  ∧ ¬ raises (prepare_problem convert no_main (Some tt)
                (second_q_ops no_main)).1 is_QiskitNatureError.
Proof. split; [reflexivity|]. cbn. discriminate. Qed.

Lemma prepare_problem_mapping_witness :
  dict_get (main_property_name no_main) [("ParticleNumber", Some "N")] = None
  ∧ raises (prepare_problem convert no_main (Some tt)
              (OpsDict [("ParticleNumber", Some "N")])).1 is_ValueError.
Proof.
  split; [reflexivity|].
  destruct (prepare_problem_mapping convert no_main (Some tt)
              [("ParticleNumber", Some "N")]) as (_ & _ & _ & Hraise & _).
  apply Hraise. left. reflexivity.
Defined.

(** *** Construction *)

(** C1, at the inputs where the code fails it. The docstring of the
    constructor (lines 94-97) and the message of line 131 announce a
    [QiskitNatureError] for a window below 2 and for a window of 2 or more
    without a [WindowExtrapolator]; the check sits under
    [if self._extrapolator:], so without an extrapolator the windows 1 and
    3 are both accepted: construction returns a sampler that keeps them,
    and raises nothing. *)
Lemma init_accepts_any_window_without_extrapolator :
  (∃ s, construct (GroundStateSolver 1) true (Some 1%Z) None None
        = (Return s, extrapolators)
        ∧ _num_bootstrap s = Some 1%Z ∧ _extrapolator s = None)
  ∧ (∃ s, construct (GroundStateSolver 1) true (Some 3%Z) None None
          = (Return s, extrapolators)
          ∧ _num_bootstrap s = Some 3%Z ∧ _extrapolator s = None)
  ∧ ¬ raises (construct (GroundStateSolver 1) true (Some 1%Z) None None).1
        is_QiskitNatureError
  ∧ ¬ raises (construct (GroundStateSolver 1) true (Some 3%Z) None None).1
        is_QiskitNatureError.
Proof.
  split_and!; [by eexists|by eexists|cbn; tauto|cbn; tauto].
Qed.

Lemma init_window_check_witness :
  raises (construct (GroundStateSolver 1) true (Some 1%Z) (Some 1) None).1
    is_QiskitNatureError
  ∧ raises (construct (GroundStateSolver 1) true (Some 3%Z) (Some 2) None).1
      is_QiskitNatureError
  ∧ ∃ s, construct (GroundStateSolver 1) true (Some 3%Z) None None
         = (Return s, extrapolators).
Proof.
  split_and!.
  - destruct (init_window_check (energy := Q) (op := string)
                (converter := unit) (particles := nat) (locator := unit)
                solvers (GroundStateSolver 1) 0.001%Q true 1 (Some 1)
                None extrapolators) as (Hlow & _ & _).
    apply (Hlow 1); [reflexivity|lia].
  - destruct (init_window_check (energy := Q) (op := string)
                (converter := unit) (particles := nat) (locator := unit)
                solvers (GroundStateSolver 1) 0.001%Q true 3 (Some 2)
                None extrapolators) as (_ & Hplain & _).
    apply (Hplain 2); [reflexivity|lia|reflexivity].
  - destruct (init_window_check (energy := Q) (op := string)
                (converter := unit) (particles := nat) (locator := unit)
                solvers (GroundStateSolver 1) 0.001%Q true 3 None
                None extrapolators) as (_ & _ & Hnone).
    destruct (Hnone eq_refl) as (s & Hs & _). by exists s.
Defined.

Lemma init_sets_window_witness :
  ∃ s est',
    construct (GroundStateSolver 1) true (Some 3%Z) (Some 1) None
    = (Return s, est')
    ∧ _num_bootstrap s = Some 3%Z
    ∧ window <$> est' !! 1 = Some 3%Z
    ∧ window <$> extrapolators !! 1 = Some 2%Z.
Proof.
  destruct (init_sets_window (energy := Q) (op := string)
              (converter := unit) (particles := nat) (locator := unit)
              solvers (GroundStateSolver 1) 0.001%Q true 1 None extrapolators)
    as (Hset & _).
  destruct (Hset 3%Z {| is_WindowExtrapolator := true; window := 2;
                        extrapolate := last_entry |})
    as (s & est' & Hc & Hn & _ & He & _); [reflexivity|reflexivity|lia|].
  exists s, est'. split_and!; [done|done| |reflexivity].
  exact (f_equal (fmap window) He).
Defined.

(** *** Warm start *)

(** History [{1.0: [10], 3.0: [30]}], no extrapolator: the guess for 1.4 is
    the entry of 1.0, and the wrapped solver starts the solve from it; the
    guess for 2.8 is the entry of 3.0. *)
Lemma nearest_neighbour_guess_witness :
  (∃ i k v c,
     two_points !! i = Some (k, v)
     ∧ (warm_start norm_diff 1.4%Q (sweeping two_points vqe_sampler)).1
       = Return (NearestNeighbour i v)
     ∧ k = 1.0%Q ∧ v = [10%Q]
     ∧ calls (run_point 1.4%Q (sweeping two_points vqe_sampler)).2 = [c]
     ∧ call_solver_obj c ≫= initial_point = Some [10%Q])
  ∧ (∃ i k v,
       two_points !! i = Some (k, v)
       ∧ (warm_start norm_diff 2.8%Q (sweeping two_points vqe_sampler)).1
         = Return (NearestNeighbour i v)
       ∧ k = 3.0%Q ∧ v = [30%Q]).
Proof.
  split.
  - destruct (nearest_neighbour_guess convert norm_diff gss_solve
                compute_minimum_eigenvalue interpret 1.4%Q
                (sweeping two_points vqe_sampler) two_points 1)
      as (i & k & v & Hkv & _ & _ & Hg & _ & Hcall);
      [reflexivity|reflexivity|reflexivity|discriminate|reflexivity|exact I|].
    destruct (Hcall h2) as (c & Hc & _ & _ & _ & Hinit);
      [reflexivity|reflexivity|discriminate|by eexists|].
    assert (i = 0 ∧ v = [10%Q]) as [-> ->].
    { vm_compute in Hg. by injection Hg as <- <-. }
    exists 0, k, [10%Q], c. split_and!; [done|done| |done|done|done].
    vm_compute in Hkv. by injection Hkv.
  - destruct (nearest_neighbour_guess convert norm_diff gss_solve
                compute_minimum_eigenvalue interpret 2.8%Q
                (sweeping two_points vqe_sampler) two_points 1)
      as (i & k & v & Hkv & _ & _ & Hg & _);
      [reflexivity|reflexivity|reflexivity|discriminate|reflexivity|exact I|].
    assert (i = 1 ∧ v = [30%Q]) as [-> ->].
    { vm_compute in Hg. by injection Hg as <- <-. }
    exists 1, k, [30%Q]. split_and!; [done|done| |done].
    vm_compute in Hkv. by injection Hkv.
Defined.

(** Window 2. A history of two points: the guess for 2.5 is the entry of
    3.0, and the solver gets it; a history of three: the answer of the
    extrapolator, and the solver gets that. In the sweep [1, 2, 3, 4] the
    third invocation starts from a nearest neighbour and the fourth from
    the extrapolation. *)
Lemma warm_start_regime_witness :
  (∃ i, warm_start norm_diff 2.5%Q (sweeping two_points window_sampler)
        = (Return (NearestNeighbour i [30%Q]),
           with_solver_store (alter (set_initial_point (Some [30%Q])) 1)
             (sweeping two_points window_sampler)))
  ∧ ((warm_start norm_diff 2.5%Q (sweeping three_points window_sampler)).1
     = Return (Extrapolated (Some [20%Q]))
     ∧ solver_store
         (warm_start norm_diff 2.5%Q
            (sweeping three_points window_sampler)).2 !! 1 ≫= initial_point
       = Some [20%Q])
  ∧ ∃ c3 c4,
      calls (run h2 [1.0%Q; 2.0%Q; 3.0%Q; 4.0%Q]
               (world_of window_sampler)).2 !! 2 = Some c3
      ∧ calls (run h2 [1.0%Q; 2.0%Q; 3.0%Q; 4.0%Q]
                 (world_of window_sampler)).2 !! 3 = Some c4
      ∧ (∃ i v, call_guess c3 = NearestNeighbour i v
                ∧ call_solver_obj c3 ≫= initial_point = Some v)
      ∧ (∃ v, call_guess c4 = Extrapolated v
              ∧ call_solver_obj c4 ≫= initial_point = v).
Proof.
  destruct (warm_start_regime convert norm_diff gss_solve
              compute_minimum_eigenvalue interpret) as [Hstep Hsweep].
  split; [|split].
  - destruct (Hstep 2.5%Q (sweeping two_points window_sampler)
                two_points 1) as (_ & Hext);
      [reflexivity|reflexivity|reflexivity|discriminate|reflexivity|].
    destruct (Hext 1 {| is_WindowExtrapolator := true; window := 2;
                        extrapolate := last_entry |} 2%Z)
      as (_ & _ & Hnn & _); [reflexivity|reflexivity|reflexivity|].
    destruct (Hnn eq_refl eq_refl) as (v & Hi & Hr & _).
    assert (v = [30%Q]) as ->.
    { vm_compute in Hi. by injection Hi. }
    eexists. exact Hr.
  - destruct (Hstep 2.5%Q (sweeping three_points window_sampler)
                three_points 1) as (_ & Hext);
      [reflexivity|reflexivity|reflexivity|discriminate|reflexivity|].
    destruct (Hext 1 {| is_WindowExtrapolator := true; window := 2;
                        extrapolate := last_entry |} 2%Z)
      as (_ & _ & _ & Hex); [reflexivity|reflexivity|reflexivity|].
    destruct (Hex eq_refl eq_refl) as [Hr Hst].
    split; [by rewrite Hr|exact Hst].
  - pose proof (Hsweep h2 [1.0%Q; 2.0%Q; 3.0%Q; 4.0%Q]
                  (world_of window_sampler) 1) as Hs.
    destruct (calls (run h2 [1.0%Q; 2.0%Q; 3.0%Q; 4.0%Q]
                       (world_of window_sampler)).2 !! 2) as [c3|] eqn:Hc3;
      [|vm_compute in Hc3; discriminate].
    destruct (calls (run h2 [1.0%Q; 2.0%Q; 3.0%Q; 4.0%Q]
                       (world_of window_sampler)).2 !! 3) as [c4|] eqn:Hc4;
      [|vm_compute in Hc4; discriminate].
    exists c3, c4. split_and!; [done|done| |].
    + destruct Hs with (j := 2) (c := c3)
        as (p & _ & _ & _ & _ & _ & Hext);
        [by split|reflexivity|reflexivity
        |apply (bool_decide_unpack _); vm_compute; exact I|exact Hc3|].
      destruct (Hext 1 {| is_WindowExtrapolator := true; window := 2;
                          extrapolate := last_entry |} 2%Z)
        as (_ & _ & Hnn & _); [reflexivity|reflexivity|reflexivity|lia|].
      destruct (Hnn eq_refl eq_refl) as (v & _ & Hg & Hst). eauto.
    + destruct Hs with (j := 3) (c := c4)
        as (p & _ & _ & _ & _ & _ & Hext);
        [by split|reflexivity|reflexivity
        |apply (bool_decide_unpack _); vm_compute; exact I|exact Hc4|].
      destruct (Hext 1 {| is_WindowExtrapolator := true; window := 2;
                          extrapolate := last_entry |} 2%Z)
        as (_ & _ & _ & Hex); [reflexivity|reflexivity|reflexivity|lia|].
      destruct (Hex eq_refl eq_refl) as [Hg Hst]. eauto.
Defined.

(** A sweep over four distinct points with window 2: nothing to look up
    for the first point, the nearest neighbour for the second and the
    third, the extrapolator for the fourth. *)
Lemma crossover_sweep :
  call_guess <$>
    calls (run h2 [1.0%Q; 2.0%Q; 3.0%Q; 4.0%Q] (world_of window_sampler)).2
  = [EmptyHistory;
     NearestNeighbour 0 [1.0%Q; 0%Q];
     NearestNeighbour 1 [2.0%Q; 1%Q];
     Extrapolated (Some [3.0%Q; 2%Q])].
Proof. vm_compute. reflexivity. Qed.

(** *** Sweeps *)

(** The points [0.5, 0.7, 0.6] come back in that order. *)
Lemma sample_order_witness :
  ∃ res w',
    run h2 [0.5%Q; 0.7%Q; 0.6%Q] (world_of vqe_sampler) = (Return res, w')
    ∧ points res = [0.5%Q; 0.7%Q; 0.6%Q]
    ∧ length (energies res) = 3.
Proof.
  destruct (run h2 [0.5%Q; 0.7%Q; 0.6%Q] (world_of vqe_sampler))
    as [[res|e] w'] eqn:Hrun; [|vm_compute in Hrun; discriminate].
  exists res, w'. split; [done|].
  destruct (sample_order convert norm_diff gss_solve
              compute_minimum_eigenvalue interpret _ _ _ _ _ Hrun)
    as (_ & _ & Hnd & Hlen & _).
  assert (points res = [0.5%Q; 0.7%Q; 0.6%Q]) as Hp.
  { apply Hnd. apply (bool_decide_unpack _). vm_compute. exact I. }
  split; [done|]. by rewrite Hlen, Hp.
Defined.

(** Sampling [1.0, 1.0] leaves one entry, the result of the second
    evaluation. *)
Lemma sample_last_write_wins_witness :
  ∃ res w' c r,
    run h2 [1.0%Q; 1.0%Q] (world_of vqe_sampler) = (Return res, w')
    ∧ dict_keys (raw_results res) = [1.0%Q]
    ∧ calls w' !! 1 = Some c
    ∧ call_result c = Return r
    ∧ dict_get 1.0%Q (raw_results res) = Some r.
Proof.
  destruct (run h2 [1.0%Q; 1.0%Q] (world_of vqe_sampler))
    as [[res|e] w'] eqn:Hrun; [|vm_compute in Hrun; discriminate].
  destruct (sample_last_write_wins convert norm_diff gss_solve
              compute_minimum_eigenvalue interpret _ _ _ _ _ Hrun)
    as (_ & _ & _ & Hlast & _).
  destruct (Hlast 1.0%Q) as (c & r & Hc & Hr & Hget).
  { apply (bool_decide_unpack _). vm_compute. exact I. }
  exists res, w', c, r. split_and!; [done| | |done|done].
  - vm_compute in Hrun. injection Hrun as <- _. reflexivity.
  - vm_compute in Hrun. injection Hrun as _ <-.
    vm_compute in Hc. vm_compute. done.
Defined.

(** C8 as stated fails here. A factory that resolves a variational solver
    for the first problem and an exact one for the second: in the second
    call the solver resolved at the start and the instance that solves
    the point are not variational, and the history is not empty: it holds
    the point of the first call, before the sweep and after it. *)
Lemma history_not_empty_without_variational_solver :
  let w := world_of (factory_sampler by_problem_factory) in
  let first := run h2 [1.0%Q] w in
  let start := (bind_problem convert vibrational first.2).2 in
  let second := run vibrational [2.0%Q] first.2 in
  is_variational (solver_store start) (_solver (self start)) = false
  ∧ (λ c, variational <$> call_solver_obj c) <$> new_calls first.2 second.2
    = [Some false]
  ∧ history_entries (self first.2) = [(1.0%Q, [1%Q])]
  ∧ history_entries (self second.2) = [(1.0%Q, [1%Q])]
  ∧ history_entries (self second.2) ≠ [].
Proof. vm_compute. split_and!; done. Qed.

(** An exact solver with the bootstrap flag set: no lookup, no history.
    The second call of the factory above: no lookup, and the history of
    the first call is left as it was. *)
Lemma non_variational_bypass_witness :
  (Forall (λ c, call_guess c = NoLookup)
     (new_calls (world_of exact_sampler)
        (run h2 [1.0%Q; 2.0%Q] (world_of exact_sampler)).2)
   ∧ history_entries
       (self (run h2 [1.0%Q; 2.0%Q] (world_of exact_sampler)).2) = [])
  ∧ let first :=
      run h2 [1.0%Q] (world_of (factory_sampler by_problem_factory)) in
    let second := run vibrational [2.0%Q] first.2 in
    Forall (λ c, call_guess c = NoLookup) (new_calls first.2 second.2)
    ∧ _points_optparams (self second.2) = _points_optparams (self first.2).
Proof.
  split.
  - destruct (non_variational_bypass convert norm_diff gss_solve
                compute_minimum_eigenvalue interpret h2 [1.0%Q; 2.0%Q]
                (world_of exact_sampler)) as [Hkind _].
    destruct Hkind as (Hall & _ & Hempty); [reflexivity|].
    split; [done|]. by apply Hempty.
  - lazy zeta.
    destruct (non_variational_bypass convert norm_diff gss_solve
                compute_minimum_eigenvalue interpret vibrational [2.0%Q]
                (run h2 [1.0%Q]
                   (world_of (factory_sampler by_problem_factory))).2)
      as [_ Htrace].
    destruct Htrace as (Hall & Hh & _); [| |by split].
    + intros w0 Hb. vm_compute in Hb. injection Hb as <-. reflexivity.
    + vm_compute. repeat constructor. discriminate.
Defined.

(** *** The history across calls *)

(** C6 as stated fails here. A factory that resolves a variational solver
    for the first problem and an exact one for the second: the second call
    does not reset the history, which still holds the point of the first
    call. *)
Lemma history_kept_when_not_variational :
  let w := world_of (factory_sampler by_problem_factory) in
  let first := run h2 [1.0%Q] w in
  let second := run vibrational [2.0%Q] first.2 in
  (∃ res, first.1 = Return res)
  ∧ (∃ res, second.1 = Return res)
  ∧ history_entries (self first.2) = [(1.0%Q, [1%Q])]
  ∧ history_entries (self second.2) = [(1.0%Q, [1%Q])].
Proof. vm_compute. split_and!; eauto. Qed.

(** The factory of the counterexample, on the problem for which it
    resolves its variational solver: a history left behind changes
    neither the outcome nor the final state. *)
Lemma history_reset_witness :
  run h2 [1.4%Q]
    (with_self (set_points_optparams (Some two_points))
       (world_of (factory_sampler by_problem_factory)))
  = run h2 [1.4%Q] (world_of (factory_sampler by_problem_factory)).
Proof.
  destruct (bind_problem convert h2
              (world_of (factory_sampler by_problem_factory)))
    as [[[]|e] w0] eqn:Hb; [|vm_compute in Hb; discriminate].
  assert (is_variational (solver_store w0) (_solver (self w0)) = true)
    as Hv.
  { vm_compute in Hb. injection Hb as <-. reflexivity. }
  destruct (history_reset convert norm_diff gss_solve
              compute_minimum_eigenvalue interpret h2 [1.4%Q]
              (world_of (factory_sampler by_problem_factory)))
    as (Hreset & _).
  destruct (Hreset w0 Hb Hv (Some two_points)) as (_ & _ & Hsame).
  exact Hsame.
Defined.

(** *** The factory path *)

(** C2, at the input where it fails. A factory that builds a new solver at
    every call, points [1.0, 2.0]: for the second point the warm start chooses the optimum [[1]] of the
    first, and writes it to the instance that solved the first point; the
    instance that solves the second point is another one, and starts from
    the initial point [[0]] of the factory. *)
Lemma factory_warm_start_lost :
  let r := run h2 [1.0%Q; 2.0%Q] (world_of (factory_sampler fresh_vqe_factory)) in
  ∃ res c1 c2,
    r.1 = Return res
    ∧ calls r.2 = [c1; c2]
    ∧ call_guess c2 = NearestNeighbour 0 [1%Q]
    ∧ call_solver c1 = Some 4 ∧ call_solver c2 = Some 5
    ∧ call_solver_obj c2 ≫= initial_point = Some [0%Q]
    ∧ solver_store r.2 !! 4 ≫= initial_point = Some [1%Q].
Proof. vm_compute. eexists _, _, _. split_and!; reflexivity. Qed.

(** *** Further instances *)

(** A list of operators: the first one is converted; no operator at all
    is an [IndexError]. *)
Lemma prepare_problem_list_witness :
  (prepare_problem convert h2 (Some tt) (OpsList ["H"; "N"])).1 = Return "H"
  ∧ (prepare_problem convert h2 (Some tt) (OpsList [])).1 = Raise IndexError.
Proof.
  split.
  - destruct (prepare_problem_list convert h2 (Some tt) ["H"; "N"])
      as (_ & _ & Hhd).
    exact (Hhd "H" ["N"] eq_refl).
  - destruct (prepare_problem_list convert h2 (Some tt) [])
      as (_ & Hnil & _).
    exact (Hnil eq_refl).
Defined.

(** A driver of no supported kind is refused before any solve. *)
Lemma sample_rejects_problem_witness :
  raises (run unsupported [1.0%Q] (world_of vqe_sampler)).1
    is_QiskitNatureError
  ∧ calls (run unsupported [1.0%Q] (world_of vqe_sampler)).2 = [].
Proof.
  destruct (sample_rejects_problem convert norm_diff gss_solve
              compute_minimum_eigenvalue interpret unsupported [1.0%Q]
              (world_of vqe_sampler)) as [Hr Hw].
  { intros [Hk _]. by apply Hk. }
  split; [exact Hr|]. unfold run. by rewrite Hw.
Defined.

(** A factory and a problem without its main operator: the [ValueError] of
    [prepare_problem] comes out of [sample], and no solver was built. *)
Lemma sample_factory_fails_fast_witness :
  ∃ msg,
    run no_main [1.0%Q] (world_of (factory_sampler fresh_vqe_factory))
    = (Raise (ValueError msg),
       with_self (set_problem (Some no_main))
         (world_of (factory_sampler fresh_vqe_factory))).
Proof.
  destruct (sample_factory_fails_fast convert norm_diff gss_solve
              compute_minimum_eigenvalue interpret no_main [1.0%Q]
              (world_of (factory_sampler fresh_vqe_factory))
              fresh_vqe_factory) as [_ Hprep].
  { split; [discriminate|by eexists]. }
  { reflexivity. }
  eexists. apply (Hprep tt); reflexivity.
Defined.

(** Two results with energies: the first energy of each; a result without
    energies: [IndexError]. *)
Lemma aggregate_outcome_witness :
  (∃ res, (aggregate two_results (world_of vqe_sampler)).1 = Return res
          ∧ energies res = [5%Q; 4%Q])
  ∧ (aggregate no_energy (world_of vqe_sampler)).1 = Raise IndexError.
Proof.
  split.
  - destruct (aggregate_outcome two_results (world_of vqe_sampler))
      as (_ & Hok & _).
    destruct Hok as (res & Hres & _ & _ & _ & Hen).
    { by repeat constructor. }
    exists res. split; [exact Hres|exact Hen].
  - destruct (aggregate_outcome no_energy (world_of vqe_sampler))
      as (_ & _ & Hbad).
    apply Hbad. intros Hall.
    apply Forall_cons in Hall as [_ Hall].
    apply Forall_cons in Hall as [Hne _]. by apply Hne.
Defined.

(** A sweep of the variational sampler keeps its solver and leaves the
    exact solver of the store alone. *)
Lemma sample_frame_witness :
  _solver (self (run h2 [0.5%Q; 0.7%Q] (world_of vqe_sampler)).2) = Some 1
  ∧ solver_store (run h2 [0.5%Q; 0.7%Q] (world_of vqe_sampler)).2 !! 2
    = Some numpy_solver.
Proof.
  destruct (sample_frame convert norm_diff gss_solve
              compute_minimum_eigenvalue interpret h2 [0.5%Q; 0.7%Q]
              (world_of vqe_sampler)) as (_ & _ & Hpre).
  destruct (Hpre 1 eq_refl) as [Hs Hst].
  split; [exact Hs|].
  destruct (Hst 2) as [_ Heq].
  etrans; [apply Heq; discriminate|reflexivity].
Defined.

(** After the sweep [0.5, 0.7] the molecule is left at 0.7. *)
Lemma sample_leaves_last_geometry_witness :
  _problem (self (run h2 [0.5%Q; 0.7%Q] (world_of vqe_sampler)).2)
  = Some (perturb 0.7%Q h2).
Proof.
  destruct (run h2 [0.5%Q; 0.7%Q] (world_of vqe_sampler))
    as [[res|e] w'] eqn:Hrun; [|vm_compute in Hrun; discriminate].
  destruct (sample_leaves_last_geometry convert norm_diff gss_solve
              compute_minimum_eigenvalue interpret h2 [0.5%Q; 0.7%Q]
              (world_of vqe_sampler)) as [Hret _].
  unfold run in Hrun. rewrite Hrun in Hret. exact (Hret res eq_refl).
Defined.

(** A solver that fails at its second invocation: of the points
    [1, 2, 3] the third is never evaluated and [sample] raises the
    exception of the solver. *)
Lemma sample_stops_at_first_failure_witness :
  (run_failing h2 [1.0%Q; 2.0%Q; 3.0%Q] (world_of vqe_sampler)).1
  = Raise (SolverError 1)
  ∧ call_point <$>
      calls (run_failing h2 [1.0%Q; 2.0%Q; 3.0%Q] (world_of vqe_sampler)).2
    = [1.0%Q; 2.0%Q].
Proof.
  destruct (sample_stops_at_first_failure convert norm_diff failing_solve
              compute_minimum_eigenvalue interpret h2
              [1.0%Q; 2.0%Q; 3.0%Q] (world_of vqe_sampler))
    as (_ & _ & Hfail).
  split; [|reflexivity].
  destruct (calls (run_failing h2 [1.0%Q; 2.0%Q; 3.0%Q]
                     (world_of vqe_sampler)).2 !! 1) as [c|] eqn:Hc;
    [|vm_compute in Hc; discriminate].
  destruct (Hfail c (SolverError 1)) as [Hr _]; [| |exact Hr].
  - unfold new_calls. cbn [calls world_of length drop].
    by apply list_elem_of_lookup_2 in Hc.
  - vm_compute in Hc. by injection Hc as <-.
Defined.

(** The window sampler returns from a sweep over [h2]. *)
Lemma sample_returns_witness :
  ∃ res, (run h2 [0.5%Q; 0.7%Q; 0.6%Q] (world_of window_sampler)).1
         = Return res.
Proof.
  apply (sample_returns convert norm_diff gss_solve
           compute_minimum_eigenvalue interpret h2 _ _ 1).
  - by split.
  - intros ext [= <-]. split; by eexists.
  - split; [discriminate|by eexists].
  - intros q n o _. eexists. split; [reflexivity|discriminate].
Defined.

(** The solver holds the guess [[10]] of an earlier sweep; the first
    solve of the next sweep starts from the saved initial point [[7]]. *)
Lemma sample_cold_start_witness :
  solver_store warmed !! 1 ≫= initial_point = Some [10%Q]
  ∧ ∃ c, head (calls (run h2 [0.5%Q; 0.7%Q] warmed).2) = Some c
         ∧ call_solver_obj c ≫= initial_point = Some [7%Q].
Proof.
  split; [reflexivity|].
  destruct (sample_cold_start convert norm_diff gss_solve
              compute_minimum_eigenvalue interpret h2 [0.5%Q; 0.7%Q]
              warmed 1) as [Hhead _].
  { by split. }
  { reflexivity. }
  destruct (head (calls (run h2 [0.5%Q; 0.7%Q] warmed).2)) as [c|] eqn:Hc;
    [|vm_compute in Hc; discriminate].
  exists c. split; [done|]. apply Hhead.
  unfold new_calls. cbn [calls warmed with_solver_store world_of length drop].
  exact Hc.
Defined.

(** Construction with the window extrapolator and window 3. *)
Lemma init_establishes_ready_witness :
  ∃ s est',
    construct (GroundStateSolver 1) true (Some 3%Z) (Some 1) None
    = (Return s, est')
    ∧ _solver s = Some 1
    ∧ _num_bootstrap s = Some 3%Z
    ∧ is_Some (est' !! 1)
    ∧ _initial_point s = Some [7%Q].
Proof.
  destruct (construct (GroundStateSolver 1) true (Some 3%Z) (Some 1) None)
    as [[s|e] est'] eqn:Hc; [|vm_compute in Hc; discriminate].
  exists s, est'. split; [done|].
  destruct (init_establishes_ready (energy := Q) (op := string)
              (converter := unit) (particles := nat) (locator := unit)
              solvers 1 0.001%Q true (Some 3%Z) (Some 1) None
              extrapolators est' s [] Hc)
    as ([_ Hs] & Hwin & _ & _ & Hip).
  { intros x [= <-]. by eexists. }
  cbn [self extrapolator_store] in *.
  assert (_extrapolator s = Some 1 ∧ _num_bootstrap s = Some 3%Z)
    as [Hext Hnb].
  { vm_compute in Hc. injection Hc as <- _. by split. }
  destruct (Hwin 1 Hext) as [Hin _].
  split_and!; [exact Hs|exact Hnb|exact Hin|].
  rewrite Hip; reflexivity.
Defined.

(** The exact solver is left as it was; with bootstrapping switched off,
    the variational solver that held the guess [[10]] ends with the saved
    initial point [[7]]. *)
Lemma sample_without_warm_start_witness :
  solver_store (run h2 [0.5%Q; 0.7%Q] (world_of exact_sampler)).2 = solvers
  ∧ solver_store
      (run h2 [0.5%Q; 0.7%Q] (with_self (set_bootstrap false) warmed)).2 !! 1
    = Some (vqe (Some [7%Q])).
Proof.
  split.
  - apply (sample_without_warm_start convert norm_diff gss_solve
             compute_minimum_eigenvalue interpret h2 _
             (world_of exact_sampler) 2).
    + by split.
    + split; [discriminate|by eexists].
    + reflexivity.
  - unfold run.
    rewrite (sample_without_warm_start convert norm_diff gss_solve
               compute_minimum_eigenvalue interpret h2 _
               (with_self (set_bootstrap false) warmed) 1).
    + reflexivity.
    + by split.
    + split; [discriminate|by eexists].
    + reflexivity.
Defined.
